(** * Translations tooling: [util.mjs] and [.github/util.mjs]

    A shallow embedding of the two copies of the translation utility of
    the repository and the properties of its merge / validate commands.

    The first copy ([util.mjs], importing [./index.json]) is embedded in
    module [NonDiffing]; the second one ([.github/util.mjs], which adds
    the diff against a previous [index.json], the pattern list and the
    warnings) in module [Diffing].  What both copies share word for word
    ([count], [translationToObj], [objToTranslation], the command
    resolution) is embedded once. *)

From Stdlib Require Import String Ascii List ZArith Lia Bool Arith.
From Stdlib Require Import DecimalString RelationClasses.
Import ListNotations.

Local Open Scope string_scope.
Local Open Scope list_scope.

(** ** JavaScript strings

    A JavaScript string is a finite sequence of UTF-16 code units.  A
    character of a model string stands for one code unit below 256; the
    operations used by the program ([split], [===], template literals)
    compare and copy code units and do not look at their value, except
    [toLowerCase]. *)

Module JsString.

Fixpoint take (n : nat) (s : string) : string :=
  match n, s with
  | S n', String c s' => String c (take n' s')
  | _, _ => ""
  end.

Fixpoint drop (n : nat) (s : string) : string :=
  match n, s with
  | S n', String _ s' => drop n' s'
  | _, _ => s
  end.

(** [StringIndexOf(s, sep, 0)]: the least index at which [sep] occurs
    in [s]. *)
Fixpoint StringIndexOf (sep s : string) : option nat :=
  if prefix sep s then Some 0
  else match s with
       | "" => None
       | String _ s' => option_map S (StringIndexOf sep s')
       end.

(** [String.prototype.split] with an empty separator: one piece per
    code unit, and no piece at all for the empty string. *)
Fixpoint splitCodeUnits (s : string) : list string :=
  match s with
  | "" => []
  | String c s' => String c "" :: splitCodeUnits s'
  end.

(** The loop of [String.prototype.split] for a non-empty separator:
    look for the next occurrence from the current position, cut the
    piece before it and go on after the separator; the rest of the
    string is the last piece.  The remaining text replaces the pair
    (string, position) of the standard; an occurrence consumes at
    least one code unit, so [length s] iterations are enough. *)
Fixpoint splitLoop (fuel : nat) (sep s : string) : list string :=
  match fuel with
  | 0 => [s]
  | S fuel' =>
      match StringIndexOf sep s with
      | None => [s]
      | Some j => take j s :: splitLoop fuel' sep (drop (j + String.length sep) s)
      end
  end.

(** [s.split(sep)], [sep] a string and no limit argument.  (The
    default limit 2^32 - 1 exceeds the number of pieces of any string
    an engine can build.) *)
Definition split (s sep : string) : list string :=
  if (sep =? "")%string then splitCodeUnits s
  else splitLoop (String.length s) sep s.

(** [Number::toString] of an integer, as a template literal prints
    it. *)
Definition numberToString (n : Z) : string :=
  NilZero.string_of_int (Z.to_int n).

(** [toLowerCase] on one code unit below 256: the letters A-Z, and
    the capital letters of the Latin-1 block (0xC0-0xDE, the
    multiplication sign 0xD7 apart). *)
Definition lowerCodeUnit (c : ascii) : ascii :=
  let n := nat_of_ascii c in
  if ((65 <=? n) && (n <=? 90))%nat then ascii_of_nat (n + 32)
  else if ((192 <=? n) && (n <=? 222) && negb (n =? 215))%nat
       then ascii_of_nat (n + 32)
       else c.

Fixpoint toLowerCase (s : string) : string :=
  match s with
  | "" => ""
  | String c s' => String (lowerCodeUnit c) (toLowerCase s')
  end.

End JsString.

Import JsString.

(** ** [count] (both copies, lines 31 and 156)

    [const count = (str, sub) => str.split(sub).length - 1] *)

Definition count (str sub : string) : Z :=
  Z.of_nat (List.length (split str sub)) - 1.


(** ** Objects

    A translation is a flat JSON object: string keys, string values.
    It is kept as the list of its own properties in enumeration order
    (the order of [Object.keys], of [for ... in] and of
    [JSON.stringify]); the keys of an object are pairwise distinct. *)

Definition Obj : Type := list (string * string).

(** [Object.keys(o)] *)
Definition keys (o : Obj) : list string := map fst o.

(** The value of the own property [k], if there is one. *)
Fixpoint lookup (k : string) (o : Obj) : option string :=
  match o with
  | [] => None
  | (k', v) :: o' => if (k' =? k)%string then Some v else lookup k o'
  end.

(** [o.hasOwnProperty(k)], when [hasOwnProperty] is the built-in
    one. *)
Definition hasOwnProperty (o : Obj) (k : string) : bool :=
  match lookup k o with
  | Some _ => true
  | None => false
  end.

(** The parsed objects and the object literals of the program have
    [Object.prototype] as prototype; these are its property names (none
    of them enumerable, all of them functions except the accessor
    [__proto__], which yields [Object.prototype] itself). *)
Definition Object_prototype : list string :=
  [ "constructor"; "__defineGetter__"; "__defineSetter__";
    "hasOwnProperty"; "__lookupGetter__"; "__lookupSetter__";
    "isPrototypeOf"; "propertyIsEnumerable"; "toString"; "valueOf";
    "__proto__"; "toLocaleString" ].

(** [Array.prototype.includes] on an array of strings. *)
Definition includes (l : list string) (x : string) : bool :=
  existsb (String.eqb x) l.

Definition inherited (k : string) : bool := includes Object_prototype k.

(** [k in o]: an own property or one found along the prototype
    chain. *)
Definition has (k : string) (o : Obj) : bool :=
  hasOwnProperty o k || inherited k.

(** What a property read can give: a string of the object itself, a
    function or object of [Object.prototype], or [undefined]. *)
Inductive value : Type :=
| VString (s : string)
| VBuiltin
| VUndefined.

(** [o[k]] *)
Definition get (o : Obj) (k : string) : value :=
  match lookup k o with
  | Some v => VString v
  | None => if inherited k then VBuiltin else VUndefined
  end.

(** [o[k] = v]: an own property keeps its place and takes the new
    value.  (A key that is not an own property would be added last;
    the program assigns only after it has read [default_lang[k]] as a
    string, so it never does that.) *)
Fixpoint set (o : Obj) (k v : string) : Obj :=
  match o with
  | [] => [(k, v)]
  | (k', v') :: o' =>
      if (k' =? k)%string then (k', v) :: o' else (k', v') :: set o' k v
  end.

(** [{ ...o }] copies the own properties in order. *)
Definition spread (o : Obj) : Obj := o.

(** ** The manifest and the files

    [index.json]: the default language and, per language code, the
    file of its translation (the other fields of an entry are not
    read). *)

Record Index : Type := mkIndex {
  index_default_lang : string;
  index_translations : list (string * string)
}.

(** The contents of a file, as [JSON.parse] gives it and
    [JSON.stringify] prints it: a translation, a manifest, or the
    report written to [.result.json] (its fields and their arrays). *)
Inductive File : Type :=
| TranslationFile (o : Obj)
| IndexFile (idx : Index)
| ReportFile (r : list (string * list string)).

(** The files of the working directory by name.  The script reads
    [./name] (lines 16 and 141) and tests and writes [name] (lines 68,
    178 and 221): for a name relative to the working directory the two
    are the same file, and the model has one entry for it.  For an
    absolute name they are two files; what is stated about a file that
    is read under one form after it was tested or written under the
    other is stated for relative names ([relative]).  The first entry of
    a name is its contents. *)
Definition FS : Type := list (string * File).

(** A path that does not start at the root, so that [./name] is
    [name]. *)
Definition relative (name : string) : bool := negb (prefix "/" name).

Fixpoint readFile (fs : FS) (name : string) : option File :=
  match fs with
  | [] => None
  | (n, f) :: fs' => if (n =? name)%string then Some f else readFile fs' name
  end.

Definition writeFile (fs : FS) (name : string) (f : File) : FS :=
  (name, f) :: fs.

(** ** Exceptions, the process state and the monad of the script *)

Inductive Exn : Type :=
| TypeError                 (* calling what is not a function *)
| ENOENT (name : string)    (* reading a file that does not exist *)
| EISDIR                    (* reading [./], the directory itself *)
| Malformed (name : string) (* contents that are not of the expected shape *)
| ProcessExit (code : nat). (* [exit(code)] *)

Inductive Result (A : Type) : Type :=
| Ok (a : A)
| Throw (e : Exn).

Arguments Ok {A} a.
Arguments Throw {A} e.

Definition bindR {A B : Type} (r : Result A) (k : A -> Result B) : Result B :=
  match r with
  | Ok a => k a
  | Throw e => Throw e
  end.

(** A line of the standard output: a text, or the inspection of the
    report object. *)
Inductive Line (R : Type) : Type :=
| Text (s : string)
| Inspect (r : R).

Arguments Text {R} s.
Arguments Inspect {R} r.

(** The state the script acts on: the files, the report [res] and what
    was printed.  [R] is the type of the report, which has one more
    field in the second copy. *)
Record World (R : Type) : Type := mkWorld {
  fs : FS;
  res : R;
  stdout : list (Line R)
}.

Arguments mkWorld {R} fs res stdout.
Arguments fs {R} w.
Arguments res {R} w.
Arguments stdout {R} w.

Definition M (R A : Type) : Type := World R -> Result A * World R.

Definition ret {R A : Type} (a : A) : M R A := fun w => (Ok a, w).

Definition bind {R A B : Type} (c : M R A) (k : A -> M R B) : M R B :=
  fun w =>
    match c w with
    | (Ok a, w') => k a w'
    | (Throw e, w') => (Throw e, w')
    end.

Definition throw {R A : Type} (e : Exn) : M R A := fun w => (Throw e, w).

Definition lift {R A : Type} (r : Result A) : M R A := fun w => (r, w).

Notation "x <- c ;; k" := (bind c (fun x => k))
  (at level 61, c at next level, right associativity).
Notation "c ;;; k" := (bind c (fun _ => k))
  (at level 61, right associativity).

(** [l.forEach(f)] *)
Fixpoint forEach {R A : Type} (l : list A) (f : A -> M R unit) : M R unit :=
  match l with
  | [] => ret tt
  | a :: l' => f a ;;; forEach l' f
  end.

(** A loop over [l] that updates a local variable. *)
Fixpoint foldM {R A B : Type} (f : B -> A -> M R B) (l : list A) (b : B) : M R B :=
  match l with
  | [] => ret b
  | a :: l' => b' <- f b a ;; foldM f l' b'
  end.

(** [l.every(f)], for a callback that may throw. *)
Fixpoint every {A : Type} (f : A -> Result bool) (l : list A) : Result bool :=
  match l with
  | [] => Ok true
  | a :: l' => bindR (f a) (fun b => if b then every f l' else Ok false)
  end.

(** [existsSync(name)]; the empty path names no file. *)
Definition existsSync {R : Type} (name : string) : M R bool :=
  fun w =>
    (Ok (match readFile (fs w) name with
         | Some _ => negb (name =? "")%string
         | None => false
         end), w).

(** [writeFileSync(name, contents)] *)
Definition writeFileSync {R : Type} (name : string) (f : File) : M R unit :=
  fun w => (Ok tt, mkWorld (writeFile (fs w) name f) (res w) (stdout w)).

(** [console.log(...)] *)
Definition console_log {R : Type} (l : Line R) : M R unit :=
  fun w => (Ok tt, mkWorld (fs w) (res w) (stdout w ++ [l])).

(** [exit(code)] *)
Definition exit {R A : Type} (code : nat) : M R A := throw (ProcessExit code).

(** [translationToObj] (lines 16 and 141):
    [JSON.parse(readFileSync(`./${translation_file}`, ...))].  The file
    is looked up under [translation_file], which is the file [./name]
    for a relative name (see [FS]); [./] alone is the directory. *)
Definition translationToObj {R : Type} (translation_file : string) : M R File :=
  fun w =>
    if (translation_file =? "")%string then (Throw EISDIR, w)
    else
      match readFile (fs w) translation_file with
      | Some f => (Ok f, w)
      | None => (Throw (ENOENT translation_file), w)
      end.

(** The parsed contents used as a translation.  The data model has
    translation files hold flat mappings of strings, and the script
    checks nothing: on a file of another shape the model stops with
    [Malformed], and no property is stated there. *)
Definition asTranslation {R : Type} (name : string) (f : File) : M R Obj :=
  match f with
  | TranslationFile o => ret o
  | _ => throw (Malformed name)
  end.

(** The parsed contents used as a manifest, likewise. *)
Definition asIndex {R : Type} (name : string) (f : File) : M R Index :=
  match f with
  | IndexFile idx => ret idx
  | _ => throw (Malformed name)
  end.

(** [objToTranslation] (lines 23 and 148), on a translation. *)
Definition objToTranslation (translation_obj : Obj) : File :=
  TranslationFile translation_obj.

(** [count] applied to what a property read gave: [str.split] is a
    function only when [str] is a string. *)
Definition countValue (str : value) (sub : string) : Result Z :=
  match str with
  | VString s => Ok (count s sub)
  | _ => Throw TypeError
  end.

(** [v === s], [s] a string: no other value is strictly equal to a
    string. *)
Definition strictEquals (v : value) (s : string) : bool :=
  match v with
  | VString s' => (s' =? s)%string
  | _ => false
  end.

(** [!!arg] for an optional string: [undefined] and the empty string
    are falsy. *)
Definition truthy (arg : option string) : bool :=
  match arg with
  | Some a => negb (a =? "")%string
  | None => false
  end.

(** [process.argv[2]?.toLowerCase()] (lines 96 and 255) *)
Definition command (argv2 : option string) : option string :=
  option_map toLowerCase argv2.

Definition newline : string := String (ascii_of_nat 10) "".

Definition dquote : string := String (ascii_of_nat 34) "".

(** [l.join(", ")] *)
Fixpoint join (sep : string) (l : list string) : string :=
  match l with
  | [] => ""
  | [x] => x
  | x :: l' => x ++ sep ++ join sep l'
  end.

(** ** The second copy: [.github/util.mjs] (lines 116-274) *)

Module Diffing.

(** [res] (lines 130-134) *)
Record Report : Type := mkReport {
  changed : list string;
  errors : list string;
  warnings : list string
}.

Definition res0 : Report := mkReport [] [] [].

(** [res.changed.push(x)], [res.errors.push(x)], [res.warnings.push(x)] *)
Definition push_changed (x : string) : M Report unit :=
  fun w =>
    (Ok tt, mkWorld (fs w)
              (mkReport (changed (res w) ++ [x]) (errors (res w)) (warnings (res w)))
              (stdout w)).

Definition push_error (x : string) : M Report unit :=
  fun w =>
    (Ok tt, mkWorld (fs w)
              (mkReport (changed (res w)) (errors (res w) ++ [x]) (warnings (res w)))
              (stdout w)).

Definition push_warning (x : string) : M Report unit :=
  fun w =>
    (Ok tt, mkWorld (fs w)
              (mkReport (changed (res w)) (errors (res w)) (warnings (res w) ++ [x]))
              (stdout w)).

(** [objToTranslation(res)] (line 274) *)
Definition reportToTranslation (r : Report) : File :=
  ReportFile [("changed", changed r); ("errors", errors r); ("warnings", warnings r)].

(** [patternCheck] (line 166) *)
Definition patternCheck (source translation : value) (pattern : string) : Result (Z * Z) :=
  bindR (countValue source pattern) (fun s =>
  bindR (countValue translation pattern) (fun t =>
  Ok (s, t))).

(** [objHasAllKeys] (line 193).  [y.hasOwnProperty] is looked up in
    [y] first: an own property of that name is a string, and the call
    throws. *)
Definition callHasOwnProperty (y : Obj) (z : string) : Result bool :=
  match lookup "hasOwnProperty" y with
  | Some _ => Throw TypeError
  | None => Ok (hasOwnProperty y z)
  end.

Definition objHasAllKeys (x y : Obj) : Result bool :=
  if (List.length (keys x) =? List.length (keys y))%nat
  then every (callHasOwnProperty y) (keys x)
  else Ok false.

(** [patterns] (line 195) *)
Definition patterns : list string := ["{}"; "%"].

(** The error of lines 212 and 238. *)
Definition errorMessage (translation key pattern : string) (source_count translation_count : Z) : string :=
  translation ++ "[" ++ key ++ "]: incorrect number of `" ++ pattern
    ++ "` found (" ++ numberToString source_count ++ ":"
    ++ numberToString translation_count ++ ")".

(** The warning of line 243. *)
Definition warningMessage (translation key : string) : string :=
  translation ++ "[" ++ key ++ "]: might be untranslated".

(** The [patterns.forEach] of lines 209-214 and 235-240. *)
Definition checkPatterns (translation key : string) (source_value translation_value : value) : M Report unit :=
  forEach patterns (fun pattern =>
    paramInfo <- lift (patternCheck source_value translation_value pattern) ;;
    if negb (fst paramInfo =? snd paramInfo)%Z
    then push_error (errorMessage translation key pattern (fst paramInfo) (snd paramInfo))
    else ret tt).

Section Script.

Variable index : Index.

(** Lines 168 and 170. *)
Definition default_lang_file : string := index_default_lang index ++ ".json".

Definition translations : list string :=
  filter (fun x => negb (x =? default_lang_file)%string)
         (map snd (index_translations index)).

(** [newTranslations] (lines 177-185) *)
Definition newTranslations (oldTranslationFile : string) : M Report (list string) :=
  present <- existsSync oldTranslationFile ;;
  if negb present then ret translations
  else
    f <- translationToObj oldTranslationFile ;;
    old <- asIndex oldTranslationFile f ;;
    let oldTranslations :=
      filter (fun x => negb (x =? default_lang_file)%string)
             (map snd (index_translations old)) in
    let uniq := filter (fun x => negb (includes oldTranslations x)) translations in
    if (List.length uniq =? 0)%nat then ret translations
    else ret uniq.

Section Loaded.

(** [default_lang] (line 169), once loaded. *)
Variable default_lang : Obj.

(** Lines 205-218 of [mergeFunc]: [res_obj] after the loop.  The loop
    visits the own properties of [translation_obj] in order; [tv] is
    [translation_obj[key]]. *)
Definition mergeFunc_res_obj (translation : string) (translation_obj : Obj) : M Report Obj :=
  foldM (fun res_obj '(key, tv) =>
           if has key res_obj then
             checkPatterns translation key (get default_lang key) (VString tv) ;;;
             ret (set res_obj key tv)
           else ret res_obj)
        translation_obj (spread default_lang).

(** [mergeFunc] (lines 203-224) *)
Definition mergeFunc (translation : string) : M Report unit :=
  f <- translationToObj translation ;;
  translation_obj <- asTranslation translation f ;;
  res_obj <- mergeFunc_res_obj translation translation_obj ;;
  same <- lift (objHasAllKeys res_obj translation_obj) ;;
  if negb same then
    writeFileSync translation (objToTranslation res_obj) ;;;
    push_changed translation
  else ret tt.

(** [validateFunc] (lines 230-247) *)
Definition validateFunc (translation : string) : M Report unit :=
  f <- translationToObj translation ;;
  translation_obj <- asTranslation translation f ;;
  forEach translation_obj (fun '(key, tv) =>
    if has key default_lang then
      checkPatterns translation key (get default_lang key) (VString tv) ;;;
      (if strictEquals (get default_lang key) tv
       then push_warning (warningMessage translation key)
       else ret tt)
    else ret tt).

(** [commands] (lines 249-252) *)
Definition commands : list (string * (string -> M Report unit)) :=
  [("merge", mergeFunc); ("validate", validateFunc)].

(** [commands[command]] *)
Fixpoint getCommand (l : list (string * (string -> M Report unit))) (name : string) : option (string -> M Report unit) :=
  match l with
  | [] => None
  | (n, f) :: l' => if (n =? name)%string then Some f else getCommand l' name
  end.

End Loaded.

(** [commandNames] (line 256): the names do not depend on the loaded
    file. *)
Definition commandNames : list string := map fst (commands []).

(** Lines 264-271: the files the command is run on. *)
Definition dispatch (run : string -> M Report unit) (arg : option string) : M Report unit :=
  match arg with
  | Some a =>
      if truthy arg && includes translations a then run a
      else
        l <- (if truthy arg then newTranslations a else ret translations) ;;
        forEach l run
  | None => forEach translations run
  end.

(** The script, from the loading of the default language (line 169) to
    the report (lines 273-274). *)
Definition main (argv2 argv3 : option string) : M Report unit :=
  f <- translationToObj default_lang_file ;;
  default_lang <- asTranslation default_lang_file f ;;
  match command argv2 with
  | None =>
      console_log (Text ("No command provided" ++ newline
                         ++ "Available commands: " ++ join ", " commandNames)) ;;;
      exit 1
  | Some c =>
      if negb (includes commandNames c) then
        console_log (Text ("Command " ++ dquote ++ c ++ dquote ++ " does not exist"
                           ++ newline ++ "Available commands: "
                           ++ join ", " commandNames)) ;;;
        exit 1
      else
        match getCommand (commands default_lang) c with
        | None => throw TypeError
        | Some run =>
            dispatch run argv3 ;;;
            (fun w => console_log (Inspect (res w)) w) ;;;
            (fun w => writeFileSync ".result.json" (reportToTranslation (res w)) w)
        end
  end.

End Script.

End Diffing.

(** ** The first copy: [util.mjs] (lines 1-115) *)

Module NonDiffing.

(** [res] (lines 6-9) *)
Record Report : Type := mkReport {
  changed : list string;
  errors : list string
}.

Definition res0 : Report := mkReport [] [].

Definition push_changed (x : string) : M Report unit :=
  fun w =>
    (Ok tt, mkWorld (fs w) (mkReport (changed (res w) ++ [x]) (errors (res w))) (stdout w)).

Definition push_error (x : string) : M Report unit :=
  fun w =>
    (Ok tt, mkWorld (fs w) (mkReport (changed (res w)) (errors (res w) ++ [x])) (stdout w)).

(** [objToTranslation(res)] (line 115) *)
Definition reportToTranslation (r : Report) : File :=
  ReportFile [("changed", changed r); ("errors", errors r)].

(** [validateParams] (line 40) *)
Definition validateParams (source translation : value) : Result (Z * Z) :=
  bindR (countValue source "{}") (fun s =>
  bindR (countValue translation "{}") (fun t =>
  Ok (s, t))).

(** The error of lines 60 and 84. *)
Definition errorMessage (translation key : string) (source_count translation_count : Z) : string :=
  translation ++ "[" ++ key ++ "]: incorrect number of parameters ("
    ++ numberToString source_count ++ ":"
    ++ numberToString translation_count ++ ")".

(** Lines 58-61 and 82-85. *)
Definition checkParams (translation key : string) (source_value translation_value : value) : M Report unit :=
  paramInfo <- lift (validateParams source_value translation_value) ;;
  if negb (fst paramInfo =? snd paramInfo)%Z
  then push_error (errorMessage translation key (fst paramInfo) (snd paramInfo))
  else ret tt.

Section Script.

Variable index : Index.

(** Lines 42 and 44. *)
Definition default_lang_file : string := index_default_lang index ++ ".json".

Definition translations : list string :=
  filter (fun x => negb (x =? default_lang_file)%string)
         (map snd (index_translations index)).

Section Loaded.

(** [default_lang] (line 43), once loaded. *)
Variable default_lang : Obj.

(** Lines 54-65 of [mergeFunc]: [res_obj] after the loop. *)
Definition mergeFunc_res_obj (translation : string) (translation_obj : Obj) : M Report Obj :=
  foldM (fun res_obj '(key, tv) =>
           if has key res_obj then
             checkParams translation key (get default_lang key) (VString tv) ;;;
             ret (set res_obj key tv)
           else ret res_obj)
        translation_obj (spread default_lang).

(** [mergeFunc] (lines 52-71): the file is written when the two
    objects differ in their number of keys. *)
Definition mergeFunc (translation : string) : M Report unit :=
  f <- translationToObj translation ;;
  translation_obj <- asTranslation translation f ;;
  res_obj <- mergeFunc_res_obj translation translation_obj ;;
  if negb (List.length (keys res_obj) =? List.length (keys translation_obj))%nat then
    writeFileSync translation (objToTranslation res_obj) ;;;
    push_changed translation
  else ret tt.

(** [validateFunc] (lines 77-88) *)
Definition validateFunc (translation : string) : M Report unit :=
  f <- translationToObj translation ;;
  translation_obj <- asTranslation translation f ;;
  forEach translation_obj (fun '(key, tv) =>
    if has key default_lang then
      checkParams translation key (get default_lang key) (VString tv)
    else ret tt).

(** [commands] (lines 90-93) *)
Definition commands : list (string * (string -> M Report unit)) :=
  [("merge", mergeFunc); ("validate", validateFunc)].

Fixpoint getCommand (l : list (string * (string -> M Report unit))) (name : string) : option (string -> M Report unit) :=
  match l with
  | [] => None
  | (n, f) :: l' => if (n =? name)%string then Some f else getCommand l' name
  end.

End Loaded.

(** [commandNames] (line 97) *)
Definition commandNames : list string := map fst (commands []).

(** Lines 105-112: the files the command is run on. *)
Definition dispatch (run : string -> M Report unit) (arg : option string) : M Report unit :=
  match arg with
  | Some a =>
      if truthy arg && includes translations a then run a
      else forEach translations run
  | None => forEach translations run
  end.

(** The script, from the loading of the default language (line 43) to
    the report (lines 114-115). *)
Definition main (argv2 argv3 : option string) : M Report unit :=
  f <- translationToObj default_lang_file ;;
  default_lang <- asTranslation default_lang_file f ;;
  match command argv2 with
  | None =>
      console_log (Text ("No command provided" ++ newline
                         ++ "Available commands: " ++ join ", " commandNames)) ;;;
      exit 1
  | Some c =>
      if negb (includes commandNames c) then
        console_log (Text ("Command " ++ dquote ++ c ++ dquote ++ " does not exist"
                           ++ newline ++ "Available commands: "
                           ++ join ", " commandNames)) ;;;
        exit 1
      else
        match getCommand (commands default_lang) c with
        | None => throw TypeError
        | Some run =>
            dispatch run argv3 ;;;
            (fun w => console_log (Inspect (res w)) w) ;;;
            (fun w => writeFileSync ".result.json" (reportToTranslation (res w)) w)
        end
  end.

End Script.

End NonDiffing.

(** ** Notions of the specification

    The definitions below follow the words of the specification; the
    theorems compare the program with them. *)

(** The number of non-overlapping occurrences of [pattern] in [text]:
    read [text] from left to right, count an occurrence where one
    starts, and go on after it. *)
Fixpoint occurrences_from (skip : nat) (pattern text : string) : nat :=
  match text with
  | "" => 0
  | String _ rest =>
      match skip with
      | S k => occurrences_from k pattern rest
      | 0 =>
          if prefix pattern text
          then S (occurrences_from (String.length pattern - 1) pattern rest)
          else occurrences_from 0 pattern rest
      end
  end.

Definition occurrences (text pattern : string) : nat :=
  occurrences_from 0 pattern text.

(** [pattern] occurs in [text]. *)
Definition occurs (pattern text : string) : Prop :=
  exists before after, text = (before ++ pattern ++ after)%string.

(** [l] lists, in increasing order, positions not before [from] at
    which [pattern] occurs in [text], no two of the occurrences
    overlapping. *)
Fixpoint non_overlapping (pattern text : string) (from : nat) (l : list nat) : Prop :=
  match l with
  | [] => True
  | i :: l' =>
      (from <= i)%nat /\ prefix pattern (drop i text) = true
      /\ non_overlapping pattern text (i + String.length pattern) l'
  end.

(** The reconciled mapping of the Merger: the source's keys in the
    source's order, each with the target's value where the target has
    the key and with the source's own value otherwise. *)
Definition reconciled (source target : Obj) : Obj :=
  map (fun '(k, v) =>
         (k, match lookup k target with Some tv => tv | None => v end))
      source.

(** Two mappings have the same key set. *)
Definition same_key_set (a b : Obj) : Prop :=
  forall k, In k (keys a) <-> In k (keys b).

(** No key of [target] is a property name of [Object.prototype] that
    [source] lacks. *)
Definition no_inherited_key (source target : Obj) : bool :=
  forallb (fun k => negb (inherited k) || hasOwnProperty source k) (keys target).

(** [s] is [w] with some of its letters in upper case ([w] in lower
    case). *)
Definition upperCodeUnit (c : ascii) : ascii :=
  let n := nat_of_ascii c in
  if ((97 <=? n) && (n <=? 122))%nat then ascii_of_nat (n - 32) else c.

Fixpoint capitalization (w s : string) : bool :=
  match w, s with
  | "", "" => true
  | String a w', String b s' =>
      ((b =? a)%char || (b =? upperCodeUnit a)%char) && capitalization w' s'
  | _, _ => false
  end.

(** The errors of the placeholder check for one shared key, second
    copy: one per pattern whose counts differ, in the order of the
    patterns. *)
Definition pattern_errors (translation key sv tv : string) : list string :=
  flat_map (fun pattern =>
              if (count sv pattern =? count tv pattern)%Z then []
              else [Diffing.errorMessage translation key pattern
                      (count sv pattern) (count tv pattern)])
           Diffing.patterns.

(** The same for the first copy, whose only pattern is [{}]. *)
Definition param_errors (translation key sv tv : string) : list string :=
  if (count sv "{}" =? count tv "{}")%Z then []
  else [NonDiffing.errorMessage translation key (count sv "{}") (count tv "{}")].

(** The errors of a whole target: those of its keys that the source
    has too, in the target's order. *)
Definition shared_errors (per_key : string -> string -> string -> list string) (source target : Obj) : list string :=
  flat_map (fun '(key, tv) =>
              match lookup key source with
              | Some sv => per_key key sv tv
              | None => []
              end)
           target.

(** The warnings of a whole target: one per shared key whose two
    values are equal. *)
Definition untranslated_warnings (translation : string) (source target : Obj) : list string :=
  flat_map (fun '(key, tv) =>
              match lookup key source with
              | Some sv => if (sv =? tv)%string
                           then [Diffing.warningMessage translation key]
                           else []
              | None => []
              end)
           target.

(** One step of the merge loop on the reconciled mapping, without the
    checks. *)
Definition overwrite (res_obj : Obj) (entry : string * string) : Obj :=
  if hasOwnProperty res_obj (fst entry)
  then set res_obj (fst entry) (snd entry)
  else res_obj.

(** The report with some more errors (second and first copy). *)
Definition add_errors (w : World Diffing.Report) (es : list string) : World Diffing.Report :=
  mkWorld (fs w)
          (Diffing.mkReport (Diffing.changed (res w))
                            (Diffing.errors (res w) ++ es)
                            (Diffing.warnings (res w)))
          (stdout w).

Definition add_warnings (w : World Diffing.Report) (ws : list string) : World Diffing.Report :=
  mkWorld (fs w)
          (Diffing.mkReport (Diffing.changed (res w))
                            (Diffing.errors (res w))
                            (Diffing.warnings (res w) ++ ws))
          (stdout w).

Definition add_errors1 (w : World NonDiffing.Report) (es : list string) : World NonDiffing.Report :=
  mkWorld (fs w)
          (NonDiffing.mkReport (NonDiffing.changed (res w))
                               (NonDiffing.errors (res w) ++ es))
          (stdout w).

(** The target files of a manifest: every translation file except the
    source-of-truth file. *)
Definition target_files (source_file : string) (manifest : Index) : list string :=
  filter (fun x => if string_dec x source_file then false else true)
         (map snd (index_translations manifest)).

(** The target files of a manifest by its own default language. *)
Definition own_target_files (manifest : Index) : list string :=
  target_files (index_default_lang manifest ++ ".json") manifest.

(** The files of [current] that are not in [prior], in the order of
    [current]. *)
Fixpoint difference (current prior : list string) : list string :=
  match current with
  | [] => []
  | x :: rest =>
      if in_dec string_dec x prior then difference rest prior
      else x :: difference rest prior
  end.

(** ** A small repository to run the script on

    English is the default language; French is the target. *)

Definition sample_index : Index :=
  mkIndex "en" [("en", "en.json"); ("fr", "fr.json")].

Definition sample_fs (source target : Obj) : FS :=
  [("en.json", TranslationFile source); ("fr.json", TranslationFile target)].

Definition start (files : FS) : World Diffing.Report :=
  mkWorld files Diffing.res0 [].

Definition start1 (files : FS) : World NonDiffing.Report :=
  mkWorld files NonDiffing.res0 [].

(** Three languages, and an earlier manifest that knew two of them. *)
Definition sample_index3 : Index :=
  mkIndex "en" [("en", "en.json"); ("fr", "fr.json"); ("de", "de.json")].

Definition sample_fs3 : FS :=
  [("en.json", TranslationFile [("greet", "Hello")]);
   ("fr.json", TranslationFile [("greet", "Salut")]);
   ("de.json", TranslationFile [("greet", "Hallo")]);
   ("old/index.json", IndexFile sample_index)].

(** An earlier manifest of the same three languages, of the time when
    French was the default language. *)
Definition sample_index_fr : Index :=
  mkIndex "fr" [("fr", "fr.json"); ("de", "de.json"); ("en", "en.json")].

Definition sample_fs_older : FS :=
  ("older/index.json", IndexFile sample_index_fr) :: sample_fs3.

(** ** Frame conditions

    What a computation may change in the world, whatever it returns or
    throws. *)

(** [l'] is [l] with more at its end. *)
Definition extends {A : Type} (l l' : list A) : Prop :=
  exists more, l' = l ++ more.

(** [fs'] is [fs] with files written on top of it, all of them under a
    name of [names]. *)
Definition written_only (names : list string) (fs fs' : FS) : Prop :=
  exists added, fs' = added ++ fs /\ incl (map fst added) names.

(** The computation [c] keeps the relation [P] between the world it
    starts in and the world it leaves. *)
Definition preserves {R A : Type} (P : World R -> World R -> Prop) (c : M R A) : Prop :=
  forall w, P w (snd (c w)).

(** [c] leaves the component [f] of the world as it is. *)
Definition same_on {R B : Type} (f : World R -> B) (w w' : World R) : Prop :=
  f w' = f w.

(** [c] never ends the process by [exit]. *)
Definition never_exits {R A : Type} (c : M R A) : Prop :=
  forall w code, fst (c w) <> Throw (ProcessExit code).

(** Second copy: files are written under the names of [names] only,
    the names recorded are among them, and the three lists of the
    report and the output only grow. *)
Definition frame (names : list string) (w w' : World Diffing.Report) : Prop :=
  written_only names (fs w) (fs w')
  /\ (exists more, Diffing.changed (res w') = Diffing.changed (res w) ++ more
                   /\ incl more names)
  /\ extends (Diffing.errors (res w)) (Diffing.errors (res w'))
  /\ extends (Diffing.warnings (res w)) (Diffing.warnings (res w'))
  /\ extends (stdout w) (stdout w').

(** The same for the first copy. *)
Definition frame1 (names : list string) (w w' : World NonDiffing.Report) : Prop :=
  written_only names (fs w) (fs w')
  /\ (exists more, NonDiffing.changed (res w') = NonDiffing.changed (res w) ++ more
                   /\ incl more names)
  /\ extends (NonDiffing.errors (res w)) (NonDiffing.errors (res w'))
  /\ extends (stdout w) (stdout w').

(** The names recorded in [changed] since [w] are names of [names]
    (second and first copy). *)
Definition recorded (names : list string) (w w' : World Diffing.Report) : Prop :=
  exists more, Diffing.changed (res w') = Diffing.changed (res w) ++ more
               /\ incl more names.

Definition recorded1 (names : list string) (w w' : World NonDiffing.Report) : Prop :=
  exists more, NonDiffing.changed (res w') = NonDiffing.changed (res w) ++ more
               /\ incl more names.

(** * Properties *)

(** ** Strings *)

Module StringFacts.

Lemma prefix_app (p s : string) :
  prefix p s = true <-> exists r, s = (p ++ r)%string.
Proof.
  revert s; induction p as [|a p IH]; intros s.
  - split; [intros _; exists s; reflexivity | destruct s; reflexivity].
  - destruct s as [|b s]; simpl.
    + split; [discriminate | intros [r Hr]; discriminate].
    + destruct (ascii_dec a b) as [->|Hab].
      * rewrite IH. split; intros [r Hr]; exists r.
        -- now rewrite Hr.
        -- now injection Hr.
      * split; [discriminate | intros [r Hr]; injection Hr; congruence].
Qed.

Lemma length_app (a b : string) :
  String.length (a ++ b) = (String.length a + String.length b)%nat.
Proof. induction a; simpl; auto. Qed.

Lemma prefix_length (p s : string) :
  prefix p s = true -> (String.length p <= String.length s)%nat.
Proof.
  intros H; apply prefix_app in H as [r ->].
  rewrite length_app; lia.
Qed.

Lemma prefix_nonempty (p : string) : p <> "" -> prefix p "" = false.
Proof. destruct p; [congruence | reflexivity]. Qed.

Lemma take_drop (n : nat) (s : string) : (take n s ++ drop n s)%string = s.
Proof.
  revert s; induction n as [|n IH]; intros [|c s]; simpl; try reflexivity.
  now rewrite IH.
Qed.

Lemma drop_app_length (p r : string) : drop (String.length p) (p ++ r)%string = r.
Proof. induction p; simpl; auto. Qed.

Lemma drop_drop (n m : nat) (s : string) : drop n (drop m s) = drop (m + n) s.
Proof.
  revert s; induction m as [|m IH]; intros s; simpl; [reflexivity|].
  destruct s as [|c s]; [destruct n; reflexivity | apply IH].
Qed.

Lemma length_drop (n : nat) (s : string) :
  String.length (drop n s) = (String.length s - n)%nat.
Proof.
  revert s; induction n as [|n IH]; intros [|c s]; simpl; auto; lia.
Qed.

Lemma StringIndexOf_unfold (sep s : string) :
  StringIndexOf sep s =
  if prefix sep s then Some 0%nat
  else match s with
       | "" => None
       | String _ s' => option_map S (StringIndexOf sep s')
       end.
Proof. destruct s; reflexivity. Qed.

(** Where [StringIndexOf] finds the separator, it is there. *)
Lemma StringIndexOf_Some (sep s : string) (j : nat) :
  StringIndexOf sep s = Some j ->
  prefix sep (drop j s) = true /\ (j + String.length sep <= String.length s)%nat.
Proof.
  revert j; induction s as [|c s IH]; intros j; rewrite StringIndexOf_unfold.
  - destruct (prefix sep "") eqn:E; [|discriminate].
    intros [= <-]. split; [exact E | apply prefix_length in E; simpl in *; lia].
  - destruct (prefix sep (String c s)) eqn:E.
    + intros [= <-]. split; [exact E | apply prefix_length in E; simpl in *; lia].
    + destruct (StringIndexOf sep s) as [j'|]; [|discriminate].
      intros [= <-]. destruct (IH j' eq_refl) as [H1 H2].
      split; [exact H1 | simpl; lia].
Qed.

(** Where it finds nothing, the separator occurs at no position. *)
Lemma StringIndexOf_None (sep s : string) (i : nat) :
  StringIndexOf sep s = None -> prefix sep (drop i s) = false.
Proof.
  revert i; induction s as [|c s IH]; intros i; rewrite StringIndexOf_unfold.
  - destruct (prefix sep "") eqn:E; [discriminate|].
    intros _. destruct i; exact E.
  - destruct (prefix sep (String c s)) eqn:E; [discriminate|].
    destruct (StringIndexOf sep s); [discriminate|].
    intros _. destruct i as [|i]; [exact E | apply IH; reflexivity].
Qed.

(** And it finds the leftmost one. *)
Lemma StringIndexOf_least (sep s : string) (j i : nat) :
  StringIndexOf sep s = Some j -> prefix sep (drop i s) = true -> (j <= i)%nat.
Proof.
  revert j i; induction s as [|c s IH]; intros j i; rewrite StringIndexOf_unfold.
  - destruct (prefix sep "") eqn:E; [intros [= <-]; lia | discriminate].
  - destruct (prefix sep (String c s)) eqn:E; [intros [= <-]; lia|].
    destruct (StringIndexOf sep s) as [j'|] eqn:Ej; [|discriminate].
    intros [= <-] Hi. destruct i as [|i]; cbn [drop] in Hi; [congruence|].
    specialize (IH j' i eq_refl Hi). lia.
Qed.

Lemma occurs_prefix_drop (pattern text : string) :
  occurs pattern text <-> exists i, prefix pattern (drop i text) = true.
Proof.
  split.
  - intros (a & b & ->). exists (String.length a).
    rewrite drop_app_length. apply prefix_app. now exists b.
  - intros [i Hi]. apply prefix_app in Hi as [r Hr].
    exists (take i text), r. now rewrite <- Hr, take_drop.
Qed.

Lemma StringIndexOf_None_iff (sep s : string) :
  StringIndexOf sep s = None <-> ~ occurs sep s.
Proof.
  rewrite occurs_prefix_drop. split.
  - intros H [i Hi]. rewrite (StringIndexOf_None _ _ i H) in Hi. discriminate.
  - intros H. destruct (StringIndexOf sep s) as [j|] eqn:E; [|reflexivity].
    exfalso; apply H. exists j. now apply StringIndexOf_Some.
Qed.

Lemma splitLoop_length_pos (fuel : nat) (sep s : string) :
  (1 <= List.length (splitLoop fuel sep s))%nat.
Proof.
  destruct fuel; simpl; [lia|].
  destruct (StringIndexOf sep s); simpl; lia.
Qed.

Lemma splitCodeUnits_length (s : string) :
  List.length (splitCodeUnits s) = String.length s.
Proof. induction s; simpl; auto. Qed.

Lemma occurrences_from_drop (pattern : string) (k : nat) (s : string) :
  occurrences_from k pattern s = occurrences_from 0 pattern (drop k s).
Proof.
  revert k; induction s as [|c s IH]; intros [|k]; try reflexivity.
  simpl. apply IH.
Qed.

Lemma occurrences_absent (sep s : string) :
  StringIndexOf sep s = None -> occurrences_from 0 sep s = 0%nat.
Proof.
  induction s as [|c s IH]; [reflexivity|].
  rewrite StringIndexOf_unfold. cbn [occurrences_from].
  destruct (prefix sep (String c s)); [discriminate|].
  destruct (StringIndexOf sep s); [discriminate | intros _; now apply IH].
Qed.

Lemma occurrences_found (sep s : string) (j : nat) :
  sep <> "" -> StringIndexOf sep s = Some j ->
  occurrences_from 0 sep s
  = S (occurrences_from 0 sep (drop (j + String.length sep) s)).
Proof.
  intros Hsep. revert j; induction s as [|c s IH]; intros j;
    rewrite StringIndexOf_unfold.
  - rewrite (prefix_nonempty _ Hsep). discriminate.
  - cbn [occurrences_from]. destruct (prefix sep (String c s)) eqn:E.
    + intros [= <-]. rewrite occurrences_from_drop. simpl.
      destruct sep as [|a sep]; [congruence|]. simpl.
      now rewrite Nat.sub_0_r.
    + destruct (StringIndexOf sep s) as [j'|]; [|discriminate].
      intros [= <-]. simpl. now apply IH.
Qed.

(** The pieces of [splitLoop] are one more than the occurrences read
    from left to right, whenever the fuel covers the text. *)
Lemma splitLoop_occurrences (sep : string) (fuel : nat) (s : string) :
  sep <> "" -> (String.length s <= fuel)%nat ->
  List.length (splitLoop fuel sep s) = S (occurrences_from 0 sep s).
Proof.
  intros Hsep. revert s; induction fuel as [|fuel IH]; intros s Hlen.
  - destruct s; [reflexivity | simpl in Hlen; lia].
  - simpl. destruct (StringIndexOf sep s) as [j|] eqn:E.
    + simpl. rewrite (occurrences_found _ _ _ Hsep E). f_equal.
      apply IH. rewrite length_drop.
      apply StringIndexOf_Some in E as [_ E].
      destruct sep; [congruence | simpl in *; lia].
    + now rewrite occurrences_absent.
Qed.

Lemma split_nonempty_sep (s sep : string) :
  sep <> "" -> split s sep = splitLoop (String.length s) sep s.
Proof.
  intros H. unfold split. destruct (sep =? "")%string eqn:E; [|reflexivity].
  apply String.eqb_eq in E. congruence.
Qed.

Lemma count_occurrences_nonempty (text pattern : string) :
  pattern <> "" -> count text pattern = Z.of_nat (occurrences text pattern).
Proof.
  intros H. unfold count, occurrences.
  rewrite (split_nonempty_sep _ _ H), (splitLoop_occurrences _ _ _ H); lia.
Qed.

Lemma join_cons (sep x : string) (l : list string) :
  l <> [] -> join sep (x :: l) = (x ++ sep ++ join sep l)%string.
Proof. destruct l; [congruence | reflexivity]. Qed.

(** The pieces, joined by the separator, give the text back:
    [s.split(sep).join(sep) === s]. *)
Lemma splitLoop_join (sep : string) (fuel : nat) (s : string) :
  sep <> "" -> (String.length s <= fuel)%nat ->
  join sep (splitLoop fuel sep s) = s.
Proof.
  intros Hsep. revert s; induction fuel as [|fuel IH]; intros s Hlen.
  - reflexivity.
  - simpl. destruct (StringIndexOf sep s) as [j|] eqn:E; [|reflexivity].
    pose proof (StringIndexOf_Some _ _ _ E) as [Ea Eb].
    pose proof (splitLoop_length_pos fuel sep (drop (j + String.length sep) s)) as Hpos.
    assert (Hrest : join sep (splitLoop fuel sep (drop (j + String.length sep) s))
                    = drop (j + String.length sep) s).
    { apply IH. rewrite length_drop.
      destruct sep; [congruence | simpl in *; lia]. }
    rewrite join_cons, Hrest by (intros H; rewrite H in Hpos; simpl in Hpos; lia).
    apply prefix_app in Ea as [r Hr].
    rewrite <- drop_drop, Hr, drop_app_length, <- Hr.
    apply take_drop.
Qed.

Lemma splitCodeUnits_join (s : string) : join "" (splitCodeUnits s) = s.
Proof.
  induction s as [|c s IH]; [reflexivity|].
  simpl. destruct (splitCodeUnits s) as [|y l] eqn:E.
  - destruct s; [reflexivity | discriminate].
  - now rewrite IH.
Qed.

Lemma split_join (s sep : string) : join sep (split s sep) = s.
Proof.
  unfold split. destruct (String.eqb_spec sep "") as [->|Hsep].
  - apply splitCodeUnits_join.
  - now apply splitLoop_join.
Qed.

End StringFacts.

(** ** Greedy counting is optimal

    Reading from left to right finds as many pairwise non-overlapping
    occurrences as there can be. *)

Module Greedy.

Import StringFacts.

Lemma non_overlapping_weaken (p s : string) (from from' : nat) (l : list nat) :
  (from' <= from)%nat -> non_overlapping p s from l -> non_overlapping p s from' l.
Proof.
  destruct l as [|i l]; [trivial|].
  simpl. intros H (H1 & H2 & H3). repeat split; trivial; lia.
Qed.

Lemma non_overlapping_down (p s : string) (d : nat) (l : list nat) :
  forall from, non_overlapping p s (d + from) l ->
               non_overlapping p (drop d s) from (map (fun x => x - d)%nat l).
Proof.
  induction l as [|i l IH]; intros from; [trivial|].
  simpl. intros (H1 & H2 & H3). repeat split.
  - lia.
  - rewrite drop_drop. now replace (d + (i - d))%nat with i by lia.
  - apply IH. now replace (d + (i - d + String.length p))%nat
      with (i + String.length p)%nat by lia.
Qed.

Lemma non_overlapping_up (p s : string) (d : nat) (l : list nat) :
  forall from, non_overlapping p (drop d s) from l ->
               non_overlapping p s (d + from) (map (fun x => d + x)%nat l).
Proof.
  induction l as [|i l IH]; intros from; [trivial|].
  simpl. intros (H1 & H2 & H3). repeat split.
  - lia.
  - now rewrite drop_drop in H2.
  - rewrite <- Nat.add_assoc. now apply IH.
Qed.

Lemma greedy_upper_bound (p : string) (fuel : nat) :
  p <> "" ->
  forall s l, (String.length s <= fuel)%nat -> non_overlapping p s 0 l ->
              (List.length l <= occurrences_from 0 p s)%nat.
Proof.
  intros Hp. induction fuel as [|fuel IH]; intros s l Hlen Hl.
  - destruct l as [|i l]; [simpl; lia|].
    destruct Hl as (_ & Hi & _). apply prefix_length in Hi.
    rewrite length_drop in Hi. destruct p; [congruence | simpl in *; lia].
  - destruct l as [|i l]; [simpl; lia|].
    destruct Hl as (_ & Hi & Hl).
    destruct (StringIndexOf p s) as [j|] eqn:E.
    + rewrite (occurrences_found _ _ _ Hp E). simpl. apply le_n_S.
      pose proof (StringIndexOf_least _ _ _ _ E Hi) as Hji.
      apply StringIndexOf_Some in E as [_ Eb].
      rewrite <- (length_map (fun x => x - (j + String.length p))%nat l).
      apply IH.
      * rewrite length_drop. destruct p; [congruence | simpl in *; lia].
      * apply non_overlapping_down. rewrite Nat.add_0_r.
        apply (non_overlapping_weaken _ _ (i + String.length p)); [lia | exact Hl].
    + rewrite (StringIndexOf_None _ _ i E) in Hi. discriminate.
Qed.

Lemma greedy_attained (p : string) (fuel : nat) :
  p <> "" ->
  forall s, (String.length s <= fuel)%nat ->
            exists l, non_overlapping p s 0 l
                      /\ List.length l = occurrences_from 0 p s.
Proof.
  intros Hp. induction fuel as [|fuel IH]; intros s Hlen.
  - exists []. split; [exact I|].
    destruct s; [reflexivity | simpl in Hlen; lia].
  - destruct (StringIndexOf p s) as [j|] eqn:E.
    + rewrite (occurrences_found _ _ _ Hp E).
      pose proof (StringIndexOf_Some _ _ _ E) as [Ea Eb].
      destruct (IH (drop (j + String.length p) s)) as (l & Hl & Hn).
      * rewrite length_drop. destruct p; [congruence | simpl in *; lia].
      * exists (j :: map (fun x => (j + String.length p) + x)%nat l). split.
        -- simpl. repeat split; [lia | exact Ea |].
           apply non_overlapping_up in Hl. now rewrite Nat.add_0_r in Hl.
        -- simpl. now rewrite length_map, Hn.
    + exists []. split; [exact I | now rewrite occurrences_absent].
Qed.

End Greedy.

(** ** The claims on [count] *)

(** C3, as the specification states it, fails on the empty pattern:
    [count("", "")] is [-1], which is no number of occurrences (and the
    empty pattern does occur in the empty text). *)
Lemma count_empty_pattern_not_occurrences :
  occurs "" "" /\ count "" "" = (-1)%Z
  /\ count "" "" <> Z.of_nat (occurrences "" "").
Proof.
  split; [exists "", ""; reflexivity|].
  split; [reflexivity | discriminate].
Qed.

(** C3 (amended): for every text and every non-empty pattern,
    [count(text, pattern)] is the number of non-overlapping occurrences
    of the pattern in the text -- the number found reading from left to
    right, which no family of pairwise non-overlapping occurrences
    exceeds and one attains --, it is the number of pieces of the split
    minus one, and it is 0 whenever the pattern does not occur. *)
Theorem count_is_occurrences (text pattern : string) :
  pattern <> "" ->
  count text pattern = Z.of_nat (occurrences text pattern)
  /\ (exists l, non_overlapping pattern text 0 l
                /\ Z.of_nat (List.length l) = count text pattern)
  /\ (forall l, non_overlapping pattern text 0 l ->
                (Z.of_nat (List.length l) <= count text pattern)%Z)
  /\ count text pattern = (Z.of_nat (List.length (split text pattern)) - 1)%Z
  /\ (~ occurs pattern text -> count text pattern = 0%Z).
Proof.
  intros Hp.
  pose proof (StringFacts.count_occurrences_nonempty text pattern Hp) as Hc.
  split; [exact Hc|]. split; [|split; [|split]].
  - destruct (Greedy.greedy_attained pattern (String.length text) Hp text (le_n _))
      as (l & Hl & Hn).
    exists l. split; [exact Hl|]. rewrite Hc. unfold occurrences. now rewrite Hn.
  - intros l Hl. rewrite Hc. apply inj_le.
    exact (Greedy.greedy_upper_bound pattern (String.length text) Hp text l (le_n _) Hl).
  - reflexivity.
  - intros Hno. rewrite Hc. unfold occurrences.
    apply StringFacts.StringIndexOf_None_iff in Hno.
    now rewrite StringFacts.occurrences_absent.
Qed.

Lemma count_is_occurrences_witness :
  "{}" <> ""
  /\ count "a{}b{}c" "{}" = Z.of_nat (occurrences "a{}b{}c" "{}")
  /\ count "a{}b{}c" "{}" = 2%Z.
Proof.
  assert (H : "{}" <> "") by discriminate.
  split; [exact H|]. split; [|reflexivity].
  exact (proj1 (count_is_occurrences "a{}b{}c" "{}" H)).
Defined.

(** C9, as the specification states it, fails when both strings are
    empty: [''.split('')] has no piece, and [count] is [-1]. *)
Lemma count_negative : ~ (0 <= count "" "")%Z.
Proof. vm_compute. intros H; apply H; reflexivity. Qed.

(** C9 (amended): for every text and every pattern that are not both
    empty, [count(text, pattern)] is at least 0. *)
Theorem count_nonnegative (text pattern : string) :
  text <> "" \/ pattern <> "" -> (0 <= count text pattern)%Z.
Proof.
  intros H. unfold count, split.
  destruct (pattern =? "")%string eqn:E.
  - apply String.eqb_eq in E. subst pattern.
    destruct H as [H|H]; [|congruence].
    rewrite StringFacts.splitCodeUnits_length.
    destruct text; [congruence | simpl String.length; lia].
  - pose proof (StringFacts.splitLoop_length_pos (String.length text) pattern text).
    lia.
Qed.

Lemma count_nonnegative_witness :
  ("abc" <> "" \/ "" <> "") /\ (0 <= count "abc" "")%Z.
Proof.
  assert (H : "abc" <> "" \/ "" <> "") by (left; discriminate).
  split; [exact H | exact (count_nonnegative "abc" "" H)].
Defined.

(** ** Objects *)

Module ObjFacts.

Lemma lookup_None (k : string) (o : Obj) : lookup k o = None <-> ~ In k (keys o).
Proof.
  induction o as [|[k' v] o IH]; simpl; [tauto|].
  destruct (String.eqb_spec k' k) as [->|Hk].
  - split; [discriminate | tauto].
  - rewrite IH. tauto.
Qed.

Lemma hasOwnProperty_In (o : Obj) (k : string) :
  hasOwnProperty o k = true <-> In k (keys o).
Proof.
  unfold hasOwnProperty. pose proof (lookup_None k o) as H.
  destruct (lookup k o).
  - split; [intros _|reflexivity].
    destruct (in_dec string_dec k (keys o)) as [Hi|Hn]; [exact Hi|].
    apply H in Hn. discriminate.
  - split; [discriminate|]. intros Hi. exfalso. now apply (proj1 H).
Qed.

Lemma hasOwnProperty_keys (a b : Obj) (k : string) :
  keys a = keys b -> hasOwnProperty a k = hasOwnProperty b k.
Proof.
  intros H. destruct (hasOwnProperty b k) eqn:E.
  - apply hasOwnProperty_In. rewrite H. now apply hasOwnProperty_In.
  - destruct (hasOwnProperty a k) eqn:E'; [|reflexivity].
    apply hasOwnProperty_In in E'. rewrite H in E'.
    apply hasOwnProperty_In in E'. congruence.
Qed.

Lemma includes_In (l : list string) (x : string) : includes l x = true <-> In x l.
Proof.
  unfold includes. rewrite existsb_exists. split.
  - intros (y & Hy & E). apply String.eqb_eq in E. now subst.
  - intros H. exists x. split; [exact H | apply String.eqb_refl].
Qed.

Lemma keys_set (o : Obj) (k v : string) :
  hasOwnProperty o k = true -> keys (set o k v) = keys o.
Proof.
  unfold hasOwnProperty.
  induction o as [|[k' v'] o IH]; simpl; [discriminate|].
  destruct (k' =? k)%string; simpl; [reflexivity|].
  intros H. now rewrite IH.
Qed.

Lemma keys_overwrite (o : Obj) (e : string * string) : keys (overwrite o e) = keys o.
Proof.
  unfold overwrite. destruct (hasOwnProperty o (fst e)) eqn:E; [|reflexivity].
  now apply keys_set.
Qed.

(** On an object, whose keys are distinct, an assignment changes the
    value of that key and nothing else. *)
Lemma overwrite_map (o : Obj) (k tv : string) :
  NoDup (keys o) ->
  overwrite o (k, tv)
  = map (fun '(k', v) => (k', if (k' =? k)%string then tv else v)) o.
Proof.
  unfold overwrite, hasOwnProperty. simpl fst; simpl snd.
  induction o as [|[k' v'] o IH]; simpl; [reflexivity|].
  intros Hnd. inversion Hnd as [|? ? Hnotin Hnd']; subst.
  specialize (IH Hnd').
  destruct (String.eqb_spec k' k) as [->|Hk].
  - f_equal. apply lookup_None in Hnotin. rewrite Hnotin in IH. exact IH.
  - destruct (lookup k o); now rewrite <- IH.
Qed.

(** The loop of the merge, without its checks, builds the reconciled
    mapping of the specification. *)
Lemma fold_overwrite (target : Obj) :
  NoDup (keys target) ->
  forall r, NoDup (keys r) ->
  fold_left overwrite target r = reconciled r target.
Proof.
  unfold reconciled.
  induction target as [|[k tv] target IH]; intros Hnd r Hr.
  - simpl. rewrite <- (map_id r) at 1. apply map_ext. now intros [k v].
  - inversion Hnd as [|? ? Hnotin Hnd']; subst. simpl fold_left.
    rewrite IH; [|exact Hnd' | now rewrite keys_overwrite].
    rewrite overwrite_map by exact Hr. rewrite map_map.
    apply map_ext. intros [k' v]. simpl.
    destruct (String.eqb_spec k k') as [->|Hk].
    + rewrite String.eqb_refl.
      apply lookup_None in Hnotin. now rewrite Hnotin.
    + destruct (String.eqb_spec k' k) as [->|_]; [congruence | reflexivity].
Qed.

Lemma keys_reconciled (source target : Obj) : keys (reconciled source target) = keys source.
Proof.
  unfold reconciled, keys. rewrite map_map. apply map_ext. now intros [k v].
Qed.

Lemma lookup_reconciled (source target : Obj) (k : string) :
  lookup k (reconciled source target)
  = match lookup k source with
    | Some v => Some (match lookup k target with Some tv => tv | None => v end)
    | None => None
    end.
Proof.
  unfold reconciled. induction source as [|[k' v] source IH]; simpl; [reflexivity|].
  destruct (String.eqb_spec k' k) as [->|Hk]; [reflexivity | exact IH].
Qed.

(** Equal size and inclusion make equal key sets, and conversely. *)
Lemma same_key_set_test (a b : Obj) :
  NoDup (keys a) -> NoDup (keys b) ->
  ((List.length (keys a) =? List.length (keys b))%nat
   && forallb (hasOwnProperty b) (keys a) = true
   <-> same_key_set a b).
Proof.
  intros Ha Hb. rewrite andb_true_iff, Nat.eqb_eq, forallb_forall.
  unfold same_key_set. split.
  - intros [Hlen Hincl] k.
    assert (Hab : incl (keys a) (keys b)).
    { intros x Hx. apply hasOwnProperty_In. now apply Hincl. }
    split; [apply Hab|].
    apply (NoDup_length_incl Ha); [lia | exact Hab].
  - intros H. split.
    + apply Nat.le_antisymm; apply NoDup_incl_length; trivial;
        intros x Hx; now apply H.
    + intros x Hx. apply hasOwnProperty_In. now apply H.
Qed.

Lemma same_key_set_length (a b : Obj) :
  NoDup (keys a) -> NoDup (keys b) -> same_key_set a b ->
  List.length (keys a) = List.length (keys b).
Proof.
  intros Ha Hb H. apply (same_key_set_test a b Ha Hb) in H.
  apply andb_true_iff in H as [H _]. now apply Nat.eqb_eq.
Qed.

End ObjFacts.

(** ** The loop of [mergeFunc]

    Both copies run the same loop around their own check; it is
    studied once, for any check that reports the errors of two strings
    and throws on a value of [Object.prototype]. *)

Module LoopFacts.

Import ObjFacts.

Lemma bind_Ok {R A B : Type} (c : M R A) (k : A -> M R B) (w w' : World R) (a : A) :
  c w = (Ok a, w') -> bind c k w = k a w'.
Proof. unfold bind. now intros ->. Qed.

Lemma bind_Throw {R A B : Type} (c : M R A) (k : A -> M R B) (w w' : World R) (e : Exn) :
  c w = (Throw e, w') -> bind c k w = (Throw e, w').
Proof. unfold bind. now intros ->. Qed.

Lemma translationToObj_ok {R : Type} (name : string) (f : File) (w : World R) :
  name <> "" -> readFile (fs w) name = Some f ->
  translationToObj name w = (Ok f, w).
Proof.
  intros Hn Hf. unfold translationToObj.
  destruct (String.eqb_spec name ""); [congruence|]. now rewrite Hf.
Qed.

Section MergeLoop.

Variable R : Type.
Variable check : string -> value -> string -> M R unit.
Variable more : World R -> list string -> World R.
Variable per_key : string -> string -> string -> list string.
Variable dl : Obj.

Hypothesis check_strings :
  forall key sv tv w, check key (VString sv) tv w = (Ok tt, more w (per_key key sv tv)).
Hypothesis check_builtin :
  forall key tv w, check key VBuiltin tv w = (Throw TypeError, w).
Hypothesis more_nil : forall w, more w [] = w.
Hypothesis more_app : forall w a b, more (more w a) b = more w (a ++ b).

Lemma merge_loop_ok (target : Obj) :
  no_inherited_key dl target = true ->
  forall r w, keys r = keys dl ->
  foldM (fun res_obj '(key, tv) =>
           if has key res_obj then
             check key (get dl key) tv ;;; ret (set res_obj key tv)
           else ret res_obj) target r w
  = (Ok (fold_left overwrite target r), more w (shared_errors per_key dl target)).
Proof.
  unfold no_inherited_key.
  induction target as [|[key tv] target IH]; intros Hk r w Hr.
  - simpl. unfold ret. now rewrite more_nil.
  - simpl in Hk. apply andb_true_iff in Hk as [Hkey Hk].
    cbn [foldM fold_left shared_errors flat_map].
    unfold overwrite at 2; simpl fst; simpl snd.
    unfold has, get. rewrite (hasOwnProperty_keys r dl key Hr).
    unfold hasOwnProperty in *.
    destruct (lookup key dl) as [sv|] eqn:E.
    + simpl orb. cbv beta iota.
      rewrite (bind_Ok _ _ w (more w (per_key key sv tv)) (set r key tv)).
      * rewrite IH; [now rewrite more_app | exact Hk |].
        rewrite keys_set; [exact Hr|].
        rewrite (hasOwnProperty_keys r dl key Hr).
        unfold hasOwnProperty. now rewrite E.
      * rewrite (bind_Ok _ _ w (more w (per_key key sv tv)) tt); [reflexivity|].
        apply check_strings.
    + rewrite orb_false_r in Hkey. apply negb_true_iff in Hkey.
      rewrite Hkey. simpl orb. cbv beta iota.
      rewrite (bind_Ok _ _ w w r) by reflexivity.
      now apply IH.
Qed.

Lemma merge_loop_throws (target : Obj) :
  no_inherited_key dl target = false ->
  forall r w, keys r = keys dl ->
  exists w',
    foldM (fun res_obj '(key, tv) =>
             if has key res_obj then
               check key (get dl key) tv ;;; ret (set res_obj key tv)
             else ret res_obj) target r w
    = (Throw TypeError, w').
Proof.
  unfold no_inherited_key.
  induction target as [|[key tv] target IH]; intros Hk r w Hr; [discriminate|].
  simpl in Hk. cbn [foldM].
  unfold has, get. rewrite (hasOwnProperty_keys r dl key Hr).
  unfold hasOwnProperty in *.
  destruct (lookup key dl) as [sv|] eqn:E.
  - simpl orb. cbv beta iota.
    rewrite orb_true_r in Hk. simpl in Hk.
    rewrite (bind_Ok _ _ w (more w (per_key key sv tv)) (set r key tv)).
    + apply IH; [exact Hk|].
      rewrite keys_set; [exact Hr|].
      rewrite (hasOwnProperty_keys r dl key Hr).
      unfold hasOwnProperty. now rewrite E.
    + rewrite (bind_Ok _ _ w (more w (per_key key sv tv)) tt); [reflexivity|].
      apply check_strings.
  - rewrite orb_false_r in Hk.
    destruct (inherited key) eqn:Ei.
    + simpl orb. cbv beta iota. exists w.
      apply bind_Throw. apply bind_Throw. apply check_builtin.
    + simpl in Hk. simpl orb. cbv beta iota.
      rewrite (bind_Ok _ _ w w r) by reflexivity.
      now apply IH.
Qed.

End MergeLoop.

End LoopFacts.

(** ** The second copy *)

Module DiffingFacts.

Import ObjFacts LoopFacts.

Lemma add_errors_nil (w : World Diffing.Report) : add_errors w [] = w.
Proof.
  destruct w as [f [c e wa] s]. unfold add_errors. simpl.
  now rewrite app_nil_r.
Qed.

Lemma add_errors_app (w : World Diffing.Report) (a b : list string) :
  add_errors (add_errors w a) b = add_errors w (a ++ b).
Proof. unfold add_errors. simpl. now rewrite app_assoc. Qed.

Lemma add_warnings_nil (w : World Diffing.Report) : add_warnings w [] = w.
Proof.
  destruct w as [f [c e wa] s]. unfold add_warnings. simpl.
  now rewrite app_nil_r.
Qed.

Lemma add_warnings_app (w : World Diffing.Report) (a b : list string) :
  add_warnings (add_warnings w a) b = add_warnings w (a ++ b).
Proof. unfold add_warnings. simpl. now rewrite app_assoc. Qed.

Lemma add_warnings_errors (w : World Diffing.Report) (a b : list string) :
  add_errors (add_warnings w a) b = add_warnings (add_errors w b) a.
Proof. reflexivity. Qed.

(** The check of one key on two strings appends the errors of that
    key, and nothing else happens. *)
Lemma checkPatterns_strings (translation key sv tv : string) (w : World Diffing.Report) :
  Diffing.checkPatterns translation key (VString sv) (VString tv) w
  = (Ok tt, add_errors w (pattern_errors translation key sv tv)).
Proof.
  unfold Diffing.checkPatterns, pattern_errors.
  generalize Diffing.patterns. intros ps. revert w.
  induction ps as [|p ps IH]; intros w.
  - simpl. unfold ret. now rewrite add_errors_nil.
  - cbn [forEach flat_map]. rewrite <- add_errors_app.
    erewrite bind_Ok; [apply IH|].
    unfold bind, lift, Diffing.patternCheck, countValue, bindR.
    cbn [fst snd].
    destruct (count sv p =? count tv p)%Z; simpl negb; cbv iota.
    + unfold ret. now rewrite add_errors_nil.
    + reflexivity.
Qed.

(** On a value of [Object.prototype] it throws at the first pattern. *)
Lemma checkPatterns_builtin (translation key : string) (tv : value) (w : World Diffing.Report) :
  Diffing.checkPatterns translation key VBuiltin tv w = (Throw TypeError, w).
Proof. reflexivity. Qed.

(** Lines 205-218: the loop builds the reconciled mapping and appends
    the errors of the shared keys. *)
Lemma mergeFunc_res_obj_ok (default_lang : Obj) (translation : string) (target : Obj) (w : World Diffing.Report) :
  NoDup (keys default_lang) -> NoDup (keys target) ->
  no_inherited_key default_lang target = true ->
  Diffing.mergeFunc_res_obj default_lang translation target w
  = (Ok (reconciled default_lang target),
     add_errors w (shared_errors (pattern_errors translation) default_lang target)).
Proof.
  intros Hs Ht Hk.
  rewrite <- (fold_overwrite target Ht default_lang Hs).
  exact (merge_loop_ok Diffing.Report
           (fun key v tv => Diffing.checkPatterns translation key v (VString tv))
           add_errors (pattern_errors translation) default_lang
           (checkPatterns_strings translation)
           add_errors_nil add_errors_app target Hk default_lang w eq_refl).
Qed.

(** With a key inherited from [Object.prototype] that the source lacks,
    the loop throws. *)
Lemma mergeFunc_res_obj_throws (default_lang : Obj) (translation : string) (target : Obj) (w : World Diffing.Report) :
  no_inherited_key default_lang target = false ->
  exists w', Diffing.mergeFunc_res_obj default_lang translation target w
             = (Throw TypeError, w').
Proof.
  intros Hk.
  exact (merge_loop_throws Diffing.Report
           (fun key v tv => Diffing.checkPatterns translation key v (VString tv))
           add_errors (pattern_errors translation) default_lang
           (checkPatterns_strings translation)
           (fun key tv w => checkPatterns_builtin translation key (VString tv) w)
           target Hk default_lang w eq_refl).
Qed.

Lemma every_hasOwnProperty (y : Obj) (l : list string) :
  hasOwnProperty y "hasOwnProperty" = false ->
  every (Diffing.callHasOwnProperty y) l = Ok (forallb (hasOwnProperty y) l).
Proof.
  unfold hasOwnProperty at 1. intros H.
  induction l as [|z l IH]; [reflexivity|].
  simpl. unfold Diffing.callHasOwnProperty at 1.
  destruct (lookup "hasOwnProperty" y); [discriminate|].
  simpl. destruct (hasOwnProperty y z); [exact IH | reflexivity].
Qed.

Lemma objHasAllKeys_ok (x y : Obj) :
  hasOwnProperty y "hasOwnProperty" = false ->
  Diffing.objHasAllKeys x y
  = Ok ((List.length (keys x) =? List.length (keys y))%nat
        && forallb (hasOwnProperty y) (keys x)).
Proof.
  intros H. unfold Diffing.objHasAllKeys.
  destruct (List.length (keys x) =? List.length (keys y))%nat; [|reflexivity].
  now apply every_hasOwnProperty.
Qed.

(** [mergeFunc] as a whole, for a target that has no key inherited from
    [Object.prototype] unknown to the source and no key
    [hasOwnProperty]: the errors are appended, and the file is written
    and recorded exactly when its key set is not the source's. *)
Lemma mergeFunc_ok (default_lang : Obj) (translation : string) (target : Obj) (w : World Diffing.Report) :
  translation <> "" ->
  readFile (fs w) translation = Some (TranslationFile target) ->
  NoDup (keys default_lang) -> NoDup (keys target) ->
  no_inherited_key default_lang target = true ->
  hasOwnProperty target "hasOwnProperty" = false ->
  let es := shared_errors (pattern_errors translation) default_lang target in
  let same := ((List.length (keys default_lang) =? List.length (keys target))%nat
               && forallb (hasOwnProperty target) (keys default_lang)) in
  Diffing.mergeFunc default_lang translation w
  = (Ok tt,
     if same then add_errors w es
     else mkWorld (writeFile (fs w) translation (TranslationFile (reconciled default_lang target)))
                  (Diffing.mkReport (Diffing.changed (res w) ++ [translation])
                                    (Diffing.errors (res w) ++ es)
                                    (Diffing.warnings (res w)))
                  (stdout w)).
Proof.
  intros Hn Hf Hs Ht Hk Hh es same. unfold Diffing.mergeFunc.
  rewrite (bind_Ok _ _ w w (TranslationFile target)) by now apply translationToObj_ok.
  rewrite (bind_Ok _ _ w w target) by reflexivity.
  rewrite (bind_Ok _ _ w (add_errors w es) (reconciled default_lang target))
    by now apply mergeFunc_res_obj_ok.
  rewrite (bind_Ok _ _ (add_errors w es) (add_errors w es) same).
  - destruct same; reflexivity.
  - unfold lift. rewrite (objHasAllKeys_ok _ _ Hh).
    now rewrite keys_reconciled.
Qed.

(** [validateFunc]: the errors and the warnings of the shared keys are
    appended, in the target's order, and no file is touched. *)
Lemma validate_loop (default_lang : Obj) (translation : string) (target : Obj) :
  no_inherited_key default_lang target = true ->
  forall w : World Diffing.Report,
  forEach target (fun '(key, tv) =>
    if has key default_lang then
      Diffing.checkPatterns translation key (get default_lang key) (VString tv) ;;;
      (if strictEquals (get default_lang key) tv
       then Diffing.push_warning (Diffing.warningMessage translation key)
       else ret tt)
    else ret tt) w
  = (Ok tt,
     add_warnings
       (add_errors w (shared_errors (pattern_errors translation) default_lang target))
       (untranslated_warnings translation default_lang target)).
Proof.
  unfold no_inherited_key.
  induction target as [|[key tv] target IH]; intros Hk w.
  - simpl. unfold ret. now rewrite add_errors_nil, add_warnings_nil.
  - simpl in Hk. apply andb_true_iff in Hk as [Hkey Hk].
    cbn [forEach shared_errors untranslated_warnings flat_map].
    unfold has, get, hasOwnProperty in *.
    destruct (lookup key default_lang) as [sv|] eqn:E.
    + simpl orb. cbv beta iota.
      erewrite bind_Ok; [rewrite (IH Hk)|].
      2:{ erewrite bind_Ok; [|apply checkPatterns_strings].
          unfold strictEquals.
          instantiate (1 := add_warnings
                              (add_errors w (pattern_errors translation key sv tv))
                              (if (sv =? tv)%string
                               then [Diffing.warningMessage translation key]
                               else [])).
          destruct (sv =? tv)%string; [reflexivity|].
          unfold ret. now rewrite add_warnings_nil. }
      unfold add_warnings, add_errors. simpl.
      now rewrite !app_assoc.
    + rewrite orb_false_r in Hkey. apply negb_true_iff in Hkey.
      rewrite Hkey. simpl orb. cbv beta iota.
      erewrite bind_Ok; [|reflexivity]. now apply IH.
Qed.

Lemma validateFunc_ok (default_lang : Obj) (translation : string) (target : Obj) (w : World Diffing.Report) :
  translation <> "" ->
  readFile (fs w) translation = Some (TranslationFile target) ->
  no_inherited_key default_lang target = true ->
  Diffing.validateFunc default_lang translation w
  = (Ok tt,
     add_warnings
       (add_errors w (shared_errors (pattern_errors translation) default_lang target))
       (untranslated_warnings translation default_lang target)).
Proof.
  intros Hn Hf Hk. unfold Diffing.validateFunc.
  rewrite (bind_Ok _ _ w w (TranslationFile target)) by now apply translationToObj_ok.
  rewrite (bind_Ok _ _ w w target) by reflexivity.
  now apply validate_loop.
Qed.

End DiffingFacts.

(** ** The first copy *)

Module NonDiffingFacts.

Import ObjFacts LoopFacts.

Lemma add_errors1_nil (w : World NonDiffing.Report) : add_errors1 w [] = w.
Proof.
  destruct w as [f [c e] s]. unfold add_errors1. simpl.
  now rewrite app_nil_r.
Qed.

Lemma add_errors1_app (w : World NonDiffing.Report) (a b : list string) :
  add_errors1 (add_errors1 w a) b = add_errors1 w (a ++ b).
Proof. unfold add_errors1. simpl. now rewrite app_assoc. Qed.

Lemma checkParams_strings (translation key sv tv : string) (w : World NonDiffing.Report) :
  NonDiffing.checkParams translation key (VString sv) (VString tv) w
  = (Ok tt, add_errors1 w (param_errors translation key sv tv)).
Proof.
  unfold NonDiffing.checkParams, param_errors.
  unfold bind, lift, NonDiffing.validateParams, countValue, bindR.
  cbn [fst snd].
  destruct (count sv "{}" =? count tv "{}")%Z; simpl negb; cbv iota.
  - unfold ret. now rewrite add_errors1_nil.
  - reflexivity.
Qed.

Lemma checkParams_builtin (translation key : string) (tv : value) (w : World NonDiffing.Report) :
  NonDiffing.checkParams translation key VBuiltin tv w = (Throw TypeError, w).
Proof. reflexivity. Qed.

(** Lines 54-65: the same reconciled mapping as in the second copy,
    with the errors of the first copy. *)
Lemma mergeFunc1_res_obj_ok (default_lang : Obj) (translation : string) (target : Obj) (w : World NonDiffing.Report) :
  NoDup (keys default_lang) -> NoDup (keys target) ->
  no_inherited_key default_lang target = true ->
  NonDiffing.mergeFunc_res_obj default_lang translation target w
  = (Ok (reconciled default_lang target),
     add_errors1 w (shared_errors (param_errors translation) default_lang target)).
Proof.
  intros Hs Ht Hk.
  rewrite <- (fold_overwrite target Ht default_lang Hs).
  exact (merge_loop_ok NonDiffing.Report
           (fun key v tv => NonDiffing.checkParams translation key v (VString tv))
           add_errors1 (param_errors translation) default_lang
           (checkParams_strings translation)
           add_errors1_nil add_errors1_app target Hk default_lang w eq_refl).
Qed.

Lemma mergeFunc1_res_obj_throws (default_lang : Obj) (translation : string) (target : Obj) (w : World NonDiffing.Report) :
  no_inherited_key default_lang target = false ->
  exists w', NonDiffing.mergeFunc_res_obj default_lang translation target w
             = (Throw TypeError, w').
Proof.
  intros Hk.
  exact (merge_loop_throws NonDiffing.Report
           (fun key v tv => NonDiffing.checkParams translation key v (VString tv))
           add_errors1 (param_errors translation) default_lang
           (checkParams_strings translation)
           (fun key tv w => checkParams_builtin translation key (VString tv) w)
           target Hk default_lang w eq_refl).
Qed.

(** [mergeFunc] as a whole: the file is written and recorded exactly
    when the target and the source differ in their number of keys. *)
Lemma mergeFunc1_ok (default_lang : Obj) (translation : string) (target : Obj) (w : World NonDiffing.Report) :
  translation <> "" ->
  readFile (fs w) translation = Some (TranslationFile target) ->
  NoDup (keys default_lang) -> NoDup (keys target) ->
  no_inherited_key default_lang target = true ->
  let es := shared_errors (param_errors translation) default_lang target in
  NonDiffing.mergeFunc default_lang translation w
  = (Ok tt,
     if (List.length (keys default_lang) =? List.length (keys target))%nat
     then add_errors1 w es
     else mkWorld (writeFile (fs w) translation (TranslationFile (reconciled default_lang target)))
                  (NonDiffing.mkReport (NonDiffing.changed (res w) ++ [translation])
                                       (NonDiffing.errors (res w) ++ es))
                  (stdout w)).
Proof.
  intros Hn Hf Hs Ht Hk es. unfold NonDiffing.mergeFunc.
  rewrite (bind_Ok _ _ w w (TranslationFile target))
    by now apply translationToObj_ok.
  rewrite (bind_Ok _ _ w w target) by reflexivity.
  rewrite (bind_Ok _ _ w (add_errors1 w es) (reconciled default_lang target))
    by now apply mergeFunc1_res_obj_ok.
  rewrite keys_reconciled.
  destruct (List.length (keys default_lang) =? List.length (keys target))%nat;
    reflexivity.
Qed.

Lemma validate1_loop (default_lang : Obj) (translation : string) (target : Obj) :
  no_inherited_key default_lang target = true ->
  forall w : World NonDiffing.Report,
  forEach target (fun '(key, tv) =>
    if has key default_lang then
      NonDiffing.checkParams translation key (get default_lang key) (VString tv)
    else ret tt) w
  = (Ok tt, add_errors1 w (shared_errors (param_errors translation) default_lang target)).
Proof.
  unfold no_inherited_key.
  induction target as [|[key tv] target IH]; intros Hk w.
  - simpl. unfold ret. now rewrite add_errors1_nil.
  - simpl in Hk. apply andb_true_iff in Hk as [Hkey Hk].
    cbn [forEach shared_errors flat_map].
    unfold has, get, hasOwnProperty in *.
    destruct (lookup key default_lang) as [sv|] eqn:E.
    + simpl orb. cbv beta iota.
      erewrite bind_Ok; [rewrite (IH Hk)|apply checkParams_strings].
      now rewrite add_errors1_app.
    + rewrite orb_false_r in Hkey. apply negb_true_iff in Hkey.
      rewrite Hkey. simpl orb. cbv beta iota.
      erewrite bind_Ok; [|reflexivity]. now apply IH.
Qed.

Lemma validateFunc1_ok (default_lang : Obj) (translation : string) (target : Obj) (w : World NonDiffing.Report) :
  translation <> "" ->
  readFile (fs w) translation = Some (TranslationFile target) ->
  no_inherited_key default_lang target = true ->
  NonDiffing.validateFunc default_lang translation w
  = (Ok tt, add_errors1 w (shared_errors (param_errors translation) default_lang target)).
Proof.
  intros Hn Hf Hk. unfold NonDiffing.validateFunc.
  rewrite (bind_Ok _ _ w w (TranslationFile target))
    by now apply translationToObj_ok.
  rewrite (bind_Ok _ _ w w target) by reflexivity.
  now apply validate1_loop.
Qed.

End NonDiffingFacts.

(** ** The claims on [mergeFunc] *)

Import ObjFacts LoopFacts.

(** The reconciled mapping has the properties the specification gives
    it: the source's keys in the source's order, the target's value on
    a shared key, the source's own value on a key of the source alone,
    and no key of the target alone. *)
Lemma reconciled_spec (source target : Obj) :
  keys (reconciled source target) = keys source
  /\ (forall k sv tv, lookup k source = Some sv -> lookup k target = Some tv ->
                      lookup k (reconciled source target) = Some tv)
  /\ (forall k sv, lookup k source = Some sv -> lookup k target = None ->
                   lookup k (reconciled source target) = Some sv)
  /\ (forall k, lookup k source = None -> lookup k (reconciled source target) = None).
Proof.
  split; [apply keys_reconciled|].
  repeat split; intros; rewrite lookup_reconciled;
    repeat match goal with H : lookup _ _ = _ |- _ => rewrite H end; reflexivity.
Qed.

(** Both copies build it, whenever no key of the target is a property
    name of [Object.prototype] that the source lacks. *)
Lemma merge_builds_reconciled (source target : Obj) (translation : string) :
  NoDup (keys source) -> NoDup (keys target) ->
  no_inherited_key source target = true ->
  (forall w, fst (Diffing.mergeFunc_res_obj source translation target w)
             = Ok (reconciled source target))
  /\ (forall w, fst (NonDiffing.mergeFunc_res_obj source translation target w)
                = Ok (reconciled source target)).
Proof.
  intros Hs Ht Hk. split; intros w.
  - now rewrite DiffingFacts.mergeFunc_res_obj_ok.
  - now rewrite NonDiffingFacts.mergeFunc1_res_obj_ok.
Qed.

(** And they build it only then: otherwise the loop throws. *)
Lemma merge_completes_iff (source target : Obj) (translation : string) (w : World Diffing.Report) (w1 : World NonDiffing.Report) :
  NoDup (keys source) -> NoDup (keys target) ->
  (no_inherited_key source target = true
   <-> fst (Diffing.mergeFunc_res_obj source translation target w)
       = Ok (reconciled source target))
  /\ (no_inherited_key source target = true
      <-> fst (NonDiffing.mergeFunc_res_obj source translation target w1)
          = Ok (reconciled source target)).
Proof.
  intros Hs Ht.
  destruct (no_inherited_key source target) eqn:Hk.
  - split; (split; [intros _|reflexivity]).
    + now rewrite DiffingFacts.mergeFunc_res_obj_ok.
    + now rewrite NonDiffingFacts.mergeFunc1_res_obj_ok.
  - split; (split; [discriminate|]).
    + destruct (DiffingFacts.mergeFunc_res_obj_throws source translation target w Hk)
        as [w' ->]. discriminate.
    + destruct (NonDiffingFacts.mergeFunc1_res_obj_throws source translation target w1 Hk)
        as [w' ->]. discriminate.
Qed.

(** C1 breaks on a target key that the source lacks and
    [Object.prototype] has: for the source [{greet: "Hello"}] and the
    target [{constructor: "x"}] the reconciled mapping should be
    [{greet: "Hello"}], the key [constructor] being dropped; in both
    copies [key in res_obj] holds through the prototype,
    [default_lang[key]] is a function, and [count] throws a TypeError
    that ends the run. *)
Theorem merge_throws_on_inherited_key :
  reconciled [("greet", "Hello")] [("constructor", "x")] = [("greet", "Hello")]
  /\ fst (Diffing.mergeFunc_res_obj [("greet", "Hello")] "fr.json"
            [("constructor", "x")]
            (start (sample_fs [("greet", "Hello")] [("constructor", "x")])))
     = Throw TypeError
  /\ fst (NonDiffing.mergeFunc_res_obj [("greet", "Hello")] "fr.json"
            [("constructor", "x")]
            (start1 (sample_fs [("greet", "Hello")] [("constructor", "x")])))
     = Throw TypeError
  /\ fst (Diffing.main sample_index (Some "merge") None
            (start (sample_fs [("greet", "Hello")] [("constructor", "x")])))
     = Throw TypeError
  /\ fst (NonDiffing.main sample_index (Some "merge") None
            (start1 (sample_fs [("greet", "Hello")] [("constructor", "x")])))
     = Throw TypeError.
Proof. repeat split. Qed.

(** Where the second copy compares the key sets, its change flag is the
    one of the specification. *)
Lemma second_copy_change_flag (source target : Obj) :
  NoDup (keys source) -> NoDup (keys target) ->
  hasOwnProperty target "hasOwnProperty" = false ->
  exists same,
    Diffing.objHasAllKeys (reconciled source target) target = Ok same
    /\ (negb same = true <-> ~ same_key_set (reconciled source target) target).
Proof.
  intros Hs Ht Hh.
  exists ((List.length (keys (reconciled source target)) =? List.length (keys target))%nat
          && forallb (hasOwnProperty target) (keys (reconciled source target))).
  split; [now apply DiffingFacts.objHasAllKeys_ok|].
  assert (Hr : NoDup (keys (reconciled source target)))
    by now rewrite keys_reconciled.
  rewrite <- (same_key_set_test _ _ Hr Ht).
  destruct (_ && _); simpl; split; congruence.
Qed.

(** C2 breaks in the first copy, which compares the numbers of keys
    only (line 67): for the source [{a: "1", b: "2"}] and the target
    [{a: "x", c: "y"}] the reconciled mapping [{a: "x", b: "2"}] has
    another key set than the target, yet nothing is written and nothing
    is recorded; the second copy (line 220) writes the file and records
    it. *)
Theorem first_copy_misses_key_change :
  fst (NonDiffing.mergeFunc_res_obj [("a", "1"); ("b", "2")] "fr.json"
         [("a", "x"); ("c", "y")]
         (start1 (sample_fs [("a", "1"); ("b", "2")] [("a", "x"); ("c", "y")])))
  = Ok [("a", "x"); ("b", "2")]
  /\ ~ same_key_set [("a", "x"); ("b", "2")] [("a", "x"); ("c", "y")]
  /\ NonDiffing.mergeFunc [("a", "1"); ("b", "2")] "fr.json"
       (start1 (sample_fs [("a", "1"); ("b", "2")] [("a", "x"); ("c", "y")]))
     = (Ok tt, start1 (sample_fs [("a", "1"); ("b", "2")] [("a", "x"); ("c", "y")]))
  /\ Diffing.mergeFunc [("a", "1"); ("b", "2")] "fr.json"
       (start (sample_fs [("a", "1"); ("b", "2")] [("a", "x"); ("c", "y")]))
     = (Ok tt,
        mkWorld (("fr.json", TranslationFile [("a", "x"); ("b", "2")])
                   :: sample_fs [("a", "1"); ("b", "2")] [("a", "x"); ("c", "y")])
                (Diffing.mkReport ["fr.json"] [] []) []).
Proof.
  split; [reflexivity|]. split; [|split; reflexivity].
  intros H. destruct (proj1 (H "b")) as [E|[E|[]]]; [simpl; tauto | |];
    discriminate.
Qed.

(** Equal key sets: the first copy leaves the file alone. *)
Lemma first_copy_idempotent (source target : Obj) (translation : string) (w : World NonDiffing.Report) :
  translation <> "" ->
  readFile (fs w) translation = Some (TranslationFile target) ->
  NoDup (keys source) -> NoDup (keys target) ->
  same_key_set source target ->
  exists w', NonDiffing.mergeFunc source translation w = (Ok tt, w')
             /\ fs w' = fs w
             /\ NonDiffing.changed (res w') = NonDiffing.changed (res w).
Proof.
  intros Hn Hf Hs Ht Hsame.
  assert (Hk : no_inherited_key source target = true).
  { apply forallb_forall. intros k Hkin. apply orb_true_iff. right.
    apply hasOwnProperty_In. now apply Hsame. }
  rewrite (NonDiffingFacts.mergeFunc1_ok source translation target w Hn Hf Hs Ht Hk).
  rewrite (same_key_set_length source target Hs Ht Hsame), Nat.eqb_refl.
  eexists. split; [reflexivity|]. split; reflexivity.
Qed.

(** Equal key sets: so does the second copy, when [hasOwnProperty] is
    not one of the keys. *)
Lemma second_copy_idempotent (source target : Obj) (translation : string) (w : World Diffing.Report) :
  translation <> "" ->
  readFile (fs w) translation = Some (TranslationFile target) ->
  NoDup (keys source) -> NoDup (keys target) ->
  same_key_set source target ->
  hasOwnProperty target "hasOwnProperty" = false ->
  exists w', Diffing.mergeFunc source translation w = (Ok tt, w')
             /\ fs w' = fs w
             /\ Diffing.changed (res w') = Diffing.changed (res w).
Proof.
  intros Hn Hf Hs Ht Hsame Hh.
  assert (Hk : no_inherited_key source target = true).
  { apply forallb_forall. intros k Hkin. apply orb_true_iff. right.
    apply hasOwnProperty_In. now apply Hsame. }
  rewrite (DiffingFacts.mergeFunc_ok source translation target w Hn Hf Hs Ht Hk Hh).
  rewrite (proj2 (same_key_set_test source target Hs Ht) Hsame).
  eexists. split; [reflexivity|]. split; reflexivity.
Qed.

(** C7 breaks in the second copy when [hasOwnProperty] is a key: for
    the source [{hasOwnProperty: "own"}] and the target
    [{hasOwnProperty: "propre"}] the key sets are equal, and
    [y.hasOwnProperty(z)] of line 193 calls the target's own string: a
    TypeError ends the run where [changed == false] was due.  The first
    copy, which counts the keys, leaves the file alone as claimed. *)
Theorem second_copy_throws_on_hasOwnProperty_key :
  same_key_set [("hasOwnProperty", "own")] [("hasOwnProperty", "propre")]
  /\ fst (Diffing.mergeFunc [("hasOwnProperty", "own")] "fr.json"
            (start (sample_fs [("hasOwnProperty", "own")]
                              [("hasOwnProperty", "propre")])))
     = Throw TypeError
  /\ fst (Diffing.main sample_index (Some "merge") None
            (start (sample_fs [("hasOwnProperty", "own")]
                              [("hasOwnProperty", "propre")])))
     = Throw TypeError
  /\ NonDiffing.mergeFunc [("hasOwnProperty", "own")] "fr.json"
       (start1 (sample_fs [("hasOwnProperty", "own")]
                          [("hasOwnProperty", "propre")]))
     = (Ok tt, start1 (sample_fs [("hasOwnProperty", "own")]
                                 [("hasOwnProperty", "propre")])).
Proof.
  split; [intros k; reflexivity|]. repeat split.
Qed.

(** ** The claims on the checks *)

Lemma lookup_In (k v : string) (o : Obj) : lookup k o = Some v -> In (k, v) o.
Proof.
  induction o as [|[k' v'] o IH]; simpl; [discriminate|].
  destruct (String.eqb_spec k' k) as [->|_].
  - intros [= ->]. now left.
  - intros H. right. now apply IH.
Qed.

Lemma In_lookup (k v : string) (o : Obj) :
  NoDup (keys o) -> In (k, v) o -> lookup k o = Some v.
Proof.
  induction o as [|[k' v'] o IH]; simpl; [tauto|].
  intros Hnd. inversion Hnd as [|? ? Hnotin Hnd']; subst.
  intros [[= -> ->]|Hin].
  - now rewrite String.eqb_refl.
  - destruct (String.eqb_spec k' k) as [->|_]; [|now apply IH].
    exfalso. apply Hnotin. now apply (in_map fst) in Hin.
Qed.

Lemma append_inv_head (a b c : string) : (a ++ b)%string = (a ++ c)%string -> b = c.
Proof. induction a; simpl; [trivial | intros [= H]; auto]. Qed.

Lemma append_inv_tail (s a b : string) : (a ++ s)%string = (b ++ s)%string -> a = b.
Proof.
  revert b; induction a as [|x a IH]; intros [|y b]; simpl; intros H.
  - reflexivity.
  - apply (f_equal String.length) in H. simpl in H.
    rewrite StringFacts.length_app in H. lia.
  - apply (f_equal String.length) in H. simpl in H.
    rewrite StringFacts.length_app in H. lia.
  - injection H as -> H. f_equal. now apply IH.
Qed.

Lemma warningMessage_inj (translation k k' : string) :
  Diffing.warningMessage translation k = Diffing.warningMessage translation k' -> k = k'.
Proof.
  unfold Diffing.warningMessage. intros H.
  apply append_inv_head in H. apply (append_inv_head "[") in H.
  now apply append_inv_tail in H.
Qed.

(** The errors of a target are those of its shared keys. *)
Lemma In_shared_errors (per_key : string -> string -> string -> list string) (source target : Obj) (e : string) :
  In e (shared_errors per_key source target)
  <-> exists key sv tv, In (key, tv) target /\ lookup key source = Some sv
                        /\ In e (per_key key sv tv).
Proof.
  unfold shared_errors. rewrite in_flat_map. split.
  - intros ([key tv] & Hin & He).
    destruct (lookup key source) as [sv|] eqn:E; [|destruct He].
    now exists key, sv, tv.
  - intros (key & sv & tv & Hin & E & He).
    exists (key, tv). split; [exact Hin | now rewrite E].
Qed.

Lemma shared_errors_shared_only (per_key : string -> string -> string -> list string) (source target : Obj) :
  shared_errors per_key source target
  = shared_errors per_key source
      (filter (fun e => hasOwnProperty source (fst e)) target).
Proof.
  unfold shared_errors, hasOwnProperty.
  induction target as [|[key tv] target IH]; [reflexivity|].
  simpl. destruct (lookup key source) eqn:E; simpl.
  - now rewrite E, IH.
  - exact IH.
Qed.

Lemma warnings_shared_only (translation : string) (source target : Obj) :
  untranslated_warnings translation source target
  = untranslated_warnings translation source
      (filter (fun e => hasOwnProperty source (fst e)) target).
Proof.
  unfold untranslated_warnings, hasOwnProperty.
  induction target as [|[key tv] target IH]; [reflexivity|].
  simpl. destruct (lookup key source) eqn:E; simpl.
  - now rewrite E, IH.
  - exact IH.
Qed.

Lemma In_untranslated_warnings (translation : string) (source target : Obj) (key : string) :
  In (Diffing.warningMessage translation key)
     (untranslated_warnings translation source target)
  <-> exists v, In (key, v) target /\ lookup key source = Some v.
Proof.
  unfold untranslated_warnings. rewrite in_flat_map. split.
  - intros ([k tv] & Hin & He).
    destruct (lookup k source) as [sv|] eqn:E; [|destruct He].
    destruct (String.eqb_spec sv tv) as [->|_]; [|destruct He].
    destruct He as [He|[]]. apply warningMessage_inj in He. subst k.
    now exists tv.
  - intros (v & Hin & E). exists (key, v). split; [exact Hin|].
    rewrite E, String.eqb_refl. now left.
Qed.

(** C5, as the specification states it, fails in the first copy, whose
    [validateFunc] has no warning at all: with the same value
    ["Hello"] under [greet] in the source and in the target, the run
    ends with the report as it was. *)
Lemma first_copy_never_warns :
  lookup "greet" [("greet", "Hello")] = Some "Hello"
  /\ NonDiffing.validateFunc [("greet", "Hello")] "fr.json"
       (start1 (sample_fs [("greet", "Hello")] [("greet", "Hello")]))
     = (Ok tt, start1 (sample_fs [("greet", "Hello")] [("greet", "Hello")])).
Proof. split; reflexivity. Qed.

(** C5 (amended): in the second copy, for a target none of whose keys is
    a property name of [Object.prototype] that the source lacks,
    [validateFunc] appends to the warnings exactly
    ["<file>[<key>]: might be untranslated"] for the shared keys whose
    two values are equal character for character -- for a shared key
    the warning is appended if and only if the values are equal --, in
    the order of the target; the keys of the target alone produce no
    error and no warning; no file is touched.  The first copy appends
    errors only. *)
Theorem validate_warns_untranslated (source target : Obj) (translation : string) (w : World Diffing.Report) :
  translation <> "" ->
  readFile (fs w) translation = Some (TranslationFile target) ->
  NoDup (keys target) ->
  no_inherited_key source target = true ->
  let errs := shared_errors (pattern_errors translation) source target in
  let warns := untranslated_warnings translation source target in
  let shared := filter (fun e => hasOwnProperty source (fst e)) target in
  Diffing.validateFunc source translation w
  = (Ok tt,
     mkWorld (fs w)
             (Diffing.mkReport (Diffing.changed (res w))
                               (Diffing.errors (res w) ++ errs)
                               (Diffing.warnings (res w) ++ warns))
             (stdout w))
  /\ (forall key sv tv,
        lookup key source = Some sv -> lookup key target = Some tv ->
        (In (translation ++ "[" ++ key ++ "]: might be untranslated")%string warns
         <-> sv = tv))
  /\ (forall key,
        lookup key source = None ->
        ~ In (translation ++ "[" ++ key ++ "]: might be untranslated")%string warns)
  /\ warns = untranslated_warnings translation source shared
  /\ errs = shared_errors (pattern_errors translation) source shared
  /\ (forall w1 : World NonDiffing.Report,
        readFile (fs w1) translation = Some (TranslationFile target) ->
        NonDiffing.validateFunc source translation w1
        = (Ok tt,
           mkWorld (fs w1)
                   (NonDiffing.mkReport
                      (NonDiffing.changed (res w1))
                      (NonDiffing.errors (res w1)
                         ++ shared_errors (param_errors translation) source target))
                   (stdout w1))).
Proof.
  intros Hn Hf Ht Hk errs warns shared.
  split; [exact (DiffingFacts.validateFunc_ok source translation target w Hn Hf Hk)|].
  split; [|split; [|split; [|split]]].
  - intros key sv tv Hs Htv.
    change (translation ++ "[" ++ key ++ "]: might be untranslated")%string
      with (Diffing.warningMessage translation key).
    unfold warns. rewrite In_untranslated_warnings. split.
    + intros (v & Hin & E). apply (In_lookup _ _ _ Ht) in Hin. congruence.
    + intros ->. exists tv. split; [now apply lookup_In | exact Hs].
  - intros key Hs.
    change (translation ++ "[" ++ key ++ "]: might be untranslated")%string
      with (Diffing.warningMessage translation key).
    unfold warns. rewrite In_untranslated_warnings.
    intros (v & _ & E). congruence.
  - apply warnings_shared_only.
  - apply shared_errors_shared_only.
  - intros w1 Hf1.
    exact (NonDiffingFacts.validateFunc1_ok source translation target w1 Hn Hf1 Hk).
Qed.

Lemma validate_warns_untranslated_witness :
  Diffing.validateFunc [("greet", "Hello {}"); ("bye", "Bye")] "fr.json"
    (start (sample_fs [("greet", "Hello {}"); ("bye", "Bye")]
                      [("greet", "Hello {}"); ("bye", "Salut"); ("old", "x")]))
  = (Ok tt,
     mkWorld (sample_fs [("greet", "Hello {}"); ("bye", "Bye")]
                        [("greet", "Hello {}"); ("bye", "Salut"); ("old", "x")])
             (Diffing.mkReport [] [] ["fr.json[greet]: might be untranslated"])
             []).
Proof.
  refine (proj1 (validate_warns_untranslated
                   [("greet", "Hello {}"); ("bye", "Bye")]
                   [("greet", "Hello {}"); ("bye", "Salut"); ("old", "x")]
                   "fr.json" (start (sample_fs _ _)) _ eq_refl _ eq_refl)).
  - discriminate.
  - repeat constructor; simpl; intuition discriminate.
Defined.

Example errorMessage_greet :
  Diffing.errorMessage "fr.json" "greet" "{}" (count "Hello {}" "{}") (count "Bonjour" "{}")
  = "fr.json[greet]: incorrect number of `{}` found (1:0)".
Proof. reflexivity. Qed.

(** C6, as the specification states it, fails in the first copy: for
    the source value ["Hello {}"] and the target value ["Bonjour"] the
    error it appends is not the claimed
    ["fr.json[greet]: incorrect number of `{}` found (1:0)"] but
    ["fr.json[greet]: incorrect number of parameters (1:0)"]; and the
    pattern [%] is not checked there: ["100%"] against ["100"] gives no
    error. *)
Lemma first_copy_other_message :
  snd (NonDiffing.mergeFunc_res_obj [("greet", "Hello {}")] "fr.json"
         [("greet", "Bonjour")]
         (start1 (sample_fs [("greet", "Hello {}")] [("greet", "Bonjour")])))
  = mkWorld (sample_fs [("greet", "Hello {}")] [("greet", "Bonjour")])
            (NonDiffing.mkReport []
               ["fr.json[greet]: incorrect number of parameters (1:0)"])
            []
  /\ "fr.json[greet]: incorrect number of parameters (1:0)"
     <> Diffing.errorMessage "fr.json" "greet" "{}" 1 0
  /\ count "100%" "%" <> count "100" "%"
  /\ snd (NonDiffing.mergeFunc_res_obj [("rate", "100%")] "fr.json"
            [("rate", "100")]
            (start1 (sample_fs [("rate", "100%")] [("rate", "100")])))
     = start1 (sample_fs [("rate", "100%")] [("rate", "100")]).
Proof. repeat split; try reflexivity; discriminate. Qed.

Lemma In_pattern_errors (translation key sv tv e : string) :
  In e (pattern_errors translation key sv tv)
  <-> exists pattern,
        In pattern Diffing.patterns
        /\ count sv pattern <> count tv pattern
        /\ e = (translation ++ "[" ++ key ++ "]: incorrect number of `" ++ pattern
                  ++ "` found (" ++ numberToString (count sv pattern) ++ ":"
                  ++ numberToString (count tv pattern) ++ ")")%string.
Proof.
  unfold pattern_errors. rewrite in_flat_map. split.
  - intros (p & Hp & He). exists p. split; [exact Hp|].
    destruct (Z.eqb_spec (count sv p) (count tv p)) as [_|Hne]; [destruct He|].
    destruct He as [<-|[]]. split; [exact Hne | reflexivity].
  - intros (p & Hp & Hne & ->). exists p. split; [exact Hp|].
    destruct (Z.eqb_spec (count sv p) (count tv p)) as [Heq|_]; [congruence|].
    now left.
Qed.

Lemma In_param_errors (translation key sv tv e : string) :
  In e (param_errors translation key sv tv)
  <-> count sv "{}" <> count tv "{}"
      /\ e = (translation ++ "[" ++ key ++ "]: incorrect number of parameters ("
                ++ numberToString (count sv "{}") ++ ":"
                ++ numberToString (count tv "{}") ++ ")")%string.
Proof.
  unfold param_errors.
  destruct (Z.eqb_spec (count sv "{}") (count tv "{}")) as [Heq|Hne]; simpl.
  - split; [tauto | intros [H _]; congruence].
  - split; [intros [<-|[]]; split; [exact Hne | reflexivity] | intros [_ ->]; now left].
Qed.

(** C6 (amended): for a target none of whose keys is a property name of
    [Object.prototype] that the source lacks, the loop of the merge
    appends, in the second copy, for every key shared by the target and
    the source and every pattern of [patterns], an error if and only if
    the counts of the pattern in the two values differ, and the error is
    ["<file>[<key>]: incorrect number of `<pattern>` found (<sourceCount>:<targetCount>)"];
    in the first copy the only pattern is [{}] and the error is
    ["<file>[<key>]: incorrect number of parameters (<sourceCount>:<targetCount>)"].
    In both the merge goes on: the reconciled mapping carries the
    target's value at every shared key. *)
Theorem merge_reports_mismatch (source target : Obj) (translation : string) :
  NoDup (keys source) -> NoDup (keys target) ->
  no_inherited_key source target = true ->
  (forall w,
     Diffing.mergeFunc_res_obj source translation target w
     = (Ok (reconciled source target),
        mkWorld (fs w)
                (Diffing.mkReport
                   (Diffing.changed (res w))
                   (Diffing.errors (res w)
                      ++ shared_errors (pattern_errors translation) source target)
                   (Diffing.warnings (res w)))
                (stdout w)))
  /\ (forall e,
        In e (shared_errors (pattern_errors translation) source target)
        <-> exists key sv tv pattern,
              lookup key target = Some tv /\ lookup key source = Some sv
              /\ In pattern Diffing.patterns
              /\ count sv pattern <> count tv pattern
              /\ e = (translation ++ "[" ++ key ++ "]: incorrect number of `"
                        ++ pattern ++ "` found ("
                        ++ numberToString (count sv pattern) ++ ":"
                        ++ numberToString (count tv pattern) ++ ")")%string)
  /\ (forall w,
        NonDiffing.mergeFunc_res_obj source translation target w
        = (Ok (reconciled source target),
           mkWorld (fs w)
                   (NonDiffing.mkReport
                      (NonDiffing.changed (res w))
                      (NonDiffing.errors (res w)
                         ++ shared_errors (param_errors translation) source target))
                   (stdout w)))
  /\ (forall e,
        In e (shared_errors (param_errors translation) source target)
        <-> exists key sv tv,
              lookup key target = Some tv /\ lookup key source = Some sv
              /\ count sv "{}" <> count tv "{}"
              /\ e = (translation ++ "[" ++ key ++ "]: incorrect number of parameters ("
                        ++ numberToString (count sv "{}") ++ ":"
                        ++ numberToString (count tv "{}") ++ ")")%string)
  /\ (forall key sv tv,
        lookup key source = Some sv -> lookup key target = Some tv ->
        lookup key (reconciled source target) = Some tv).
Proof.
  intros Hs Ht Hk.
  split; [intros w; now apply DiffingFacts.mergeFunc_res_obj_ok|].
  split; [|split; [intros w; now apply NonDiffingFacts.mergeFunc1_res_obj_ok|split]].
  - intros e. rewrite In_shared_errors. split.
    + intros (key & sv & tv & Hin & E & He).
      apply In_pattern_errors in He as (p & Hp & Hne & ->).
      exists key, sv, tv, p. repeat split; trivial. now apply In_lookup.
    + intros (key & sv & tv & p & Htv & E & Hp & Hne & ->).
      exists key, sv, tv. repeat split; trivial; [now apply lookup_In|].
      apply In_pattern_errors. now exists p.
  - intros e. rewrite In_shared_errors. split.
    + intros (key & sv & tv & Hin & E & He).
      apply In_param_errors in He as (Hne & ->).
      exists key, sv, tv. repeat split; trivial. now apply In_lookup.
    + intros (key & sv & tv & Htv & E & Hne & ->).
      exists key, sv, tv. repeat split; trivial; [now apply lookup_In|].
      now apply In_param_errors.
  - intros key sv tv Hsv Htv. rewrite lookup_reconciled. now rewrite Hsv, Htv.
Qed.

Lemma merge_reports_mismatch_witness :
  Diffing.mergeFunc_res_obj [("greet", "Hello {}"); ("new", "New")] "fr.json"
    [("greet", "Bonjour"); ("old", "x")]
    (start (sample_fs [("greet", "Hello {}"); ("new", "New")]
                      [("greet", "Bonjour"); ("old", "x")]))
  = (Ok [("greet", "Bonjour"); ("new", "New")],
     mkWorld (sample_fs [("greet", "Hello {}"); ("new", "New")]
                        [("greet", "Bonjour"); ("old", "x")])
             (Diffing.mkReport []
                ["fr.json[greet]: incorrect number of `{}` found (1:0)"] [])
             []).
Proof.
  refine (proj1 (merge_reports_mismatch
                   [("greet", "Hello {}"); ("new", "New")]
                   [("greet", "Bonjour"); ("old", "x")] "fr.json" _ _ eq_refl)
                (start (sample_fs _ _))).
  - repeat constructor; simpl; intuition discriminate.
  - repeat constructor; simpl; intuition discriminate.
Defined.

(** ** The claims on the runner *)

Lemma translations_target_files (idx : Index) :
  Diffing.translations idx = target_files (Diffing.default_lang_file idx) idx.
Proof.
  unfold Diffing.translations, target_files. apply filter_ext.
  intros x. destruct (string_dec x (Diffing.default_lang_file idx)) as [->|Hne].
  - now rewrite String.eqb_refl.
  - apply String.eqb_neq in Hne. now rewrite Hne.
Qed.

Lemma filter_difference (current prior : list string) :
  filter (fun x => negb (includes prior x)) current = difference current prior.
Proof.
  induction current as [|x current IH]; [reflexivity|].
  simpl. destruct (in_dec string_dec x prior) as [Hin|Hnot].
  - apply includes_In in Hin. now rewrite Hin.
  - destruct (includes prior x) eqn:E; [apply includes_In in E; tauto|].
    simpl. now rewrite IH.
Qed.

(** [difference] is the set difference, in the order of its first
    argument. *)
Lemma difference_spec (current prior : list string) :
  (forall x, In x (difference current prior) <-> In x current /\ ~ In x prior)
  /\ difference current prior
     = filter (fun x => if in_dec string_dec x prior then false else true) current.
Proof.
  split.
  - intros x. induction current as [|y current IH]; simpl; [tauto|].
    destruct (in_dec string_dec y prior) as [Hin|Hnot]; simpl; rewrite IH.
    + split; [tauto|]. intros [[->|H] Hn]; tauto.
    + split; [intros [->|H]; tauto | tauto].
  - induction current as [|y current IH]; simpl; [reflexivity|].
    destruct (in_dec string_dec y prior); now rewrite IH.
Qed.

(** The source-of-truth file is no target file, so leaving it out of
    the prior files or not gives the same difference. *)
Lemma difference_all_prior_files (idx prior : Index) :
  difference (target_files (Diffing.default_lang_file idx) idx)
             (target_files (Diffing.default_lang_file idx) prior)
  = difference (target_files (Diffing.default_lang_file idx) idx)
               (map snd (index_translations prior)).
Proof.
  rewrite !(proj2 (difference_spec _ _)).
  apply filter_ext_in. intros x Hx.
  unfold target_files in Hx. apply filter_In in Hx as [_ Hx].
  destruct (string_dec x (Diffing.default_lang_file idx)) as [_|Hne]; [discriminate|].
  destruct (in_dec string_dec x (target_files _ prior)) as [Hin|Hnot];
    destruct (in_dec string_dec x (map snd (index_translations prior))) as [Hin'|Hnot'];
    try reflexivity; exfalso.
  - unfold target_files in Hin. apply filter_In in Hin as [Hin _]. tauto.
  - apply Hnot. unfold target_files. apply filter_In. split; [exact Hin'|].
    destruct (string_dec x (Diffing.default_lang_file idx)); [congruence | reflexivity].
Qed.

(** C4, as the specification states it, takes the target files of the
    prior manifest the way those of the current one are taken: its files
    other than its own source-of-truth file.  Line 179 leaves out the
    source-of-truth file of the current manifest instead.  With English
    as the default language now, French and German as targets, and a
    prior manifest of the same three files whose default language was
    French, the prior targets are [de.json] and [en.json] and the
    difference is [fr.json]; the code sees [fr.json] and [de.json] as
    prior files, finds no new file and falls back to both targets. *)
Lemma newTranslations_not_prior_own_targets :
  target_files (Diffing.default_lang_file sample_index3) sample_index3
  = ["fr.json"; "de.json"]
  /\ own_target_files sample_index_fr = ["de.json"; "en.json"]
  /\ difference (target_files (Diffing.default_lang_file sample_index3) sample_index3)
                (own_target_files sample_index_fr)
     = ["fr.json"]
  /\ Diffing.newTranslations sample_index3 "older/index.json" (start sample_fs_older)
     = (Ok ["fr.json"; "de.json"], start sample_fs_older)
  /\ fst (Diffing.newTranslations sample_index3 "older/index.json" (start sample_fs_older))
     <> Ok (difference
              (target_files (Diffing.default_lang_file sample_index3) sample_index3)
              (own_target_files sample_index_fr)).
Proof.
  split; [reflexivity|]. split; [reflexivity|]. split; [reflexivity|].
  split; [reflexivity|]. discriminate.
Qed.

(** C4, amended: [newTranslations] returns all the current target files
    when the prior manifest is not on disk.  When it is, at a path
    relative to the working directory, it returns the current target
    files that are not files of the prior manifest other than the
    source-of-truth file of the current one (line 179) -- which are the
    current target files that are not files of the prior manifest at
    all --, in the order of the current manifest; and all the current
    target files again when there is no such file. *)
Theorem newTranslations_spec (idx : Index) (oldTranslationFile : string) (w : World Diffing.Report) :
  let current := target_files (Diffing.default_lang_file idx) idx in
  (oldTranslationFile = "" \/ readFile (fs w) oldTranslationFile = None ->
   Diffing.newTranslations idx oldTranslationFile w = (Ok current, w))
  /\ (forall prior,
        oldTranslationFile <> "" ->
        relative oldTranslationFile = true ->
        readFile (fs w) oldTranslationFile = Some (IndexFile prior) ->
        let new := difference current
                     (target_files (Diffing.default_lang_file idx) prior) in
        Diffing.newTranslations idx oldTranslationFile w
        = (Ok (match new with [] => current | _ :: _ => new end), w)
        /\ (forall x, In x new
                      <-> In x current
                          /\ ~ In x (target_files (Diffing.default_lang_file idx) prior))
        /\ new = filter (fun x =>
                           if in_dec string_dec x
                                (target_files (Diffing.default_lang_file idx) prior)
                           then false else true) current
        /\ new = difference current (map snd (index_translations prior))).
Proof.
  intros current. unfold current. split.
  - rewrite <- translations_target_files.
    intros H. unfold Diffing.newTranslations, bind, existsSync.
    destruct H as [->|H].
    + destruct (readFile (fs w) ""); reflexivity.
    + now rewrite H.
  - intros prior Hn _ Hf. cbv zeta.
    split; [|split; [exact (proj1 (difference_spec _ _))
                    |split; [exact (proj2 (difference_spec _ _))
                            |apply difference_all_prior_files]]].
    rewrite <- translations_target_files.
    set (new := difference _ _).
    unfold Diffing.newTranslations.
    rewrite (bind_Ok _ _ w w true).
    2:{ unfold existsSync. rewrite Hf.
        destruct (String.eqb_spec oldTranslationFile ""); [congruence | reflexivity]. }
    cbn [negb].
    rewrite (bind_Ok _ _ w w (IndexFile prior)) by now apply translationToObj_ok.
    rewrite (bind_Ok _ _ w w prior) by reflexivity.
    assert (E : filter (fun x => negb (includes
                  (filter (fun x0 => negb (x0 =? Diffing.default_lang_file idx)%string)
                          (map snd (index_translations prior))) x))
                  (Diffing.translations idx) = new).
    { rewrite filter_difference. unfold new. f_equal.
      unfold target_files. apply filter_ext. intros x.
      destruct (string_dec x (Diffing.default_lang_file idx)) as [->|Hne].
      - now rewrite String.eqb_refl.
      - apply String.eqb_neq in Hne. now rewrite Hne. }
    rewrite E. destruct new; reflexivity.
Qed.

Lemma newTranslations_spec_witness :
  Diffing.newTranslations sample_index3 "missing.json" (start sample_fs3)
  = (Ok ["fr.json"; "de.json"], start sample_fs3)
  /\ Diffing.newTranslations sample_index3 "old/index.json" (start sample_fs3)
     = (Ok ["de.json"], start sample_fs3)
  /\ Diffing.newTranslations sample_index "old/index.json" (start sample_fs3)
     = (Ok ["fr.json"], start sample_fs3).
Proof.
  split; [|split].
  - exact (proj1 (newTranslations_spec sample_index3 "missing.json" (start sample_fs3))
                 (or_intror eq_refl)).
  - refine (proj1 (proj2 (newTranslations_spec sample_index3 "old/index.json"
                            (start sample_fs3))
                         sample_index _ eq_refl eq_refl)).
    discriminate.
  - refine (proj1 (proj2 (newTranslations_spec sample_index "old/index.json"
                            (start sample_fs3))
                         sample_index _ eq_refl eq_refl)).
    discriminate.
Defined.

(** C8, as the specification states it, fails in the first copy, which
    has no diff: with French and German as targets and an earlier
    manifest [old/index.json] that knew French, the new translations
    are [de.json] alone, and the first copy runs the command (here one
    that records its argument) on every target. *)
Lemma first_copy_ignores_prior_manifest :
  includes (NonDiffing.translations sample_index3) "old/index.json" = false
  /\ fst (Diffing.newTranslations sample_index3 "old/index.json" (start sample_fs3))
     = Ok ["de.json"]
  /\ NonDiffing.changed
       (res (snd (NonDiffing.dispatch sample_index3 NonDiffing.push_changed
                    (Some "old/index.json") (start1 sample_fs3))))
     = ["fr.json"; "de.json"]
  /\ Diffing.changed
       (res (snd (Diffing.dispatch sample_index3 Diffing.push_changed
                    (Some "old/index.json") (start sample_fs3))))
     = ["de.json"].
Proof. repeat split. Qed.

(** C8 (amended): in the second copy, a second argument that is not
    empty and is the name of a target translation file makes the command
    run on that file only; one that is not the name of a target is taken
    as the path of a previous manifest, and the command runs on the
    files [newTranslations] computes from it; without one the command
    runs on every target.  In the first copy an argument that is not
    the name of a target makes the command run on every target, as
    without argument. *)
Theorem dispatch_spec (idx : Index) :
  (forall run a w,
     a <> "" -> In a (Diffing.translations idx) ->
     Diffing.dispatch idx run (Some a) w = run a w)
  /\ (forall run a w,
        ~ In a (Diffing.translations idx) ->
        Diffing.dispatch idx run (Some a) w
        = (l <- Diffing.newTranslations idx a ;; forEach l run) w)
  /\ (forall run w,
        Diffing.dispatch idx run None w = forEach (Diffing.translations idx) run w)
  /\ (forall run a w,
        a <> "" -> In a (NonDiffing.translations idx) ->
        NonDiffing.dispatch idx run (Some a) w = run a w)
  /\ (forall run a w,
        ~ In a (NonDiffing.translations idx) ->
        NonDiffing.dispatch idx run (Some a) w
        = forEach (NonDiffing.translations idx) run w)
  /\ (forall run w,
        NonDiffing.dispatch idx run None w
        = forEach (NonDiffing.translations idx) run w).
Proof.
  repeat split.
  - intros run a w Ha Hin. unfold Diffing.dispatch, truthy.
    apply String.eqb_neq in Ha. rewrite Ha.
    apply includes_In in Hin. now rewrite Hin.
  - intros run a w Hnot. unfold Diffing.dispatch.
    destruct (includes (Diffing.translations idx) a) eqn:E;
      [apply includes_In in E; tauto|].
    rewrite andb_false_r. unfold truthy.
    destruct (String.eqb_spec a "") as [->|Ha]; [|reflexivity].
    simpl negb. cbv iota.
    unfold Diffing.newTranslations, existsSync, bind.
    destruct (readFile (fs w) ""); reflexivity.
  - intros run a w Ha Hin. unfold NonDiffing.dispatch, truthy.
    apply String.eqb_neq in Ha. rewrite Ha.
    apply includes_In in Hin. now rewrite Hin.
  - intros run a w Hnot. unfold NonDiffing.dispatch.
    destruct (includes (NonDiffing.translations idx) a) eqn:E;
      [apply includes_In in E; tauto|].
    now rewrite andb_false_r.
Qed.

Lemma dispatch_spec_witness :
  Diffing.dispatch sample_index3 Diffing.push_changed (Some "fr.json") (start sample_fs3)
  = Diffing.push_changed "fr.json" (start sample_fs3)
  /\ Diffing.dispatch sample_index3 Diffing.push_changed (Some "old/index.json")
       (start sample_fs3)
     = (l <- Diffing.newTranslations sample_index3 "old/index.json" ;;
        forEach l Diffing.push_changed) (start sample_fs3)
  /\ NonDiffing.dispatch sample_index3 NonDiffing.push_changed (Some "old/index.json")
       (start1 sample_fs3)
     = forEach (NonDiffing.translations sample_index3) NonDiffing.push_changed
         (start1 sample_fs3).
Proof.
  split; [|split].
  - refine (proj1 (dispatch_spec sample_index3) _ "fr.json" _ _ _).
    + discriminate.
    + simpl. tauto.
  - refine (proj1 (proj2 (dispatch_spec sample_index3)) _ "old/index.json" _ _).
    simpl. intuition discriminate.
  - refine (proj1 (proj2 (proj2 (proj2 (proj2 (dispatch_spec sample_index3)))))
                  _ "old/index.json" _ _).
    simpl. intuition discriminate.
Defined.

(** [toLowerCase] undoes a capitalization. *)
Lemma lower_upper (a : ascii) : lowerCodeUnit (upperCodeUnit a) = lowerCodeUnit a.
Proof. destruct a as [[] [] [] [] [] [] [] []]; reflexivity. Qed.

Lemma toLowerCase_capitalization (w s : string) :
  capitalization w s = true -> toLowerCase s = toLowerCase w.
Proof.
  revert s; induction w as [|a w IH]; intros [|b s]; simpl; try discriminate.
  - reflexivity.
  - intros H. apply andb_true_iff in H as [Hb Hs].
    rewrite (IH s Hs). f_equal.
    apply orb_true_iff in Hb as [Hb|Hb]; apply Ascii.eqb_eq in Hb; subst b;
      [reflexivity | apply lower_upper].
Qed.

Lemma json_file_name (lang : string) : (lang ++ ".json")%string <> "".
Proof. destruct lang; discriminate. Qed.

(** C10: the command name is put in lower case before it is looked up:
    whatever the capitalization of [merge] or [validate] given as first
    argument, the name is found among the command names, the function
    script runs as with the name in lower case and, once the default
    language is loaded, goes on to run the function of that command on
    the files selected, in both copies. *)
Theorem command_case_insensitive (name s : string) :
  In name ["merge"; "validate"] ->
  capitalization name s = true ->
  command (Some s) = Some name
  /\ includes Diffing.commandNames name = true
  /\ includes NonDiffing.commandNames name = true
  /\ (forall idx arg, Diffing.main idx (Some s) arg = Diffing.main idx (Some name) arg)
  /\ (forall idx arg, NonDiffing.main idx (Some s) arg = NonDiffing.main idx (Some name) arg)
  /\ (forall idx arg default_lang (w : World Diffing.Report),
        readFile (fs w) (Diffing.default_lang_file idx)
        = Some (TranslationFile default_lang) ->
        Diffing.main idx (Some s) arg w
        = (Diffing.dispatch idx
             (if (name =? "merge")%string
              then Diffing.mergeFunc default_lang
              else Diffing.validateFunc default_lang) arg ;;;
           (fun w' => console_log (Inspect (res w')) w') ;;;
           (fun w' => writeFileSync ".result.json"
                        (Diffing.reportToTranslation (res w')) w')) w)
  /\ (forall idx arg default_lang (w : World NonDiffing.Report),
        readFile (fs w) (NonDiffing.default_lang_file idx)
        = Some (TranslationFile default_lang) ->
        NonDiffing.main idx (Some s) arg w
        = (NonDiffing.dispatch idx
             (if (name =? "merge")%string
              then NonDiffing.mergeFunc default_lang
              else NonDiffing.validateFunc default_lang) arg ;;;
           (fun w' => console_log (Inspect (res w')) w') ;;;
           (fun w' => writeFileSync ".result.json"
                        (NonDiffing.reportToTranslation (res w')) w')) w).
Proof.
  intros Hname Hcap.
  assert (Hlow : toLowerCase s = name).
  { rewrite (toLowerCase_capitalization name s Hcap).
    destruct Hname as [<-|[<-|[]]]; reflexivity. }
  assert (Hcmd : command (Some s) = Some name).
  { unfold command. simpl. now rewrite Hlow. }
  split; [exact Hcmd|].
  split; [destruct Hname as [<-|[<-|[]]]; reflexivity|].
  split; [destruct Hname as [<-|[<-|[]]]; reflexivity|].
  split; [|split; [|split]].
  - intros idx arg. unfold Diffing.main. rewrite Hcmd.
    destruct Hname as [<-|[<-|[]]]; reflexivity.
  - intros idx arg. unfold NonDiffing.main. rewrite Hcmd.
    destruct Hname as [<-|[<-|[]]]; reflexivity.
  - intros idx arg dl w Hf. unfold Diffing.main. rewrite Hcmd.
    rewrite (bind_Ok _ _ w w (TranslationFile dl))
      by (apply translationToObj_ok; [apply json_file_name | exact Hf]).
    rewrite (bind_Ok _ _ w w dl) by reflexivity.
    destruct Hname as [<-|[<-|[]]]; reflexivity.
  - intros idx arg dl w Hf. unfold NonDiffing.main. rewrite Hcmd.
    rewrite (bind_Ok _ _ w w (TranslationFile dl))
      by (apply translationToObj_ok; [apply json_file_name | exact Hf]).
    rewrite (bind_Ok _ _ w w dl) by reflexivity.
    destruct Hname as [<-|[<-|[]]]; reflexivity.
Qed.

Lemma command_case_insensitive_witness :
  command (Some "MeRGE") = Some "merge"
  /\ command (Some "Validate") = Some "validate".
Proof.
  split.
  - exact (proj1 (command_case_insensitive "merge" "MeRGE"
                    (or_introl eq_refl) eq_refl)).
  - exact (proj1 (command_case_insensitive "validate" "Validate"
                    (or_intror (or_introl eq_refl)) eq_refl)).
Defined.

(** ** The examples of the specification, run on both copies *)

Example count_two : count "a{}b{}c" "{}" = 2%Z.
Proof. reflexivity. Qed.

Example count_none : count "abc" "{}" = 0%Z.
Proof. reflexivity. Qed.

Example count_percent : count "100% of %s" "%" = 2%Z.
Proof. reflexivity. Qed.

Example count_overlapping : count "aaaaa" "aa" = 2%Z.
Proof. reflexivity. Qed.

Example split_trailing : split "a{}" "{}" = ["a"; ""].
Proof. reflexivity. Qed.

(** The end-to-end scenario: [old] is dropped from [fr.json], the file
    is recorded, there is no error, and the report is printed and
    written. *)
Example end_to_end_merge :
  Diffing.main sample_index (Some "merge") None
    (start (sample_fs [("greet", "Hello {}")] [("greet", "Salut {}"); ("old", "x")]))
  = (Ok tt,
     mkWorld
       ((".result.json",
         ReportFile [("changed", ["fr.json"]); ("errors", []); ("warnings", [])])
        :: ("fr.json", TranslationFile [("greet", "Salut {}")])
        :: sample_fs [("greet", "Hello {}")] [("greet", "Salut {}"); ("old", "x")])
       (Diffing.mkReport ["fr.json"] [] [])
       [Inspect (Diffing.mkReport ["fr.json"] [] [])]).
Proof. reflexivity. Qed.

Example end_to_end_merge_first_copy :
  NonDiffing.main sample_index (Some "merge") None
    (start1 (sample_fs [("greet", "Hello {}")] [("greet", "Salut {}"); ("old", "x")]))
  = (Ok tt,
     mkWorld
       ((".result.json", ReportFile [("changed", ["fr.json"]); ("errors", [])])
        :: ("fr.json", TranslationFile [("greet", "Salut {}")])
        :: sample_fs [("greet", "Hello {}")] [("greet", "Salut {}"); ("old", "x")])
       (NonDiffing.mkReport ["fr.json"] [])
       [Inspect (NonDiffing.mkReport ["fr.json"] [])]).
Proof. reflexivity. Qed.

(** A command that does not exist: the usage message and [exit(1)],
    no file processed. *)
Example unknown_command :
  fst (Diffing.main sample_index (Some "frob") None
         (start (sample_fs [("greet", "Hello")] [("greet", "Salut")])))
  = Throw (ProcessExit 1)
  /\ fst (NonDiffing.main sample_index None None
            (start1 (sample_fs [("greet", "Hello")] [("greet", "Salut")])))
     = Throw (ProcessExit 1).
Proof. split; reflexivity. Qed.

(** A target file that is missing ends the run. *)
Example missing_target :
  fst (Diffing.main sample_index (Some "validate") None
         (start [("en.json", TranslationFile [("greet", "Hello")])]))
  = Throw (ENOENT "fr.json").
Proof. reflexivity. Qed.

(** * What the commands may change

    The properties below hold for every input, also when the command
    throws: they bound what a run can have done when it stops. *)

Module FrameFacts.

Section Preserves.

Variable R : Type.
Variable P : World R -> World R -> Prop.
Context {P_pre : PreOrder P}.

Lemma preserves_pure {A : Type} (c : M R A) :
  (forall w, snd (c w) = w) -> preserves P c.
Proof. intros H w. rewrite H. reflexivity. Qed.

(** A value the first computation returns may be all the second one
    needs to be known of. *)
Lemma preserves_bind_post {A B : Type} (Q : A -> Prop) (c : M R A) (k : A -> M R B) :
  preserves P c ->
  (forall w a, fst (c w) = Ok a -> Q a) ->
  (forall a, Q a -> preserves P (k a)) ->
  preserves P (bind c k).
Proof.
  intros Hc HQ Hk w. unfold bind.
  specialize (Hc w). specialize (HQ w).
  destruct (c w) as [[a|e] w1]; simpl in *; [|exact Hc].
  transitivity w1; [exact Hc | apply Hk; now apply HQ].
Qed.

Lemma preserves_bind {A B : Type} (c : M R A) (k : A -> M R B) :
  preserves P c -> (forall a, preserves P (k a)) -> preserves P (bind c k).
Proof.
  intros Hc Hk.
  apply (preserves_bind_post (fun _ => True)); auto.
Qed.

Lemma preserves_forEach {A : Type} (l : list A) (f : A -> M R unit) :
  (forall a, In a l -> preserves P (f a)) -> preserves P (forEach l f).
Proof.
  induction l as [|a l IH]; intros H; simpl.
  - apply preserves_pure. reflexivity.
  - apply preserves_bind; [apply H; now left|].
    intros _. apply IH. intros b Hb. apply H. now right.
Qed.

Lemma preserves_foldM {A B : Type} (f : B -> A -> M R B) (l : list A) :
  (forall b a, preserves P (f b a)) -> forall b, preserves P (foldM f l b).
Proof.
  intros H. induction l as [|a l IH]; intros b; simpl.
  - apply preserves_pure. reflexivity.
  - apply preserves_bind; [apply H | apply IH].
Qed.

End Preserves.

#[export] Instance same_on_pre {R B : Type} (f : World R -> B) : PreOrder (same_on f).
Proof.
  split.
  - intros w. reflexivity.
  - intros a b c Hab Hbc. unfold same_on in *. congruence.
Qed.

Lemma extends_refl {A : Type} (l : list A) : extends l l.
Proof. exists []. now rewrite app_nil_r. Qed.

Lemma extends_trans {A : Type} (a b c : list A) :
  extends a b -> extends b c -> extends a c.
Proof.
  intros [m1 ->] [m2 ->]. exists (m1 ++ m2). now rewrite app_assoc.
Qed.

Lemma written_only_refl (names : list string) (files : FS) : written_only names files files.
Proof. exists []. split; [reflexivity | intros x []]. Qed.

Lemma written_only_trans (names : list string) (a b c : FS) :
  written_only names a b -> written_only names b c -> written_only names a c.
Proof.
  intros (m1 & -> & H1) (m2 & -> & H2). exists (m2 ++ m1).
  split; [now rewrite app_assoc|].
  rewrite map_app. now apply incl_app.
Qed.

Lemma written_only_mono (names names' : list string) (a b : FS) :
  incl names names' -> written_only names a b -> written_only names' a b.
Proof.
  intros Hn (m & -> & H). exists m. split; [reflexivity|].
  intros x Hx. apply Hn, H, Hx.
Qed.

(** A file that is not among the names reads as before. *)
Lemma written_only_readFile (names : list string) (a b : FS) (name : string) :
  written_only names a b -> ~ In name names -> readFile b name = readFile a name.
Proof.
  intros (m & -> & H) Hn. induction m as [|[n f] m IH]; [reflexivity|].
  simpl. destruct (String.eqb_spec n name) as [->|_].
  - exfalso. apply Hn, H. now left.
  - apply IH. intros x Hx. apply H. now right.
Qed.

Lemma written_only_nil (a b : FS) : written_only [] a b -> b = a.
Proof.
  intros (m & -> & H). destruct m as [|[n f] m]; [reflexivity|].
  destruct (H n). now left.
Qed.

#[export] Instance frame_pre (names : list string) : PreOrder (frame names).
Proof.
  split.
  - intros w. unfold frame. repeat split;
      try apply extends_refl; try apply written_only_refl.
    exists []. split; [now rewrite app_nil_r | intros x []].
  - intros a b c (F1 & (m1 & C1 & I1) & E1 & W1 & O1) (F2 & (m2 & C2 & I2) & E2 & W2 & O2).
    unfold frame. repeat split.
    + now apply (written_only_trans names _ (fs b)).
    + exists (m1 ++ m2). split; [now rewrite C2, C1, app_assoc | now apply incl_app].
    + now apply (extends_trans _ (Diffing.errors (res b))).
    + now apply (extends_trans _ (Diffing.warnings (res b))).
    + now apply (extends_trans _ (stdout b)).
Qed.

#[export] Instance frame1_pre (names : list string) : PreOrder (frame1 names).
Proof.
  split.
  - intros w. unfold frame1. repeat split;
      try apply extends_refl; try apply written_only_refl.
    exists []. split; [now rewrite app_nil_r | intros x []].
  - intros a b c (F1 & (m1 & C1 & I1) & E1 & O1) (F2 & (m2 & C2 & I2) & E2 & O2).
    unfold frame1. repeat split.
    + now apply (written_only_trans names _ (fs b)).
    + exists (m1 ++ m2). split; [now rewrite C2, C1, app_assoc | now apply incl_app].
    + now apply (extends_trans _ (NonDiffing.errors (res b))).
    + now apply (extends_trans _ (stdout b)).
Qed.

Lemma frame_mono (names names' : list string) (w w' : World Diffing.Report) :
  incl names names' -> frame names w w' -> frame names' w w'.
Proof.
  intros Hn (F & (m & C & I) & E & W & O). unfold frame. repeat split; trivial.
  - now apply (written_only_mono names).
  - exists m. split; [exact C | intros x Hx; apply Hn, I, Hx].
Qed.

Lemma frame1_mono (names names' : list string) (w w' : World NonDiffing.Report) :
  incl names names' -> frame1 names w w' -> frame1 names' w w'.
Proof.
  intros Hn (F & (m & C & I) & E & O). unfold frame1. repeat split; trivial.
  - now apply (written_only_mono names).
  - exists m. split; [exact C | intros x Hx; apply Hn, I, Hx].
Qed.

End FrameFacts.

Module CommandFrames.

Import FrameFacts.

(** What reads the world without changing it. *)
Lemma translationToObj_world {R : Type} (name : string) (w : World R) :
  snd (translationToObj name w) = w.
Proof.
  unfold translationToObj. destruct (name =? "")%string; [reflexivity|].
  destruct (readFile (fs w) name); reflexivity.
Qed.

Lemma asTranslation_world {R : Type} (name : string) (f : File) (w : World R) :
  snd (asTranslation name f w) = w.
Proof. destruct f; reflexivity. Qed.

Lemma asIndex_world {R : Type} (name : string) (f : File) (w : World R) :
  snd (asIndex name f w) = w.
Proof. destruct f; reflexivity. Qed.

Ltac pure_step :=
  apply preserves_pure;
  [ typeclasses eauto
  | intros;
    first [ reflexivity
          | apply translationToObj_world
          | apply asTranslation_world
          | apply asIndex_world ] ].

Ltac same_step :=
  first [ pure_step | unfold preserves, same_on; intros; reflexivity ].

Ltac p_bind := apply preserves_bind; [typeclasses eauto | ..].
Ltac p_forEach := apply preserves_forEach; [typeclasses eauto | ..].
Ltac p_foldM := apply preserves_foldM; [typeclasses eauto | ..].

Ltac frame_base :=
  repeat split;
  try apply extends_refl; try apply written_only_refl;
  try (exists []; split; [now rewrite app_nil_r | intros ? []]).

(** The primitives of the second copy. *)
Lemma frame_push_error (names : list string) (x : string) :
  preserves (frame names) (Diffing.push_error x).
Proof. intros w. unfold frame. simpl. frame_base. now exists [x]. Qed.

Lemma frame_push_warning (names : list string) (x : string) :
  preserves (frame names) (Diffing.push_warning x).
Proof. intros w. unfold frame. simpl. frame_base. now exists [x]. Qed.

Lemma frame_push_changed (names : list string) (x : string) :
  In x names -> preserves (frame names) (Diffing.push_changed x).
Proof.
  intros Hx w. unfold frame. simpl. frame_base.
  exists [x]. split; [reflexivity | now intros y [<-|[]]].
Qed.

Lemma frame_writeFileSync (names : list string) (x : string) (f : File) :
  In x names -> preserves (frame names) (writeFileSync x f).
Proof.
  intros Hx w. unfold frame. simpl. frame_base.
  exists [(x, f)]. split; [reflexivity | now intros y [<-|[]]].
Qed.

Lemma frame_console_log (names : list string) (l : Line Diffing.Report) :
  preserves (frame names) (console_log l).
Proof. intros w. unfold frame. simpl. frame_base. now exists [l]. Qed.

Lemma frame_checkPatterns (names : list string) (translation key : string) (sv tv : value) :
  preserves (frame names) (Diffing.checkPatterns translation key sv tv).
Proof.
  unfold Diffing.checkPatterns. p_forEach. intros p _.
  p_bind; [pure_step|]. intros paramInfo.
  destruct (negb _); [apply frame_push_error | pure_step].
Qed.

Lemma frame_mergeFunc (default_lang : Obj) (translation : string) :
  preserves (frame [translation]) (Diffing.mergeFunc default_lang translation).
Proof.
  unfold Diffing.mergeFunc.
  p_bind; [pure_step|]. intros f.
  p_bind; [pure_step|]. intros translation_obj.
  p_bind.
  - unfold Diffing.mergeFunc_res_obj. p_foldM.
    intros res_obj [key tv]. destruct (has key res_obj); [|pure_step].
    p_bind; [apply frame_checkPatterns | intros _; pure_step].
  - intros res_obj. p_bind; [pure_step|]. intros same.
    destruct (negb same); [|pure_step].
    p_bind; [apply frame_writeFileSync; now left|].
    intros _. apply frame_push_changed. now left.
Qed.

Lemma frame_validateFunc (default_lang : Obj) (translation : string) :
  preserves (frame []) (Diffing.validateFunc default_lang translation).
Proof.
  unfold Diffing.validateFunc.
  p_bind; [pure_step|]. intros f.
  p_bind; [pure_step|]. intros translation_obj.
  p_forEach. intros [key tv] _.
  destruct (has key default_lang); [|pure_step].
  p_bind; [apply frame_checkPatterns|]. intros _.
  destruct (strictEquals _ _); [apply frame_push_warning | pure_step].
Qed.

(** Neither command prints, and [mergeFunc] leaves the warnings. *)
Lemma stdout_mergeFunc (default_lang : Obj) (translation : string) :
  preserves (same_on stdout) (Diffing.mergeFunc default_lang translation).
Proof.
  unfold Diffing.mergeFunc.
  p_bind; [same_step|]. intros f.
  p_bind; [same_step|]. intros translation_obj.
  p_bind.
  - unfold Diffing.mergeFunc_res_obj. p_foldM.
    intros res_obj [key tv]. destruct (has key res_obj); [|same_step].
    p_bind; [|intros _; same_step].
    unfold Diffing.checkPatterns. p_forEach. intros p _.
    p_bind; [same_step|]. intros paramInfo.
    destruct (negb _); same_step.
  - intros res_obj. p_bind; [same_step|]. intros same.
    destruct (negb same); [|same_step].
    p_bind; [same_step | intros _; same_step].
Qed.

Lemma warnings_mergeFunc (default_lang : Obj) (translation : string) :
  preserves (same_on (fun w => Diffing.warnings (res w)))
            (Diffing.mergeFunc default_lang translation).
Proof.
  unfold Diffing.mergeFunc.
  p_bind; [same_step|]. intros f.
  p_bind; [same_step|]. intros translation_obj.
  p_bind.
  - unfold Diffing.mergeFunc_res_obj. p_foldM.
    intros res_obj [key tv]. destruct (has key res_obj); [|same_step].
    p_bind; [|intros _; same_step].
    unfold Diffing.checkPatterns. p_forEach. intros p _.
    p_bind; [same_step|]. intros paramInfo.
    destruct (negb _); same_step.
  - intros res_obj. p_bind; [same_step|]. intros same.
    destruct (negb same); [|same_step].
    p_bind; [same_step | intros _; same_step].
Qed.

Lemma stdout_validateFunc (default_lang : Obj) (translation : string) :
  preserves (same_on stdout) (Diffing.validateFunc default_lang translation).
Proof.
  unfold Diffing.validateFunc.
  p_bind; [same_step|]. intros f.
  p_bind; [same_step|]. intros translation_obj.
  p_forEach. intros [key tv] _.
  destruct (has key default_lang); [|same_step].
  p_bind.
  - unfold Diffing.checkPatterns. p_forEach. intros p _.
    p_bind; [same_step|]. intros paramInfo.
    destruct (negb _); same_step.
  - intros _. destruct (strictEquals _ _); same_step.
Qed.

(** The primitives of the first copy. *)
Lemma frame1_push_error (names : list string) (x : string) :
  preserves (frame1 names) (NonDiffing.push_error x).
Proof. intros w. unfold frame1. simpl. frame_base. now exists [x]. Qed.

Lemma frame1_push_changed (names : list string) (x : string) :
  In x names -> preserves (frame1 names) (NonDiffing.push_changed x).
Proof.
  intros Hx w. unfold frame1. simpl. frame_base.
  exists [x]. split; [reflexivity | now intros y [<-|[]]].
Qed.

Lemma frame1_writeFileSync (names : list string) (x : string) (f : File) :
  In x names -> preserves (frame1 names) (writeFileSync x f).
Proof.
  intros Hx w. unfold frame1. simpl. frame_base.
  exists [(x, f)]. split; [reflexivity | now intros y [<-|[]]].
Qed.

Lemma frame1_console_log (names : list string) (l : Line NonDiffing.Report) :
  preserves (frame1 names) (console_log l).
Proof. intros w. unfold frame1. simpl. frame_base. now exists [l]. Qed.

Lemma frame1_checkParams (names : list string) (translation key : string) (sv tv : value) :
  preserves (frame1 names) (NonDiffing.checkParams translation key sv tv).
Proof.
  unfold NonDiffing.checkParams.
  p_bind; [pure_step|]. intros paramInfo.
  destruct (negb _); [apply frame1_push_error | pure_step].
Qed.

Lemma frame1_mergeFunc (default_lang : Obj) (translation : string) :
  preserves (frame1 [translation]) (NonDiffing.mergeFunc default_lang translation).
Proof.
  unfold NonDiffing.mergeFunc.
  p_bind; [pure_step|]. intros f.
  p_bind; [pure_step|]. intros translation_obj.
  p_bind.
  - unfold NonDiffing.mergeFunc_res_obj. p_foldM.
    intros res_obj [key tv]. destruct (has key res_obj); [|pure_step].
    p_bind; [apply frame1_checkParams | intros _; pure_step].
  - intros res_obj. destruct (negb _); [|pure_step].
    p_bind; [apply frame1_writeFileSync; now left|].
    intros _. apply frame1_push_changed. now left.
Qed.

Lemma frame1_validateFunc (default_lang : Obj) (translation : string) :
  preserves (frame1 []) (NonDiffing.validateFunc default_lang translation).
Proof.
  unfold NonDiffing.validateFunc.
  p_bind; [pure_step|]. intros f.
  p_bind; [pure_step|]. intros translation_obj.
  p_forEach. intros [key tv] _.
  destruct (has key default_lang); [apply frame1_checkParams | pure_step].
Qed.

Lemma stdout1_mergeFunc (default_lang : Obj) (translation : string) :
  preserves (same_on stdout) (NonDiffing.mergeFunc default_lang translation).
Proof.
  unfold NonDiffing.mergeFunc.
  p_bind; [same_step|]. intros f.
  p_bind; [same_step|]. intros translation_obj.
  p_bind.
  - unfold NonDiffing.mergeFunc_res_obj. p_foldM.
    intros res_obj [key tv]. destruct (has key res_obj); [|same_step].
    p_bind; [|intros _; same_step].
    unfold NonDiffing.checkParams.
    p_bind; [same_step|]. intros paramInfo.
    destruct (negb _); same_step.
  - intros res_obj. destruct (negb _); [|same_step].
    p_bind; [same_step | intros _; same_step].
Qed.

Lemma stdout1_validateFunc (default_lang : Obj) (translation : string) :
  preserves (same_on stdout) (NonDiffing.validateFunc default_lang translation).
Proof.
  unfold NonDiffing.validateFunc.
  p_bind; [same_step|]. intros f.
  p_bind; [same_step|]. intros translation_obj.
  p_forEach. intros [key tv] _.
  destruct (has key default_lang); [|same_step].
  unfold NonDiffing.checkParams.
  p_bind; [same_step|]. intros paramInfo.
  destruct (negb _); same_step.
Qed.

End CommandFrames.

Module RunnerFrames.

Import ObjFacts LoopFacts FrameFacts CommandFrames.

Lemma preserves_weaken {R A : Type} (P Q : World R -> World R -> Prop) (c : M R A) :
  (forall w w', P w w' -> Q w w') -> preserves P c -> preserves Q c.
Proof. intros H Hc w. apply H, Hc. Qed.

Lemma In_translations (idx : Index) (x : string) :
  In x (Diffing.translations idx)
  <-> In x (map snd (index_translations idx)) /\ x <> Diffing.default_lang_file idx.
Proof.
  unfold Diffing.translations. rewrite filter_In, negb_true_iff, String.eqb_neq.
  reflexivity.
Qed.

(** [newTranslations] reads and changes nothing; what it returns are
    target files, and there is one unless there is no target at
    all. *)
Lemma newTranslations_total (idx : Index) (oldTranslationFile : string) (w : World Diffing.Report) :
  snd (Diffing.newTranslations idx oldTranslationFile w) = w
  /\ (forall l, fst (Diffing.newTranslations idx oldTranslationFile w) = Ok l ->
                incl l (Diffing.translations idx)
                /\ (l = [] -> Diffing.translations idx = [])).
Proof.
  unfold Diffing.newTranslations, bind, existsSync, translationToObj.
  destruct (readFile (fs w) oldTranslationFile) as [f|] eqn:Hf;
    [|split; [reflexivity | intros l [= <-]; split; [apply incl_refl | trivial]]].
  destruct (oldTranslationFile =? "")%string; simpl;
    [split; [reflexivity | intros l [= <-]; split; [apply incl_refl | trivial]]|].
  rewrite Hf.
  destruct f as [o|old|r]; simpl;
    try (split; [reflexivity | intros l H; discriminate H]).
  set (uniq := filter _ (Diffing.translations idx)).
  destruct uniq as [|x uniq'] eqn:E; simpl.
  - split; [reflexivity | intros l [= <-]; split; [apply incl_refl | trivial]].
  - split; [reflexivity|]. intros l [= <-]. split; [|discriminate].
    rewrite <- E. unfold uniq. intros y Hy. now apply filter_In in Hy.
Qed.

Lemma frame_dispatch (idx : Index) (names : list string) (run : string -> M Diffing.Report unit) (arg : option string) :
  (forall a, In a (Diffing.translations idx) -> preserves (frame names) (run a)) ->
  preserves (frame names) (Diffing.dispatch idx run arg).
Proof.
  intros Hrun. unfold Diffing.dispatch.
  destruct arg as [a|]; [|p_forEach; exact Hrun].
  destruct (truthy (Some a) && includes (Diffing.translations idx) a) eqn:E.
  - apply andb_true_iff in E as [_ E]. apply includes_In in E. now apply Hrun.
  - apply (preserves_bind_post _ (frame names)
             (fun l => incl l (Diffing.translations idx))).
    + destruct (truthy (Some a)); [|pure_step].
      apply preserves_pure; [typeclasses eauto|].
      intros w. apply newTranslations_total.
    + intros w l. destruct (truthy (Some a)).
      * intros H. now apply newTranslations_total in H.
      * intros [= <-]. apply incl_refl.
    + intros l Hl. p_forEach. intros x Hx. apply Hrun, Hl, Hx.
Qed.

Lemma frame1_dispatch (idx : Index) (names : list string) (run : string -> M NonDiffing.Report unit) (arg : option string) :
  (forall a, In a (NonDiffing.translations idx) -> preserves (frame1 names) (run a)) ->
  preserves (frame1 names) (NonDiffing.dispatch idx run arg).
Proof.
  intros Hrun. unfold NonDiffing.dispatch.
  destruct arg as [a|]; [|p_forEach; exact Hrun].
  destruct (truthy (Some a) && includes (NonDiffing.translations idx) a) eqn:E.
  - apply andb_true_iff in E as [_ E]. apply includes_In in E. now apply Hrun.
  - p_forEach. exact Hrun.
Qed.

Lemma getCommand_cases (default_lang : Obj) (c : string) (run : string -> M Diffing.Report unit) :
  Diffing.getCommand (Diffing.commands default_lang) c = Some run ->
  run = Diffing.mergeFunc default_lang \/ run = Diffing.validateFunc default_lang.
Proof.
  unfold Diffing.commands. cbn [Diffing.getCommand].
  destruct ("merge" =? c)%string; [intros H; injection H as H; now left|].
  destruct ("validate" =? c)%string; [intros H; injection H as H; now right | discriminate].
Qed.

Lemma getCommand1_cases (default_lang : Obj) (c : string) (run : string -> M NonDiffing.Report unit) :
  NonDiffing.getCommand (NonDiffing.commands default_lang) c = Some run ->
  run = NonDiffing.mergeFunc default_lang \/ run = NonDiffing.validateFunc default_lang.
Proof.
  unfold NonDiffing.commands. cbn [NonDiffing.getCommand].
  destruct ("merge" =? c)%string; [intros H; injection H as H; now left|].
  destruct ("validate" =? c)%string; [intros H; injection H as H; now right | discriminate].
Qed.

(** The whole script of the second copy: the files it writes are target
    files and [.result.json], the names it records are target files,
    and the report and the output only grow. *)
Lemma frame_main (idx : Index) (argv2 argv3 : option string) :
  preserves (frame (".result.json" :: Diffing.translations idx))
            (Diffing.main idx argv2 argv3).
Proof.
  unfold Diffing.main.
  p_bind; [pure_step|]. intros f.
  p_bind; [pure_step|]. intros default_lang.
  destruct (command argv2) as [c|].
  - destruct (negb (includes Diffing.commandNames c)).
    + p_bind; [apply frame_console_log | intros _; pure_step].
    + destruct (Diffing.getCommand (Diffing.commands default_lang) c) as [run|] eqn:E;
        [|pure_step].
      p_bind.
      * apply frame_dispatch. intros a Ha.
        apply getCommand_cases in E as [->| ->].
        -- apply (preserves_weaken (frame [a])); [|apply frame_mergeFunc].
           intros w w'. apply frame_mono. intros x [<-|[]]. now right.
        -- apply (preserves_weaken (frame [])); [|apply frame_validateFunc].
           intros w w'. apply frame_mono. intros x [].
      * intros _. p_bind.
        -- intros w. apply frame_console_log.
        -- intros _ w. apply frame_writeFileSync. now left.
  - p_bind; [apply frame_console_log | intros _; pure_step].
Qed.

Lemma frame1_main (idx : Index) (argv2 argv3 : option string) :
  preserves (frame1 (".result.json" :: NonDiffing.translations idx))
            (NonDiffing.main idx argv2 argv3).
Proof.
  unfold NonDiffing.main.
  p_bind; [pure_step|]. intros f.
  p_bind; [pure_step|]. intros default_lang.
  destruct (command argv2) as [c|].
  - destruct (negb (includes NonDiffing.commandNames c)).
    + p_bind; [apply frame1_console_log | intros _; pure_step].
    + destruct (NonDiffing.getCommand (NonDiffing.commands default_lang) c) as [run|] eqn:E;
        [|pure_step].
      p_bind.
      * apply frame1_dispatch. intros a Ha.
        apply getCommand1_cases in E as [->| ->].
        -- apply (preserves_weaken (frame1 [a])); [|apply frame1_mergeFunc].
           intros w w'. apply frame1_mono. intros x [<-|[]]. now right.
        -- apply (preserves_weaken (frame1 [])); [|apply frame1_validateFunc].
           intros w w'. apply frame1_mono. intros x [].
      * intros _. p_bind.
        -- intros w. apply frame1_console_log.
        -- intros _ w. apply frame1_writeFileSync. now left.
  - p_bind; [apply frame1_console_log | intros _; pure_step].
Qed.

End RunnerFrames.

Module ExitFacts.

Import LoopFacts.

Lemma never_exits_bind {R A B : Type} (c : M R A) (k : A -> M R B) :
  never_exits c -> (forall a, never_exits (k a)) -> never_exits (bind c k).
Proof.
  intros Hc Hk w code. unfold bind. specialize (Hc w code).
  destruct (c w) as [[a|e] w1]; simpl in *; [apply Hk|].
  intros [= ->]. now apply Hc.
Qed.

Lemma never_exits_forEach {R A : Type} (l : list A) (f : A -> M R unit) :
  (forall a, never_exits (f a)) -> never_exits (forEach l f).
Proof.
  intros H. induction l as [|a l IH]; simpl.
  - intros w code. discriminate.
  - apply never_exits_bind; [apply H | intros _; exact IH].
Qed.

Lemma never_exits_foldM {R A B : Type} (f : B -> A -> M R B) (l : list A) :
  (forall b a, never_exits (f b a)) -> forall b, never_exits (foldM f l b).
Proof.
  intros H. induction l as [|a l IH]; intros b; simpl.
  - intros w code. discriminate.
  - apply never_exits_bind; [apply H | apply IH].
Qed.

Lemma never_exits_translationToObj {R : Type} (name : string) :
  never_exits (@translationToObj R name).
Proof.
  intros w code. unfold translationToObj.
  destruct (name =? "")%string; [discriminate|].
  destruct (readFile (fs w) name); discriminate.
Qed.

Lemma never_exits_asTranslation {R : Type} (name : string) (f : File) :
  never_exits (@asTranslation R name f).
Proof. intros w code. destruct f; discriminate. Qed.

Lemma never_exits_asIndex {R : Type} (name : string) (f : File) :
  never_exits (@asIndex R name f).
Proof. intros w code. destruct f; discriminate. Qed.

Lemma countValue_no_exit (v : value) (sub : string) (code : nat) :
  countValue v sub <> Throw (ProcessExit code).
Proof. destruct v; discriminate. Qed.

Lemma never_exits_checkPatterns (translation key : string) (sv tv : value) :
  never_exits (Diffing.checkPatterns translation key sv tv).
Proof.
  unfold Diffing.checkPatterns. apply never_exits_forEach. intros p.
  apply never_exits_bind.
  - intros w code. unfold lift, Diffing.patternCheck, bindR. simpl.
    destruct sv; try discriminate. destruct tv; discriminate.
  - intros paramInfo. destruct (negb _); intros w code; discriminate.
Qed.

Lemma never_exits_checkParams (translation key : string) (sv tv : value) :
  never_exits (NonDiffing.checkParams translation key sv tv).
Proof.
  unfold NonDiffing.checkParams. apply never_exits_bind.
  - intros w code. unfold lift, NonDiffing.validateParams, bindR. simpl.
    destruct sv; try discriminate. destruct tv; discriminate.
  - intros paramInfo. destruct (negb _); intros w code; discriminate.
Qed.

Lemma every_no_exit (y : Obj) (l : list string) (code : nat) :
  every (Diffing.callHasOwnProperty y) l <> Throw (ProcessExit code).
Proof.
  induction l as [|z l IH]; simpl; [discriminate|].
  unfold Diffing.callHasOwnProperty at 1.
  destruct (lookup "hasOwnProperty" y); simpl; [discriminate|].
  destruct (hasOwnProperty y z); [exact IH | discriminate].
Qed.

Lemma never_exits_mergeFunc (default_lang : Obj) (translation : string) :
  never_exits (Diffing.mergeFunc default_lang translation).
Proof.
  unfold Diffing.mergeFunc.
  apply never_exits_bind; [apply never_exits_translationToObj|]. intros f.
  apply never_exits_bind; [apply never_exits_asTranslation|]. intros translation_obj.
  apply never_exits_bind.
  - unfold Diffing.mergeFunc_res_obj. apply never_exits_foldM.
    intros res_obj [key tv]. destruct (has key res_obj); [|intros w code; discriminate].
    apply never_exits_bind; [apply never_exits_checkPatterns|].
    intros _ w code. discriminate.
  - intros res_obj. apply never_exits_bind.
    + intros w code. unfold lift, Diffing.objHasAllKeys. simpl.
      destruct (_ =? _)%nat; [apply every_no_exit | discriminate].
    + intros same. destruct (negb same); [|intros w code; discriminate].
      apply never_exits_bind; intros; intros w code; discriminate.
Qed.

Lemma never_exits_validateFunc (default_lang : Obj) (translation : string) :
  never_exits (Diffing.validateFunc default_lang translation).
Proof.
  unfold Diffing.validateFunc.
  apply never_exits_bind; [apply never_exits_translationToObj|]. intros f.
  apply never_exits_bind; [apply never_exits_asTranslation|]. intros translation_obj.
  apply never_exits_forEach. intros [key tv].
  destruct (has key default_lang); [|intros w code; discriminate].
  apply never_exits_bind; [apply never_exits_checkPatterns|]. intros _.
  destruct (strictEquals _ _); intros w code; discriminate.
Qed.

Lemma never_exits_mergeFunc1 (default_lang : Obj) (translation : string) :
  never_exits (NonDiffing.mergeFunc default_lang translation).
Proof.
  unfold NonDiffing.mergeFunc.
  apply never_exits_bind; [apply never_exits_translationToObj|]. intros f.
  apply never_exits_bind; [apply never_exits_asTranslation|]. intros translation_obj.
  apply never_exits_bind.
  - unfold NonDiffing.mergeFunc_res_obj. apply never_exits_foldM.
    intros res_obj [key tv]. destruct (has key res_obj); [|intros w code; discriminate].
    apply never_exits_bind; [apply never_exits_checkParams|].
    intros _ w code. discriminate.
  - intros res_obj. destruct (negb _); [|intros w code; discriminate].
    apply never_exits_bind; intros; intros w code; discriminate.
Qed.

Lemma never_exits_validateFunc1 (default_lang : Obj) (translation : string) :
  never_exits (NonDiffing.validateFunc default_lang translation).
Proof.
  unfold NonDiffing.validateFunc.
  apply never_exits_bind; [apply never_exits_translationToObj|]. intros f.
  apply never_exits_bind; [apply never_exits_asTranslation|]. intros translation_obj.
  apply never_exits_forEach. intros [key tv].
  destruct (has key default_lang); [|intros w code; discriminate].
  apply never_exits_checkParams.
Qed.

Lemma never_exits_newTranslations (idx : Index) (oldTranslationFile : string) :
  never_exits (Diffing.newTranslations idx oldTranslationFile).
Proof.
  unfold Diffing.newTranslations.
  apply never_exits_bind; [intros w code; discriminate|]. intros present.
  destruct (negb present); [intros w code; discriminate|].
  apply never_exits_bind; [apply never_exits_translationToObj|]. intros f.
  apply never_exits_bind; [apply never_exits_asIndex|]. intros old.
  destruct (_ =? 0)%nat; intros w code; discriminate.
Qed.

Lemma never_exits_dispatch (idx : Index) (run : string -> M Diffing.Report unit) (arg : option string) :
  (forall a, never_exits (run a)) -> never_exits (Diffing.dispatch idx run arg).
Proof.
  intros H. unfold Diffing.dispatch.
  destruct arg as [a|]; [|now apply never_exits_forEach].
  destruct (_ && _); [apply H|].
  apply never_exits_bind; [|intros l; now apply never_exits_forEach].
  destruct (truthy (Some a)); [apply never_exits_newTranslations|].
  intros w code. discriminate.
Qed.

Lemma never_exits_dispatch1 (idx : Index) (run : string -> M NonDiffing.Report unit) (arg : option string) :
  (forall a, never_exits (run a)) -> never_exits (NonDiffing.dispatch idx run arg).
Proof.
  intros H. unfold NonDiffing.dispatch.
  destruct arg as [a|]; [|now apply never_exits_forEach].
  destruct (_ && _); [apply H | now apply never_exits_forEach].
Qed.

End ExitFacts.

(** * Further properties of the code *)

(** ** [count] *)

(** The count is positive exactly when the pattern occurs. *)
Theorem count_positive_iff_occurs (text pattern : string) :
  pattern <> "" ->
  ((0 < count text pattern)%Z <-> occurs pattern text).
Proof.
  intros Hp. rewrite (StringFacts.count_occurrences_nonempty _ _ Hp).
  unfold occurrences.
  destruct (StringIndexOf pattern text) as [j|] eqn:E.
  - rewrite (StringFacts.occurrences_found _ _ _ Hp E). split; [intros _|lia].
    apply StringFacts.occurs_prefix_drop. exists j.
    now apply StringFacts.StringIndexOf_Some.
  - rewrite (StringFacts.occurrences_absent _ _ E). split; [lia|].
    intros H. now apply StringFacts.StringIndexOf_None_iff in E.
Qed.

Lemma count_positive_iff_occurs_witness :
  "%" <> "" /\ ((0 < count "100%" "%")%Z <-> occurs "%" "100%").
Proof.
  assert (H : "%" <> "") by discriminate.
  split; [exact H | exact (count_positive_iff_occurs "100%" "%" H)].
Defined.

Lemma occurrences_bound (p : string) (fuel : nat) :
  p <> "" ->
  forall s, (String.length s <= fuel)%nat ->
            (occurrences_from 0 p s * String.length p <= String.length s)%nat.
Proof.
  intros Hp. induction fuel as [|fuel IH]; intros s Hlen.
  - destruct s; [simpl; lia | simpl in Hlen; lia].
  - destruct (StringIndexOf p s) as [j|] eqn:E.
    + rewrite (StringFacts.occurrences_found _ _ _ Hp E).
      pose proof (StringFacts.StringIndexOf_Some _ _ _ E) as [_ Eb].
      assert (Hd : (String.length (drop (j + String.length p) s) <= fuel)%nat).
      { rewrite StringFacts.length_drop.
        destruct p; [congruence | simpl in *; lia]. }
      specialize (IH _ Hd). rewrite StringFacts.length_drop in IH.
      simpl. lia.
    + rewrite (StringFacts.occurrences_absent _ _ E). simpl. lia.
Qed.

(** The occurrences counted fit in the text one after the other. *)
Theorem count_times_length (text pattern : string) :
  pattern <> "" ->
  (count text pattern * Z.of_nat (String.length pattern)
   <= Z.of_nat (String.length text))%Z.
Proof.
  intros Hp. rewrite (StringFacts.count_occurrences_nonempty _ _ Hp).
  unfold occurrences.
  pose proof (occurrences_bound pattern (String.length text) Hp text (le_n _)).
  lia.
Qed.

Lemma count_times_length_witness :
  "{}" <> "" /\ (count "a{}b{}c" "{}" * 2 <= 7)%Z.
Proof.
  assert (H : "{}" <> "") by discriminate.
  split; [exact H | exact (count_times_length "a{}b{}c" "{}" H)].
Defined.

(** With the empty pattern [count] is the length of the text minus
    one: [-1] for the empty text. *)
Theorem count_empty_pattern (text : string) :
  count text "" = (Z.of_nat (String.length text) - 1)%Z.
Proof.
  unfold count, split. simpl.
  now rewrite StringFacts.splitCodeUnits_length.
Qed.

(** ** [objHasAllKeys] (line 193) *)

(** On objects that have no key [hasOwnProperty], [objHasAllKeys]
    decides whether the two key sets are equal, and the order of its
    arguments does not matter. *)
Theorem objHasAllKeys_same_key_set (x y : Obj) :
  NoDup (keys x) -> NoDup (keys y) ->
  hasOwnProperty x "hasOwnProperty" = false ->
  hasOwnProperty y "hasOwnProperty" = false ->
  (exists b, Diffing.objHasAllKeys x y = Ok b /\ (b = true <-> same_key_set x y))
  /\ Diffing.objHasAllKeys x y = Diffing.objHasAllKeys y x.
Proof.
  intros Hx Hy Hhx Hhy.
  rewrite (DiffingFacts.objHasAllKeys_ok x y Hhy), (DiffingFacts.objHasAllKeys_ok y x Hhx).
  split.
  - eexists. split; [reflexivity|]. apply (same_key_set_test x y Hx Hy).
  - f_equal.
    destruct ((List.length (keys x) =? List.length (keys y))%nat
              && forallb (hasOwnProperty y) (keys x)) eqn:E1;
      destruct ((List.length (keys y) =? List.length (keys x))%nat
                && forallb (hasOwnProperty x) (keys y)) eqn:E2;
      try reflexivity.
    + apply (same_key_set_test x y Hx Hy) in E1.
      assert (H : same_key_set y x) by (intros k; symmetry; apply E1).
      apply (same_key_set_test y x Hy Hx) in H. congruence.
    + apply (same_key_set_test y x Hy Hx) in E2.
      assert (H : same_key_set x y) by (intros k; symmetry; apply E2).
      apply (same_key_set_test x y Hx Hy) in H. congruence.
Qed.

Lemma objHasAllKeys_same_key_set_witness :
  Diffing.objHasAllKeys [("a", "1"); ("b", "2")] [("b", "x"); ("a", "y")]
  = Diffing.objHasAllKeys [("b", "x"); ("a", "y")] [("a", "1"); ("b", "2")].
Proof.
  refine (proj2 (objHasAllKeys_same_key_set
                   [("a", "1"); ("b", "2")] [("b", "x"); ("a", "y")]
                   _ _ eq_refl eq_refl)).
  - repeat constructor; simpl; intuition discriminate.
  - repeat constructor; simpl; intuition discriminate.
Defined.

(** When the second object has a key [hasOwnProperty], the call of
    line 193 finds the object's own string instead of the method: with
    as many keys on both sides [objHasAllKeys] throws a TypeError, and
    with another number of keys it answers [false] before any call. *)
Theorem objHasAllKeys_shadowed (x y : Obj) :
  hasOwnProperty y "hasOwnProperty" = true ->
  Diffing.objHasAllKeys x y
  = if (List.length (keys x) =? List.length (keys y))%nat
    then Throw TypeError else Ok false.
Proof.
  unfold hasOwnProperty, Diffing.objHasAllKeys. intros H.
  destruct (List.length (keys x) =? List.length (keys y))%nat eqn:E; [|reflexivity].
  apply Nat.eqb_eq in E.
  destruct x as [|[z v] x].
  - destruct y; [discriminate H | discriminate E].
  - simpl. unfold Diffing.callHasOwnProperty.
    destruct (lookup "hasOwnProperty" y); [reflexivity | discriminate].
Qed.

Lemma objHasAllKeys_shadowed_witness :
  Diffing.objHasAllKeys [("a", "1")] [("hasOwnProperty", "x")] = Throw TypeError
  /\ Diffing.objHasAllKeys [("a", "1"); ("b", "2")] [("hasOwnProperty", "x")] = Ok false.
Proof.
  split.
  - exact (objHasAllKeys_shadowed [("a", "1")] [("hasOwnProperty", "x")] eq_refl).
  - exact (objHasAllKeys_shadowed [("a", "1"); ("b", "2")] [("hasOwnProperty", "x")] eq_refl).
Defined.

(** ** What a command leaves alone *)

Import FrameFacts CommandFrames RunnerFrames.

Lemma incl_nil_eq {A : Type} (l : list A) : incl l [] -> l = [].
Proof. destruct l as [|a l]; [reflexivity | intros H; destruct (H a); now left]. Qed.

(** [validateFunc] writes no file, records no change and prints
    nothing, whatever the target holds and also when it throws; all it
    does is append to the errors (and, in the second copy, to the
    warnings). *)
Theorem validate_writes_nothing (default_lang : Obj) (translation : string) :
  (forall w : World Diffing.Report,
     fs (snd (Diffing.validateFunc default_lang translation w)) = fs w
     /\ Diffing.changed (res (snd (Diffing.validateFunc default_lang translation w)))
        = Diffing.changed (res w)
     /\ stdout (snd (Diffing.validateFunc default_lang translation w)) = stdout w
     /\ extends (Diffing.errors (res w))
                (Diffing.errors (res (snd (Diffing.validateFunc default_lang translation w))))
     /\ extends (Diffing.warnings (res w))
                (Diffing.warnings (res (snd (Diffing.validateFunc default_lang translation w)))))
  /\ (forall w : World NonDiffing.Report,
        fs (snd (NonDiffing.validateFunc default_lang translation w)) = fs w
        /\ NonDiffing.changed (res (snd (NonDiffing.validateFunc default_lang translation w)))
           = NonDiffing.changed (res w)
        /\ stdout (snd (NonDiffing.validateFunc default_lang translation w)) = stdout w
        /\ extends (NonDiffing.errors (res w))
                   (NonDiffing.errors (res (snd (NonDiffing.validateFunc default_lang translation w))))).
Proof.
  split; intros w.
  - destruct (frame_validateFunc default_lang translation w)
      as (F & (more & C & I) & E & W & _).
    repeat split; trivial.
    + now apply written_only_nil.
    + apply incl_nil_eq in I. subst more. now rewrite app_nil_r in C.
    + apply (stdout_validateFunc default_lang translation w).
  - destruct (frame1_validateFunc default_lang translation w)
      as (F & (more & C & I) & E & _).
    repeat split; trivial.
    + now apply written_only_nil.
    + apply incl_nil_eq in I. subst more. now rewrite app_nil_r in C.
    + apply (stdout1_validateFunc default_lang translation w).
Qed.

(** [mergeFunc] writes no file but its target, records no name but the
    target's, leaves the warnings and the output alone and only appends
    to the errors, whatever the files hold and also when it throws. *)
Theorem merge_writes_target_only (default_lang : Obj) (translation : string) :
  (forall w : World Diffing.Report,
     frame [translation] w (snd (Diffing.mergeFunc default_lang translation w))
     /\ (forall other, other = translation
                       \/ readFile (fs (snd (Diffing.mergeFunc default_lang translation w))) other
                          = readFile (fs w) other)
     /\ Diffing.warnings (res (snd (Diffing.mergeFunc default_lang translation w)))
        = Diffing.warnings (res w)
     /\ stdout (snd (Diffing.mergeFunc default_lang translation w)) = stdout w)
  /\ (forall w : World NonDiffing.Report,
        frame1 [translation] w (snd (NonDiffing.mergeFunc default_lang translation w))
        /\ (forall other, other = translation
                          \/ readFile (fs (snd (NonDiffing.mergeFunc default_lang translation w))) other
                             = readFile (fs w) other)
        /\ stdout (snd (NonDiffing.mergeFunc default_lang translation w)) = stdout w).
Proof.
  split; intros w.
  - pose proof (frame_mergeFunc default_lang translation w) as F.
    split; [exact F|]. split; [|split].
    + intros other. destruct (string_dec other translation) as [->|Hne]; [now left|].
      right. destruct F as (F & _).
      apply (written_only_readFile [translation]); [exact F|].
      intros [H|[]]. congruence.
    + apply (warnings_mergeFunc default_lang translation w).
    + apply (stdout_mergeFunc default_lang translation w).
  - pose proof (frame1_mergeFunc default_lang translation w) as F.
    split; [exact F|]. split.
    + intros other. destruct (string_dec other translation) as [->|Hne]; [now left|].
      right. destruct F as (F & _).
      apply (written_only_readFile [translation]); [exact F|].
      intros [H|[]]. congruence.
    + apply (stdout1_mergeFunc default_lang translation w).
Qed.

Lemma default_lang_file_no_target (idx : Index) :
  ~ In (Diffing.default_lang_file idx) (Diffing.translations idx).
Proof. rewrite In_translations. tauto. Qed.

Lemma default_lang_file_not_result (idx : Index) :
  index_default_lang idx <> ".result" -> Diffing.default_lang_file idx <> ".result.json".
Proof.
  intros H E. apply H. unfold Diffing.default_lang_file in E.
  now apply (append_inv_tail ".json" _ ".result").
Qed.

(** A run of the script, whatever its arguments and however it ends,
    writes target files and [.result.json] and nothing else: every
    other file reads as before.  In particular the file of the default
    language is never written (unless the default language is called
    [.result]). *)
Theorem main_writes_targets_and_result_only (idx : Index) (argv2 argv3 : option string) :
  (forall (w : World Diffing.Report) name,
     name = ".result.json" \/ In name (Diffing.translations idx)
     \/ readFile (fs (snd (Diffing.main idx argv2 argv3 w))) name = readFile (fs w) name)
  /\ (forall (w : World NonDiffing.Report) name,
        name = ".result.json" \/ In name (NonDiffing.translations idx)
        \/ readFile (fs (snd (NonDiffing.main idx argv2 argv3 w))) name = readFile (fs w) name)
  /\ (index_default_lang idx <> ".result" ->
      (forall w : World Diffing.Report,
         readFile (fs (snd (Diffing.main idx argv2 argv3 w))) (Diffing.default_lang_file idx)
         = readFile (fs w) (Diffing.default_lang_file idx))
      /\ (forall w : World NonDiffing.Report,
            readFile (fs (snd (NonDiffing.main idx argv2 argv3 w))) (NonDiffing.default_lang_file idx)
            = readFile (fs w) (NonDiffing.default_lang_file idx))).
Proof.
  assert (H2 : forall (w : World Diffing.Report) name,
             name <> ".result.json" -> ~ In name (Diffing.translations idx) ->
             readFile (fs (snd (Diffing.main idx argv2 argv3 w))) name = readFile (fs w) name).
  { intros w name Hr Ht. destruct (frame_main idx argv2 argv3 w) as (F & _).
    apply (written_only_readFile _ _ _ _ F). intros [H|H]; [congruence | tauto]. }
  assert (H1 : forall (w : World NonDiffing.Report) name,
             name <> ".result.json" -> ~ In name (NonDiffing.translations idx) ->
             readFile (fs (snd (NonDiffing.main idx argv2 argv3 w))) name = readFile (fs w) name).
  { intros w name Hr Ht. destruct (frame1_main idx argv2 argv3 w) as (F & _).
    apply (written_only_readFile _ _ _ _ F). intros [H|H]; [congruence | tauto]. }
  split; [|split].
  - intros w name. destruct (string_dec name ".result.json") as [->|Hr]; [now left|].
    destruct (in_dec string_dec name (Diffing.translations idx)) as [Hi|Hn]; [tauto|].
    right; right. now apply H2.
  - intros w name. destruct (string_dec name ".result.json") as [->|Hr]; [now left|].
    destruct (in_dec string_dec name (NonDiffing.translations idx)) as [Hi|Hn]; [tauto|].
    right; right. now apply H1.
  - intros Hd. split; intros w.
    + apply H2; [now apply default_lang_file_not_result|].
      apply default_lang_file_no_target.
    + apply H1; [now apply default_lang_file_not_result|].
      apply default_lang_file_no_target.
Qed.

Lemma main_writes_targets_and_result_only_witness :
  readFile (fs (snd (Diffing.main sample_index (Some "merge") None
                       (start (sample_fs [("greet", "Hello")] [("old", "x")])))))
           "en.json"
  = Some (TranslationFile [("greet", "Hello")]).
Proof.
  refine (proj1 (proj2 (proj2 (main_writes_targets_and_result_only
                                 sample_index (Some "merge") None)) _)
                (start (sample_fs [("greet", "Hello")] [("old", "x")]))).
  discriminate.
Defined.

#[export] Instance recorded_pre (names : list string) : PreOrder (recorded names).
Proof.
  split.
  - intros w. exists []. split; [now rewrite app_nil_r | intros x []].
  - intros a b c (m1 & C1 & I1) (m2 & C2 & I2). exists (m1 ++ m2).
    split; [now rewrite C2, C1, app_assoc | now apply incl_app].
Qed.

#[export] Instance recorded1_pre (names : list string) : PreOrder (recorded1 names).
Proof.
  split.
  - intros w. exists []. split; [now rewrite app_nil_r | intros x []].
  - intros a b c (m1 & C1 & I1) (m2 & C2 & I2). exists (m1 ++ m2).
    split; [now rewrite C2, C1, app_assoc | now apply incl_app].
Qed.

Ltac recorded_same :=
  intros w; exists []; split; [simpl; now rewrite app_nil_r | intros x []].

Lemma recorded_main (idx : Index) (argv2 argv3 : option string) :
  preserves (recorded (Diffing.translations idx)) (Diffing.main idx argv2 argv3).
Proof.
  unfold Diffing.main.
  p_bind; [pure_step|]. intros f.
  p_bind; [pure_step|]. intros default_lang.
  destruct (command argv2) as [c|].
  - destruct (negb (includes Diffing.commandNames c)).
    + p_bind; [recorded_same | intros _; pure_step].
    + destruct (Diffing.getCommand (Diffing.commands default_lang) c) as [run|] eqn:E;
        [|pure_step].
      p_bind.
      * apply (preserves_weaken (frame (Diffing.translations idx)));
          [intros w w' H; apply H|].
        apply frame_dispatch. intros a Ha.
        apply getCommand_cases in E as [->| ->].
        -- apply (preserves_weaken (frame [a])); [|apply frame_mergeFunc].
           intros w w'. apply frame_mono. now intros x [<-|[]].
        -- apply (preserves_weaken (frame [])); [|apply frame_validateFunc].
           intros w w'. apply frame_mono. intros x [].
      * intros _. p_bind; [recorded_same | intros _; recorded_same].
  - p_bind; [recorded_same | intros _; pure_step].
Qed.

Lemma recorded1_main (idx : Index) (argv2 argv3 : option string) :
  preserves (recorded1 (NonDiffing.translations idx)) (NonDiffing.main idx argv2 argv3).
Proof.
  unfold NonDiffing.main.
  p_bind; [pure_step|]. intros f.
  p_bind; [pure_step|]. intros default_lang.
  destruct (command argv2) as [c|].
  - destruct (negb (includes NonDiffing.commandNames c)).
    + p_bind; [recorded_same | intros _; pure_step].
    + destruct (NonDiffing.getCommand (NonDiffing.commands default_lang) c) as [run|] eqn:E;
        [|pure_step].
      p_bind.
      * apply (preserves_weaken (frame1 (NonDiffing.translations idx)));
          [intros w w' H; apply H|].
        apply frame1_dispatch. intros a Ha.
        apply getCommand1_cases in E as [->| ->].
        -- apply (preserves_weaken (frame1 [a])); [|apply frame1_mergeFunc].
           intros w w'. apply frame1_mono. now intros x [<-|[]].
        -- apply (preserves_weaken (frame1 [])); [|apply frame1_validateFunc].
           intros w w'. apply frame1_mono. intros x [].
      * intros _. p_bind; [recorded_same | intros _; recorded_same].
  - p_bind; [recorded_same | intros _; pure_step].
Qed.

(** The report is only appended to, from the first line of the script
    to the last: what [res] held stays where it was, and the names
    added to [changed] are target files. *)
Theorem main_report_grows (idx : Index) (argv2 argv3 : option string) :
  (forall w : World Diffing.Report,
     (exists more,
        Diffing.changed (res (snd (Diffing.main idx argv2 argv3 w)))
        = Diffing.changed (res w) ++ more
        /\ incl more (Diffing.translations idx))
     /\ extends (Diffing.errors (res w))
                (Diffing.errors (res (snd (Diffing.main idx argv2 argv3 w))))
     /\ extends (Diffing.warnings (res w))
                (Diffing.warnings (res (snd (Diffing.main idx argv2 argv3 w))))
     /\ extends (stdout w) (stdout (snd (Diffing.main idx argv2 argv3 w))))
  /\ (forall w : World NonDiffing.Report,
        (exists more,
           NonDiffing.changed (res (snd (NonDiffing.main idx argv2 argv3 w)))
           = NonDiffing.changed (res w) ++ more
           /\ incl more (NonDiffing.translations idx))
        /\ extends (NonDiffing.errors (res w))
                   (NonDiffing.errors (res (snd (NonDiffing.main idx argv2 argv3 w))))
        /\ extends (stdout w) (stdout (snd (NonDiffing.main idx argv2 argv3 w)))).
Proof.
  split; intros w.
  - destruct (frame_main idx argv2 argv3 w) as (_ & _ & E & W & O).
    split; [apply (recorded_main idx argv2 argv3 w) | tauto].
  - destruct (frame1_main idx argv2 argv3 w) as (_ & _ & E & O).
    split; [apply (recorded1_main idx argv2 argv3 w) | tauto].
Qed.


(** ** How the script ends *)

Import ExitFacts.

(** The script, unfolded: the default language is loaded first, then
    the command is looked up, then the command is run on the files
    selected, and the report is printed and written only after all of
    them went through. *)
Lemma main_outcome (idx : Index) (argv2 argv3 : option string) (w : World Diffing.Report) :
  Diffing.main idx argv2 argv3 w
  = match readFile (fs w) (Diffing.default_lang_file idx) with
    | None => (Throw (ENOENT (Diffing.default_lang_file idx)), w)
    | Some (TranslationFile default_lang) =>
        match command argv2 with
        | None =>
            (Throw (ProcessExit 1),
             mkWorld (fs w) (res w)
               (stdout w ++ [Text ("No command provided" ++ newline
                                   ++ "Available commands: merge, validate")]))
        | Some c =>
            if includes Diffing.commandNames c then
              match Diffing.getCommand (Diffing.commands default_lang) c with
              | Some run =>
                  match Diffing.dispatch idx run argv3 w with
                  | (Ok _, w1) =>
                      (Ok tt,
                       mkWorld ((".result.json", Diffing.reportToTranslation (res w1))
                                  :: fs w1)
                               (res w1) (stdout w1 ++ [Inspect (res w1)]))
                  | (Throw e, w1) => (Throw e, w1)
                  end
              | None => (Throw TypeError, w)
              end
            else
              (Throw (ProcessExit 1),
               mkWorld (fs w) (res w)
                 (stdout w ++ [Text ("Command " ++ dquote ++ c ++ dquote
                                     ++ " does not exist" ++ newline
                                     ++ "Available commands: merge, validate")]))
        end
    | Some _ => (Throw (Malformed (Diffing.default_lang_file idx)), w)
    end.
Proof.
  unfold Diffing.main, bind at 1, translationToObj.
  destruct (String.eqb_spec (Diffing.default_lang_file idx) "") as [E|_];
    [now apply json_file_name in E|].
  destruct (readFile (fs w) (Diffing.default_lang_file idx)) as [[dl|i|r]|];
    try reflexivity.
  unfold bind at 1. simpl asTranslation. unfold ret at 1.
  destruct (command argv2) as [c|]; [|reflexivity].
  destruct (includes Diffing.commandNames c); cbn [negb]; [|reflexivity].
  destruct (Diffing.getCommand (Diffing.commands dl) c) as [run|]; [|reflexivity].
  unfold bind. destruct (Diffing.dispatch idx run argv3 w) as [[[]|e] w1]; reflexivity.
Qed.

Lemma main1_outcome (idx : Index) (argv2 argv3 : option string) (w : World NonDiffing.Report) :
  NonDiffing.main idx argv2 argv3 w
  = match readFile (fs w) (NonDiffing.default_lang_file idx) with
    | None => (Throw (ENOENT (NonDiffing.default_lang_file idx)), w)
    | Some (TranslationFile default_lang) =>
        match command argv2 with
        | None =>
            (Throw (ProcessExit 1),
             mkWorld (fs w) (res w)
               (stdout w ++ [Text ("No command provided" ++ newline
                                   ++ "Available commands: merge, validate")]))
        | Some c =>
            if includes NonDiffing.commandNames c then
              match NonDiffing.getCommand (NonDiffing.commands default_lang) c with
              | Some run =>
                  match NonDiffing.dispatch idx run argv3 w with
                  | (Ok _, w1) =>
                      (Ok tt,
                       mkWorld ((".result.json", NonDiffing.reportToTranslation (res w1))
                                  :: fs w1)
                               (res w1) (stdout w1 ++ [Inspect (res w1)]))
                  | (Throw e, w1) => (Throw e, w1)
                  end
              | None => (Throw TypeError, w)
              end
            else
              (Throw (ProcessExit 1),
               mkWorld (fs w) (res w)
                 (stdout w ++ [Text ("Command " ++ dquote ++ c ++ dquote
                                     ++ " does not exist" ++ newline
                                     ++ "Available commands: merge, validate")]))
        end
    | Some _ => (Throw (Malformed (NonDiffing.default_lang_file idx)), w)
    end.
Proof.
  unfold NonDiffing.main, bind at 1, translationToObj.
  destruct (String.eqb_spec (NonDiffing.default_lang_file idx) "") as [E|_];
    [now apply json_file_name in E|].
  destruct (readFile (fs w) (NonDiffing.default_lang_file idx)) as [[dl|i|r]|];
    try reflexivity.
  unfold bind at 1. simpl asTranslation. unfold ret at 1.
  destruct (command argv2) as [c|]; [|reflexivity].
  destruct (includes NonDiffing.commandNames c); cbn [negb]; [|reflexivity].
  destruct (NonDiffing.getCommand (NonDiffing.commands dl) c) as [run|]; [|reflexivity].
  unfold bind. destruct (NonDiffing.dispatch idx run argv3 w) as [[[]|e] w1]; reflexivity.
Qed.

Lemma includes_commandNames (c : string) :
  includes Diffing.commandNames c = true <-> In c ["merge"; "validate"].
Proof. apply includes_In. Qed.

Lemma run_never_exits (default_lang : Obj) (c : string) (run : string -> M Diffing.Report unit) :
  Diffing.getCommand (Diffing.commands default_lang) c = Some run ->
  forall a, never_exits (run a).
Proof.
  intros E a. apply getCommand_cases in E as [->| ->];
    [apply never_exits_mergeFunc | apply never_exits_validateFunc].
Qed.

Lemma run1_never_exits (default_lang : Obj) (c : string) (run : string -> M NonDiffing.Report unit) :
  NonDiffing.getCommand (NonDiffing.commands default_lang) c = Some run ->
  forall a, never_exits (run a).
Proof.
  intros E a. apply getCommand1_cases in E as [->| ->];
    [apply never_exits_mergeFunc1 | apply never_exits_validateFunc1].
Qed.

(** Once the default language file has given its mapping, the script
    ends by [exit] exactly when the first argument, in lower case, is
    neither [merge] nor [validate] (or is missing); the status is 1, and
    nothing was done but print one line: no file is written and the
    report is as it was.  No failure of a command ever ends in
    [exit]. *)
Theorem exit_iff_no_command (idx : Index) (argv2 argv3 : option string) (default_lang : Obj) :
  (forall w : World Diffing.Report,
     readFile (fs w) (Diffing.default_lang_file idx) = Some (TranslationFile default_lang) ->
     (forall code,
        fst (Diffing.main idx argv2 argv3 w) = Throw (ProcessExit code)
        <-> code = 1
            /\ (forall name, In name ["merge"; "validate"] -> command argv2 <> Some name))
     /\ ((forall name, In name ["merge"; "validate"] -> command argv2 <> Some name) ->
         exists line,
           Diffing.main idx argv2 argv3 w
           = (Throw (ProcessExit 1), mkWorld (fs w) (res w) (stdout w ++ [Text line]))))
  /\ (forall w : World NonDiffing.Report,
        readFile (fs w) (NonDiffing.default_lang_file idx)
        = Some (TranslationFile default_lang) ->
        (forall code,
           fst (NonDiffing.main idx argv2 argv3 w) = Throw (ProcessExit code)
           <-> code = 1
               /\ (forall name, In name ["merge"; "validate"] -> command argv2 <> Some name))
        /\ ((forall name, In name ["merge"; "validate"] -> command argv2 <> Some name) ->
            exists line,
              NonDiffing.main idx argv2 argv3 w
              = (Throw (ProcessExit 1), mkWorld (fs w) (res w) (stdout w ++ [Text line])))).
Proof.
  split.
  - intros w Hd. rewrite main_outcome, Hd.
    destruct (command argv2) as [c|].
    + destruct (includes Diffing.commandNames c) eqn:Ec.
      * apply includes_commandNames in Ec.
        split; [|intros H; now destruct (H c Ec)].
        intros code. split; [|intros (_ & H); now destruct (H c Ec)].
        destruct (Diffing.getCommand (Diffing.commands default_lang) c) as [run|] eqn:Er;
          [|discriminate].
        pose proof (never_exits_dispatch idx run argv3
                      (run_never_exits default_lang c run Er) w code) as Hne.
        destruct (Diffing.dispatch idx run argv3 w) as [[[]|e] w1]; [discriminate|].
        simpl in *. intros [= ->]. now destruct Hne.
      * split; [|intros _; eexists; reflexivity].
        intros code. split; [|now intros (-> & _)].
        intros [= <-]. split; [reflexivity|].
        intros name Hn [= <-]. apply includes_commandNames in Hn. congruence.
    + split; [|intros _; eexists; reflexivity].
      intros code. split; [|now intros (-> & _)].
      intros [= <-]. split; [reflexivity|]. intros name _. discriminate.
  - intros w Hd. rewrite main1_outcome, Hd.
    destruct (command argv2) as [c|].
    + destruct (includes NonDiffing.commandNames c) eqn:Ec.
      * apply (includes_In NonDiffing.commandNames) in Ec.
        split; [|intros H; now destruct (H c Ec)].
        intros code. split; [|intros (_ & H); now destruct (H c Ec)].
        destruct (NonDiffing.getCommand (NonDiffing.commands default_lang) c)
          as [run|] eqn:Er; [|discriminate].
        pose proof (never_exits_dispatch1 idx run argv3
                      (run1_never_exits default_lang c run Er) w code) as Hne.
        destruct (NonDiffing.dispatch idx run argv3 w) as [[[]|e] w1]; [discriminate|].
        simpl in *. intros [= ->]. now destruct Hne.
      * split; [|intros _; eexists; reflexivity].
        intros code. split; [|now intros (-> & _)].
        intros [= <-]. split; [reflexivity|].
        intros name Hn [= <-].
        apply (includes_In NonDiffing.commandNames) in Hn. congruence.
    + split; [|intros _; eexists; reflexivity].
      intros code. split; [|now intros (-> & _)].
      intros [= <-]. split; [reflexivity|]. intros name _. discriminate.
Qed.

Lemma exit_iff_no_command_witness :
  fst (Diffing.main sample_index (Some "Frob") None
         (start (sample_fs [("greet", "Hello")] [("greet", "Salut")])))
  = Throw (ProcessExit 1).
Proof.
  apply (proj1 (exit_iff_no_command sample_index (Some "Frob") None [("greet", "Hello")])
               (start (sample_fs [("greet", "Hello")] [("greet", "Salut")])) eq_refl).
  split; [reflexivity|].
  intros name [<-|[<-|[]]]; discriminate.
Defined.

(** The default language is read before the arguments are looked at:
    when its file is missing the script throws at once, with or without
    a command, and has done nothing. *)
Theorem default_language_missing (idx : Index) (argv2 argv3 : option string) :
  (forall w : World Diffing.Report,
     readFile (fs w) (Diffing.default_lang_file idx) = None ->
     Diffing.main idx argv2 argv3 w
     = (Throw (ENOENT (index_default_lang idx ++ ".json")), w))
  /\ (forall w : World NonDiffing.Report,
        readFile (fs w) (NonDiffing.default_lang_file idx) = None ->
        NonDiffing.main idx argv2 argv3 w
        = (Throw (ENOENT (index_default_lang idx ++ ".json")), w)).
Proof.
  split; intros w H.
  - rewrite main_outcome, H. reflexivity.
  - rewrite main1_outcome, H. reflexivity.
Qed.

Lemma default_language_missing_witness :
  Diffing.main sample_index None None (start [("fr.json", TranslationFile [])])
  = (Throw (ENOENT "en.json"), start [("fr.json", TranslationFile [])]).
Proof.
  exact (proj1 (default_language_missing sample_index None None)
               (start [("fr.json", TranslationFile [])]) eq_refl).
Defined.

Lemma frame_run (idx : Index) (default_lang : Obj) (c : string) (run : string -> M Diffing.Report unit) (argv3 : option string) :
  Diffing.getCommand (Diffing.commands default_lang) c = Some run ->
  preserves (frame (Diffing.translations idx)) (Diffing.dispatch idx run argv3).
Proof.
  intros E. apply frame_dispatch. intros a Ha.
  apply getCommand_cases in E as [->| ->].
  - apply (preserves_weaken (frame [a])); [|apply frame_mergeFunc].
    intros w w'. apply frame_mono. now intros x [<-|[]].
  - apply (preserves_weaken (frame [])); [|apply frame_validateFunc].
    intros w w'. apply frame_mono. intros x [].
Qed.

Lemma frame1_run (idx : Index) (default_lang : Obj) (c : string) (run : string -> M NonDiffing.Report unit) (argv3 : option string) :
  NonDiffing.getCommand (NonDiffing.commands default_lang) c = Some run ->
  preserves (frame1 (NonDiffing.translations idx)) (NonDiffing.dispatch idx run argv3).
Proof.
  intros E. apply frame1_dispatch. intros a Ha.
  apply getCommand1_cases in E as [->| ->].
  - apply (preserves_weaken (frame1 [a])); [|apply frame1_mergeFunc].
    intros w w'. apply frame1_mono. now intros x [<-|[]].
  - apply (preserves_weaken (frame1 [])); [|apply frame1_validateFunc].
    intros w w'. apply frame1_mono. intros x [].
Qed.

Lemma last_app_one {A : Type} (l : list A) (a d : A) : last (l ++ [a]) d = a.
Proof. induction l as [|x l IH]; [reflexivity|]. simpl. destruct (l ++ [a]) eqn:E; [now destruct l|exact IH]. Qed.

(** The report file is written exactly when the script runs to its
    end: then [.result.json] holds the report as it is at the end, and
    the last line printed is that report; when the script throws, the
    files written so far are target files, which stay rewritten, and
    [.result.json] (no target file) is as it was. *)
Theorem report_written_at_the_end (idx : Index) (argv2 argv3 : option string) :
  (forall (w : World Diffing.Report),
     fst (Diffing.main idx argv2 argv3 w) = Ok tt ->
     readFile (fs (snd (Diffing.main idx argv2 argv3 w))) ".result.json"
     = Some (Diffing.reportToTranslation (res (snd (Diffing.main idx argv2 argv3 w))))
     /\ last (stdout (snd (Diffing.main idx argv2 argv3 w))) (Text "")
        = Inspect (res (snd (Diffing.main idx argv2 argv3 w))))
  /\ (forall (w : World Diffing.Report) e,
        fst (Diffing.main idx argv2 argv3 w) = Throw e ->
        written_only (Diffing.translations idx) (fs w)
                     (fs (snd (Diffing.main idx argv2 argv3 w)))
        /\ (~ In ".result.json" (Diffing.translations idx) ->
            readFile (fs (snd (Diffing.main idx argv2 argv3 w))) ".result.json"
            = readFile (fs w) ".result.json"))
  /\ (forall (w : World NonDiffing.Report),
        fst (NonDiffing.main idx argv2 argv3 w) = Ok tt ->
        readFile (fs (snd (NonDiffing.main idx argv2 argv3 w))) ".result.json"
        = Some (NonDiffing.reportToTranslation (res (snd (NonDiffing.main idx argv2 argv3 w))))
        /\ last (stdout (snd (NonDiffing.main idx argv2 argv3 w))) (Text "")
           = Inspect (res (snd (NonDiffing.main idx argv2 argv3 w))))
  /\ (forall (w : World NonDiffing.Report) e,
        fst (NonDiffing.main idx argv2 argv3 w) = Throw e ->
        written_only (NonDiffing.translations idx) (fs w)
                     (fs (snd (NonDiffing.main idx argv2 argv3 w)))
        /\ (~ In ".result.json" (NonDiffing.translations idx) ->
            readFile (fs (snd (NonDiffing.main idx argv2 argv3 w))) ".result.json"
            = readFile (fs w) ".result.json")).
Proof.
  assert (F2 : forall (w : World Diffing.Report) e,
             fst (Diffing.main idx argv2 argv3 w) = Throw e ->
             written_only (Diffing.translations idx) (fs w)
                          (fs (snd (Diffing.main idx argv2 argv3 w)))).
  { intros w e. rewrite main_outcome.
    destruct (readFile (fs w) (Diffing.default_lang_file idx)) as [[dl|i|r]|];
      try (intros _; apply written_only_refl).
    destruct (command argv2) as [c|]; [|intros _; apply written_only_refl].
    destruct (includes Diffing.commandNames c); [|intros _; apply written_only_refl].
    destruct (Diffing.getCommand (Diffing.commands dl) c) as [run|] eqn:Er;
      [|intros _; apply written_only_refl].
    pose proof (frame_run idx dl c run argv3 Er w) as (F & _).
    destruct (Diffing.dispatch idx run argv3 w) as [[[]|e'] w1]; [discriminate|].
    intros _. exact F. }
  assert (F1 : forall (w : World NonDiffing.Report) e,
             fst (NonDiffing.main idx argv2 argv3 w) = Throw e ->
             written_only (NonDiffing.translations idx) (fs w)
                          (fs (snd (NonDiffing.main idx argv2 argv3 w)))).
  { intros w e. rewrite main1_outcome.
    destruct (readFile (fs w) (NonDiffing.default_lang_file idx)) as [[dl|i|r]|];
      try (intros _; apply written_only_refl).
    destruct (command argv2) as [c|]; [|intros _; apply written_only_refl].
    destruct (includes NonDiffing.commandNames c); [|intros _; apply written_only_refl].
    destruct (NonDiffing.getCommand (NonDiffing.commands dl) c) as [run|] eqn:Er;
      [|intros _; apply written_only_refl].
    pose proof (frame1_run idx dl c run argv3 Er w) as (F & _).
    destruct (NonDiffing.dispatch idx run argv3 w) as [[[]|e'] w1]; [discriminate|].
    intros _. exact F. }
  split; [|split; [|split]].
  - intros w. rewrite main_outcome.
    destruct (readFile (fs w) (Diffing.default_lang_file idx)) as [[dl|i|r]|];
      try discriminate.
    destruct (command argv2) as [c|]; [|discriminate].
    destruct (includes Diffing.commandNames c); [|discriminate].
    destruct (Diffing.getCommand (Diffing.commands dl) c) as [run|]; [|discriminate].
    destruct (Diffing.dispatch idx run argv3 w) as [[[]|e'] w1]; [|discriminate].
    intros _. simpl. split; [reflexivity | apply last_app_one].
  - intros w e H. split; [now apply (F2 w e)|].
    intros Hn. apply (written_only_readFile _ _ _ _ (F2 w e H) Hn).
  - intros w. rewrite main1_outcome.
    destruct (readFile (fs w) (NonDiffing.default_lang_file idx)) as [[dl|i|r]|];
      try discriminate.
    destruct (command argv2) as [c|]; [|discriminate].
    destruct (includes NonDiffing.commandNames c); [|discriminate].
    destruct (NonDiffing.getCommand (NonDiffing.commands dl) c) as [run|]; [|discriminate].
    destruct (NonDiffing.dispatch idx run argv3 w) as [[[]|e'] w1]; [|discriminate].
    intros _. simpl. split; [reflexivity | apply last_app_one].
  - intros w e H. split; [now apply (F1 w e)|].
    intros Hn. apply (written_only_readFile _ _ _ _ (F1 w e H) Hn).
Qed.

Lemma report_written_at_the_end_witness :
  readFile (fs (snd (Diffing.main sample_index (Some "merge") None
                       (start (sample_fs [("greet", "Hello")] [("old", "x")])))))
           ".result.json"
  = Some (ReportFile [("changed", ["fr.json"]); ("errors", []); ("warnings", [])])
  /\ readFile (fs (snd (Diffing.main sample_index (Some "merge") None
                          (start (sample_fs [("greet", "Hello")] [("constructor", "x")])))))
              ".result.json"
     = None.
Proof.
  split.
  - exact (proj1 (proj1 (report_written_at_the_end sample_index (Some "merge") None)
                        (start (sample_fs [("greet", "Hello")] [("old", "x")]))
                        eq_refl)).
  - refine (proj2 (proj1 (proj2 (report_written_at_the_end sample_index (Some "merge") None))
                         (start (sample_fs [("greet", "Hello")] [("constructor", "x")]))
                         TypeError eq_refl) _).
    simpl. intuition discriminate.
Defined.

(** ** [mergeFunc] under its preconditions

    The preconditions are those the loop and [objHasAllKeys] need to
    go through: objects (distinct keys), no key of the target that is
    inherited from [Object.prototype] and unknown to the source, and,
    in the second copy, no key [hasOwnProperty]. *)

Lemma merge_completes_iff_witness :
  fst (Diffing.mergeFunc_res_obj [("a", "1"); ("b", "2")] "fr.json"
         [("a", "x"); ("c", "y")]
         (start (sample_fs [("a", "1"); ("b", "2")] [("a", "x"); ("c", "y")])))
  = Ok (reconciled [("a", "1"); ("b", "2")] [("a", "x"); ("c", "y")]).
Proof.
  refine (proj1 (proj1 (merge_completes_iff
                          [("a", "1"); ("b", "2")] [("a", "x"); ("c", "y")] "fr.json"
                          (start (sample_fs _ _)) (start1 (sample_fs [] [])) _ _))
                eq_refl).
  - repeat constructor; simpl; intuition discriminate.
  - repeat constructor; simpl; intuition discriminate.
Defined.

(** The second copy: [mergeFunc] returns, appends the errors of the
    shared keys, and rewrites the target -- with the reconciled
    mapping, recording its name -- exactly when the key sets of the
    source and of the target differ. *)
Theorem second_copy_merge (source target : Obj) (translation : string) (w : World Diffing.Report) :
  translation <> "" ->
  readFile (fs w) translation = Some (TranslationFile target) ->
  NoDup (keys source) -> NoDup (keys target) ->
  no_inherited_key source target = true ->
  hasOwnProperty target "hasOwnProperty" = false ->
  fst (Diffing.mergeFunc source translation w) = Ok tt
  /\ Diffing.errors (res (snd (Diffing.mergeFunc source translation w)))
     = Diffing.errors (res w) ++ shared_errors (pattern_errors translation) source target
  /\ (same_key_set source target ->
      fs (snd (Diffing.mergeFunc source translation w)) = fs w
      /\ Diffing.changed (res (snd (Diffing.mergeFunc source translation w)))
         = Diffing.changed (res w))
  /\ (~ same_key_set source target ->
      fs (snd (Diffing.mergeFunc source translation w))
      = (translation, TranslationFile (reconciled source target)) :: fs w
      /\ Diffing.changed (res (snd (Diffing.mergeFunc source translation w)))
         = Diffing.changed (res w) ++ [translation]).
Proof.
  intros Hn Hf Hs Ht Hk Hh.
  rewrite (DiffingFacts.mergeFunc_ok source translation target w Hn Hf Hs Ht Hk Hh).
  pose proof (same_key_set_test source target Hs Ht) as Htest.
  destruct ((List.length (keys source) =? List.length (keys target))%nat
            && forallb (hasOwnProperty target) (keys source)).
  - split; [reflexivity|]. split; [reflexivity|]. split; [intros _; now split|].
    intros Hno. destruct Hno. now apply Htest.
  - split; [reflexivity|]. split; [reflexivity|]. split; [|intros _; now split].
    intros Hsame. apply Htest in Hsame. discriminate.
Qed.

Lemma second_copy_merge_witness :
  fs (snd (Diffing.mergeFunc [("a", "1"); ("b", "2")] "fr.json"
             (start (sample_fs [("a", "1"); ("b", "2")] [("a", "x"); ("c", "y")]))))
  = ("fr.json", TranslationFile (reconciled [("a", "1"); ("b", "2")] [("a", "x"); ("c", "y")]))
      :: sample_fs [("a", "1"); ("b", "2")] [("a", "x"); ("c", "y")].
Proof.
  refine (proj1 (proj2 (proj2 (proj2 (second_copy_merge
            [("a", "1"); ("b", "2")] [("a", "x"); ("c", "y")] "fr.json"
            (start (sample_fs _ _)) _ eq_refl _ _ eq_refl eq_refl))) _)).
  - discriminate.
  - repeat constructor; simpl; intuition discriminate.
  - repeat constructor; simpl; intuition discriminate.
  - intros H. destruct (proj1 (H "b")) as [E|[E|[]]]; [simpl; tauto | |]; discriminate.
Defined.

(** The first copy: [mergeFunc] returns, appends its errors, and
    rewrites the target exactly when the source and the target differ
    in their number of keys.  It never rewrites a target that has the
    key set of the source. *)
Theorem first_copy_merge (source target : Obj) (translation : string) (w : World NonDiffing.Report) :
  translation <> "" ->
  readFile (fs w) translation = Some (TranslationFile target) ->
  NoDup (keys source) -> NoDup (keys target) ->
  no_inherited_key source target = true ->
  fst (NonDiffing.mergeFunc source translation w) = Ok tt
  /\ NonDiffing.errors (res (snd (NonDiffing.mergeFunc source translation w)))
     = NonDiffing.errors (res w) ++ shared_errors (param_errors translation) source target
  /\ (List.length (keys source) = List.length (keys target) ->
      fs (snd (NonDiffing.mergeFunc source translation w)) = fs w
      /\ NonDiffing.changed (res (snd (NonDiffing.mergeFunc source translation w)))
         = NonDiffing.changed (res w))
  /\ (List.length (keys source) <> List.length (keys target) ->
      fs (snd (NonDiffing.mergeFunc source translation w))
      = (translation, TranslationFile (reconciled source target)) :: fs w
      /\ NonDiffing.changed (res (snd (NonDiffing.mergeFunc source translation w)))
         = NonDiffing.changed (res w) ++ [translation])
  /\ (same_key_set source target ->
      fs (snd (NonDiffing.mergeFunc source translation w)) = fs w).
Proof.
  intros Hn Hf Hs Ht Hk.
  rewrite (NonDiffingFacts.mergeFunc1_ok source translation target w Hn Hf Hs Ht Hk).
  pose proof (same_key_set_length source target Hs Ht) as Hlen.
  destruct (Nat.eqb_spec (List.length (keys source)) (List.length (keys target))) as [E|E].
  - split; [reflexivity|]. split; [reflexivity|]. split; [intros _; now split|].
    split; [intros Hne; now destruct Hne | reflexivity].
  - split; [reflexivity|]. split; [reflexivity|]. split; [intros Heq; congruence|].
    split; [intros _; now split|].
    intros Hsame. apply Hlen in Hsame. congruence.
Qed.

Lemma first_copy_merge_witness :
  fs (snd (NonDiffing.mergeFunc [("a", "1")] "fr.json"
             (start1 (sample_fs [("a", "1")] [("a", "x"); ("c", "y")]))))
  = ("fr.json", TranslationFile (reconciled [("a", "1")] [("a", "x"); ("c", "y")]))
      :: sample_fs [("a", "1")] [("a", "x"); ("c", "y")].
Proof.
  refine (proj1 (proj1 (proj2 (proj2 (proj2 (first_copy_merge
            [("a", "1")] [("a", "x"); ("c", "y")] "fr.json"
            (start1 (sample_fs _ _)) _ eq_refl _ _ eq_refl)))) _)).
  - discriminate.
  - repeat constructor; simpl; intuition discriminate.
  - repeat constructor; simpl; intuition discriminate.
  - discriminate.
Defined.

Lemma no_inherited_key_own (source target : Obj) (k : string) :
  no_inherited_key source target = true ->
  inherited k = true -> hasOwnProperty source k = false ->
  hasOwnProperty target k = false.
Proof.
  intros Hk Hi Hs. destruct (hasOwnProperty target k) eqn:E; [|reflexivity].
  apply hasOwnProperty_In in E.
  unfold no_inherited_key in Hk. rewrite forallb_forall in Hk.
  specialize (Hk k E). rewrite Hi, Hs in Hk. discriminate.
Qed.

Lemma no_inherited_key_same_keys (source target : Obj) :
  incl (keys target) (keys source) -> no_inherited_key source target = true.
Proof.
  intros H. apply forallb_forall. intros k Hk. apply orb_true_iff. right.
  apply hasOwnProperty_In. now apply H.
Qed.

Lemma readFile_written (files : FS) (name : string) (f : File) :
  readFile ((name, f) :: files) name = Some f.
Proof. simpl. now rewrite String.eqb_refl. Qed.

(** After the merge of the second copy the target file, named
    relative to the working directory, holds, key by key, the
    reconciled mapping, and its key set is the source's: whether the
    file was rewritten or left alone.  (The target has no key that the
    source lacks and [Object.prototype] has, and no key
    [hasOwnProperty].) *)
Theorem second_copy_merge_postcondition (source target : Obj) (translation : string) (w : World Diffing.Report) :
  translation <> "" ->
  relative translation = true ->
  readFile (fs w) translation = Some (TranslationFile target) ->
  NoDup (keys source) -> NoDup (keys target) ->
  no_inherited_key source target = true ->
  hasOwnProperty target "hasOwnProperty" = false ->
  exists o,
    readFile (fs (snd (Diffing.mergeFunc source translation w))) translation
    = Some (TranslationFile o)
    /\ same_key_set o source
    /\ forall k, lookup k o = lookup k (reconciled source target).
Proof.
  intros Hn _ Hf Hs Ht Hk Hh.
  destruct (second_copy_merge source target translation w Hn Hf Hs Ht Hk Hh)
    as (_ & _ & Hsame & Hdiff).
  pose proof (same_key_set_test source target Hs Ht) as Htest.
  destruct ((List.length (keys source) =? List.length (keys target))%nat
            && forallb (hasOwnProperty target) (keys source)) eqn:E.
  - assert (S : same_key_set source target) by now apply Htest.
    destruct (Hsame S) as [-> _]. exists target.
    split; [exact Hf|]. split; [intros k; symmetry; apply S|].
    intros k. rewrite lookup_reconciled.
    destruct (lookup k target) as [tv|] eqn:Et.
    + destruct (lookup k source) eqn:Es; [reflexivity|].
      apply lookup_None in Es. exfalso. apply Es, S.
      apply hasOwnProperty_In. unfold hasOwnProperty. now rewrite Et.
    + destruct (lookup k source) eqn:Es; [|reflexivity].
      apply lookup_None in Et. exfalso. apply Et, S.
      apply hasOwnProperty_In. unfold hasOwnProperty. now rewrite Es.
  - assert (S : ~ same_key_set source target).
    { intros S. apply Htest in S. congruence. }
    destruct (Hdiff S) as [-> _]. exists (reconciled source target).
    split; [apply readFile_written|]. split; [|reflexivity].
    intros k. now rewrite keys_reconciled.
Qed.

Lemma second_copy_merge_postcondition_witness :
  exists o,
    readFile (fs (snd (Diffing.mergeFunc [("a", "1"); ("b", "2")] "fr.json"
                         (start (sample_fs [("a", "1"); ("b", "2")]
                                           [("a", "x"); ("c", "y")])))))
             "fr.json"
    = Some (TranslationFile o)
    /\ same_key_set o [("a", "1"); ("b", "2")]
    /\ forall k, lookup k o = lookup k (reconciled [("a", "1"); ("b", "2")]
                                                    [("a", "x"); ("c", "y")]).
Proof.
  refine (second_copy_merge_postcondition
            [("a", "1"); ("b", "2")] [("a", "x"); ("c", "y")] "fr.json"
            (start (sample_fs _ _)) _ eq_refl eq_refl _ _ eq_refl eq_refl).
  - discriminate.
  - repeat constructor; simpl; intuition discriminate.
  - repeat constructor; simpl; intuition discriminate.
Defined.

(** Merging twice is merging once, as far as the files and [changed]
    go: for a target named relative to the working directory that has
    no key that the source lacks and [Object.prototype] has, the second
    run finds the target with the keys it needs and neither writes nor
    records anything, in both copies.  (In the second copy the source
    must not have the key [hasOwnProperty].) *)
Theorem merge_twice (source target : Obj) (translation : string) :
  translation <> "" ->
  relative translation = true ->
  NoDup (keys source) -> NoDup (keys target) ->
  no_inherited_key source target = true ->
  (forall w : World Diffing.Report,
     readFile (fs w) translation = Some (TranslationFile target) ->
     hasOwnProperty source "hasOwnProperty" = false ->
     fst (Diffing.mergeFunc source translation w) = Ok tt
     /\ fst (Diffing.mergeFunc source translation
               (snd (Diffing.mergeFunc source translation w))) = Ok tt
     /\ fs (snd (Diffing.mergeFunc source translation
                   (snd (Diffing.mergeFunc source translation w))))
        = fs (snd (Diffing.mergeFunc source translation w))
     /\ Diffing.changed (res (snd (Diffing.mergeFunc source translation
                                     (snd (Diffing.mergeFunc source translation w)))))
        = Diffing.changed (res (snd (Diffing.mergeFunc source translation w))))
  /\ (forall w : World NonDiffing.Report,
        readFile (fs w) translation = Some (TranslationFile target) ->
        fst (NonDiffing.mergeFunc source translation w) = Ok tt
        /\ fst (NonDiffing.mergeFunc source translation
                  (snd (NonDiffing.mergeFunc source translation w))) = Ok tt
        /\ fs (snd (NonDiffing.mergeFunc source translation
                      (snd (NonDiffing.mergeFunc source translation w))))
           = fs (snd (NonDiffing.mergeFunc source translation w))
        /\ NonDiffing.changed (res (snd (NonDiffing.mergeFunc source translation
                                           (snd (NonDiffing.mergeFunc source translation w)))))
           = NonDiffing.changed (res (snd (NonDiffing.mergeFunc source translation w)))).
Proof.
  intros Hn _ Hs Ht Hk.
  assert (Hr : NoDup (keys (reconciled source target))) by now rewrite keys_reconciled.
  assert (Hkr : no_inherited_key source (reconciled source target) = true).
  { apply no_inherited_key_same_keys. rewrite keys_reconciled. apply incl_refl. }
  split; intros w Hf.
  - intros Hhs.
    assert (Hh : hasOwnProperty target "hasOwnProperty" = false)
      by now apply (no_inherited_key_own source target).
    destruct (second_copy_merge source target translation w Hn Hf Hs Ht Hk Hh)
      as (Ok1 & _ & Hsame & Hdiff).
    split; [exact Ok1|].
    set (w1 := snd (Diffing.mergeFunc source translation w)) in *.
    pose proof (same_key_set_test source target Hs Ht) as Htest.
    destruct ((List.length (keys source) =? List.length (keys target))%nat
              && forallb (hasOwnProperty target) (keys source)) eqn:E.
    + assert (S : same_key_set source target) by now apply Htest.
      destruct (Hsame S) as [Hfs _].
      assert (Hf1 : readFile (fs w1) translation = Some (TranslationFile target))
        by now rewrite Hfs.
      destruct (second_copy_merge source target translation w1 Hn Hf1 Hs Ht Hk Hh)
        as (Ok2 & _ & Hsame2 & _).
      split; [exact Ok2 | now apply Hsame2].
    + assert (S : ~ same_key_set source target).
      { intros S. apply Htest in S. congruence. }
      destruct (Hdiff S) as [Hfs _].
      assert (Hf1 : readFile (fs w1) translation
                    = Some (TranslationFile (reconciled source target)))
        by (rewrite Hfs; apply readFile_written).
      assert (Hhr : hasOwnProperty (reconciled source target) "hasOwnProperty" = false).
      { rewrite (hasOwnProperty_keys _ source); [exact Hhs | apply keys_reconciled]. }
      destruct (second_copy_merge source (reconciled source target) translation w1
                  Hn Hf1 Hs Hr Hkr Hhr) as (Ok2 & _ & Hsame2 & _).
      split; [exact Ok2|]. apply Hsame2.
      intros k. now rewrite keys_reconciled.
  - destruct (first_copy_merge source target translation w Hn Hf Hs Ht Hk)
      as (Ok1 & _ & Heq & Hne & _).
    split; [exact Ok1|].
    set (w1 := snd (NonDiffing.mergeFunc source translation w)) in *.
    destruct (Nat.eq_dec (List.length (keys source)) (List.length (keys target))) as [E|E].
    + destruct (Heq E) as [Hfs _].
      assert (Hf1 : readFile (fs w1) translation = Some (TranslationFile target))
        by now rewrite Hfs.
      destruct (first_copy_merge source target translation w1 Hn Hf1 Hs Ht Hk)
        as (Ok2 & _ & Heq2 & _).
      split; [exact Ok2 | now apply Heq2].
    + destruct (Hne E) as [Hfs _].
      assert (Hf1 : readFile (fs w1) translation
                    = Some (TranslationFile (reconciled source target)))
        by (rewrite Hfs; apply readFile_written).
      destruct (first_copy_merge source (reconciled source target) translation w1
                  Hn Hf1 Hs Hr Hkr) as (Ok2 & _ & Heq2 & _).
      split; [exact Ok2|]. apply Heq2. now rewrite keys_reconciled.
Qed.

Lemma merge_twice_witness :
  fs (snd (Diffing.mergeFunc [("a", "1"); ("b", "2")] "fr.json"
             (snd (Diffing.mergeFunc [("a", "1"); ("b", "2")] "fr.json"
                     (start (sample_fs [("a", "1"); ("b", "2")]
                                       [("a", "x"); ("c", "y")]))))))
  = fs (snd (Diffing.mergeFunc [("a", "1"); ("b", "2")] "fr.json"
               (start (sample_fs [("a", "1"); ("b", "2")] [("a", "x"); ("c", "y")])))).
Proof.
  refine (proj1 (proj2 (proj2 (proj1 (merge_twice
            [("a", "1"); ("b", "2")] [("a", "x"); ("c", "y")] "fr.json" _ eq_refl _ _ eq_refl)
            (start (sample_fs _ _)) eq_refl eq_refl)))).
  - discriminate.
  - repeat constructor; simpl; intuition discriminate.
  - repeat constructor; simpl; intuition discriminate.
Defined.

(** ** The two commands and the two copies compared *)

(** [validate] reports the errors [merge] reports: on the same files
    the two commands append the same errors, in both copies. *)
Theorem validate_and_merge_same_errors (source target : Obj) (translation : string) :
  translation <> "" ->
  NoDup (keys source) -> NoDup (keys target) ->
  no_inherited_key source target = true ->
  (forall w : World Diffing.Report,
     readFile (fs w) translation = Some (TranslationFile target) ->
     hasOwnProperty target "hasOwnProperty" = false ->
     Diffing.errors (res (snd (Diffing.validateFunc source translation w)))
     = Diffing.errors (res (snd (Diffing.mergeFunc source translation w))))
  /\ (forall w : World NonDiffing.Report,
        readFile (fs w) translation = Some (TranslationFile target) ->
        NonDiffing.errors (res (snd (NonDiffing.validateFunc source translation w)))
        = NonDiffing.errors (res (snd (NonDiffing.mergeFunc source translation w)))).
Proof.
  intros Hn Hs Ht Hk. split; intros w Hf.
  - intros Hh.
    rewrite (DiffingFacts.validateFunc_ok source translation target w Hn Hf Hk).
    now rewrite (proj1 (proj2 (second_copy_merge source target translation w
                                 Hn Hf Hs Ht Hk Hh))).
  - rewrite (NonDiffingFacts.validateFunc1_ok source translation target w Hn Hf Hk).
    now rewrite (proj1 (proj2 (first_copy_merge source target translation w
                                 Hn Hf Hs Ht Hk))).
Qed.

Lemma validate_and_merge_same_errors_witness :
  Diffing.errors
    (res (snd (Diffing.validateFunc [("greet", "Hello {}")] "fr.json"
                 (start (sample_fs [("greet", "Hello {}")] [("greet", "Bonjour")])))))
  = Diffing.errors
      (res (snd (Diffing.mergeFunc [("greet", "Hello {}")] "fr.json"
                   (start (sample_fs [("greet", "Hello {}")] [("greet", "Bonjour")]))))).
Proof.
  refine (proj1 (validate_and_merge_same_errors
                   [("greet", "Hello {}")] [("greet", "Bonjour")] "fr.json" _ _ _ eq_refl)
                (start (sample_fs _ _)) eq_refl eq_refl).
  - discriminate.
  - repeat constructor; simpl; intuition discriminate.
  - repeat constructor; simpl; intuition discriminate.
Defined.

(** The loop of [mergeFunc] writes no file, also when it throws. *)
Lemma mergeFunc1_res_obj_fs (default_lang : Obj) (translation : string) (target : Obj) :
  preserves (same_on fs) (NonDiffing.mergeFunc_res_obj default_lang translation target).
Proof.
  unfold NonDiffing.mergeFunc_res_obj. p_foldM.
  intros res_obj [key tv]. destruct (has key res_obj); [|same_step].
  p_bind; [|intros _; same_step].
  unfold NonDiffing.checkParams. p_bind; [same_step|]. intros paramInfo.
  destruct (negb _); same_step.
Qed.

(** Whenever the first copy rewrites a target, the second copy, on the
    same files, rewrites it too, with the same contents: the reconciled
    mapping.  The source and the target are objects, that is, lists
    without a repeated key; nothing else is assumed. *)
Theorem first_copy_rewrite_is_second_copy_rewrite (source target : Obj) (translation : string) (w1 : World NonDiffing.Report) (w : World Diffing.Report) :
  fs w1 = fs w ->
  readFile (fs w) translation = Some (TranslationFile target) ->
  NoDup (keys source) -> NoDup (keys target) ->
  fs (snd (NonDiffing.mergeFunc source translation w1)) <> fs w1 ->
  fst (Diffing.mergeFunc source translation w) = Ok tt
  /\ fs (snd (Diffing.mergeFunc source translation w))
     = fs (snd (NonDiffing.mergeFunc source translation w1))
  /\ fs (snd (Diffing.mergeFunc source translation w))
     = (translation, TranslationFile (reconciled source target)) :: fs w.
Proof.
  intros Hw Hf Hs Ht Hwritten.
  assert (Hf1 : readFile (fs w1) translation = Some (TranslationFile target))
    by now rewrite Hw.
  assert (Hn : translation <> "").
  { intros ->. apply Hwritten. reflexivity. }
  assert (Hk : no_inherited_key source target = true).
  { destruct (no_inherited_key source target) eqn:Hk; [reflexivity|].
    exfalso. apply Hwritten. unfold NonDiffing.mergeFunc.
    rewrite (bind_Ok _ _ w1 w1 (TranslationFile target))
      by now apply translationToObj_ok.
    rewrite (bind_Ok _ _ w1 w1 target) by reflexivity.
    pose proof (mergeFunc1_res_obj_fs source translation target w1) as Hsame.
    destruct (NonDiffingFacts.mergeFunc1_res_obj_throws source translation target w1 Hk)
      as [w' E].
    rewrite E in Hsame. rewrite (bind_Throw _ _ w1 w' TypeError E). exact Hsame. }
  rewrite (NonDiffingFacts.mergeFunc1_ok source translation target w1 Hn Hf1 Hs Ht Hk)
    in Hwritten |- *.
  destruct (Nat.eqb_spec (List.length (keys source)) (List.length (keys target))) as [E|E].
  - destruct Hwritten. reflexivity.
  - unfold Diffing.mergeFunc.
    rewrite (bind_Ok _ _ w w (TranslationFile target)) by now apply translationToObj_ok.
    rewrite (bind_Ok _ _ w w target) by reflexivity.
    rewrite (bind_Ok _ _ w
               (add_errors w (shared_errors (pattern_errors translation) source target))
               (reconciled source target))
      by now apply DiffingFacts.mergeFunc_res_obj_ok.
    unfold lift, Diffing.objHasAllKeys. rewrite keys_reconciled.
    apply Nat.eqb_neq in E. rewrite E.
    cbn. rewrite Hw. repeat split.
Qed.

Lemma first_copy_rewrite_is_second_copy_rewrite_witness :
  fs (snd (Diffing.mergeFunc [("a", "1")] "fr.json"
             (start (sample_fs [("a", "1")] [("a", "x"); ("c", "y")]))))
  = fs (snd (NonDiffing.mergeFunc [("a", "1")] "fr.json"
               (start1 (sample_fs [("a", "1")] [("a", "x"); ("c", "y")])))).
Proof.
  refine (proj1 (proj2 (first_copy_rewrite_is_second_copy_rewrite
            [("a", "1")] [("a", "x"); ("c", "y")] "fr.json"
            (start1 (sample_fs _ _)) (start (sample_fs _ _))
            eq_refl eq_refl _ _ _))).
  - repeat constructor; simpl; intuition discriminate.
  - repeat constructor; simpl; intuition discriminate.
  - discriminate.
Defined.

Lemma flat_map_ext_in {A B : Type} (f g : A -> list B) (l : list A) :
  (forall a, In a l -> f a = g a) -> flat_map f l = flat_map g l.
Proof.
  induction l as [|a l IH]; intros H; [reflexivity|].
  simpl. rewrite (H a) by now left. f_equal. apply IH. intros b Hb. apply H. now right.
Qed.

Lemma flat_map_nil {A B : Type} (l : list A) : flat_map (fun _ => @nil B) l = [].
Proof. induction l; [reflexivity | exact IHl]. Qed.

Lemma flat_map_singleton {A B : Type} (f : A -> B) (l : list A) :
  flat_map (fun a => [f a]) l = map f l.
Proof. induction l as [|a l IH]; [reflexivity | simpl; now rewrite IH]. Qed.

Lemma pattern_errors_same (translation key v : string) :
  pattern_errors translation key v v = [].
Proof.
  unfold pattern_errors. induction Diffing.patterns as [|p ps IH]; [reflexivity|].
  simpl. now rewrite Z.eqb_refl.
Qed.

(** A target that is a copy of the source: [validate] finds no error
    and, in the second copy, warns once for every key, in order. *)
Theorem validate_copy_of_source (source : Obj) (translation : string) :
  translation <> "" ->
  NoDup (keys source) ->
  (forall w : World Diffing.Report,
     readFile (fs w) translation = Some (TranslationFile source) ->
     Diffing.validateFunc source translation w
     = (Ok tt,
        mkWorld (fs w)
                (Diffing.mkReport
                   (Diffing.changed (res w)) (Diffing.errors (res w))
                   (Diffing.warnings (res w)
                      ++ map (fun key => translation ++ "[" ++ key
                                           ++ "]: might be untranslated")%string
                             (keys source)))
                (stdout w)))
  /\ (forall w : World NonDiffing.Report,
        readFile (fs w) translation = Some (TranslationFile source) ->
        NonDiffing.validateFunc source translation w = (Ok tt, w)).
Proof.
  intros Hn Hs.
  assert (Hk : no_inherited_key source source = true)
    by (apply no_inherited_key_same_keys, incl_refl).
  assert (He : forall per, (forall k v, per k v v = []) ->
                           shared_errors per source source = []).
  { intros per Hper. unfold shared_errors.
    rewrite (flat_map_ext_in _ (fun _ => [])).
    - apply flat_map_nil.
    - intros [k v] Hin. now rewrite (In_lookup k v source Hs Hin). }
  split; intros w Hf.
  - rewrite (DiffingFacts.validateFunc_ok source translation source w Hn Hf Hk).
    rewrite (He _ (pattern_errors_same translation)).
    unfold add_warnings, add_errors. simpl. rewrite app_nil_r.
    do 3 f_equal. f_equal. unfold untranslated_warnings.
    rewrite (flat_map_ext_in _ (fun e => [Diffing.warningMessage translation (fst e)])).
    + rewrite flat_map_singleton. unfold keys. now rewrite map_map.
    + intros [k v] Hin. rewrite (In_lookup k v source Hs Hin).
      now rewrite String.eqb_refl.
  - rewrite (NonDiffingFacts.validateFunc1_ok source translation source w Hn Hf Hk).
    rewrite He.
    + now rewrite NonDiffingFacts.add_errors1_nil.
    + intros k v. unfold param_errors. now rewrite Z.eqb_refl.
Qed.

Lemma validate_copy_of_source_witness :
  NonDiffing.validateFunc [("greet", "Hello {}"); ("bye", "Bye")] "fr.json"
    (start1 (sample_fs [("greet", "Hello {}"); ("bye", "Bye")]
                       [("greet", "Hello {}"); ("bye", "Bye")]))
  = (Ok tt, start1 (sample_fs [("greet", "Hello {}"); ("bye", "Bye")]
                              [("greet", "Hello {}"); ("bye", "Bye")])).
Proof.
  refine (proj2 (validate_copy_of_source [("greet", "Hello {}"); ("bye", "Bye")]
                   "fr.json" _ _)
                (start1 (sample_fs _ _)) eq_refl).
  - discriminate.
  - repeat constructor; simpl; intuition discriminate.
Defined.

(** ** The issues [validate] reports *)






(** ** A run on one file *)

Lemma dispatch_one (idx : Index) (run : string -> M Diffing.Report unit) (a : string) (w : World Diffing.Report) :
  a <> "" -> In a (Diffing.translations idx) ->
  Diffing.dispatch idx run (Some a) w = run a w.
Proof.
  intros Ha Hin. unfold Diffing.dispatch, truthy.
  apply String.eqb_neq in Ha. rewrite Ha.
  apply includes_In in Hin. now rewrite Hin.
Qed.

Lemma dispatch1_one (idx : Index) (run : string -> M NonDiffing.Report unit) (a : string) (w : World NonDiffing.Report) :
  a <> "" -> In a (NonDiffing.translations idx) ->
  NonDiffing.dispatch idx run (Some a) w = run a w.
Proof.
  intros Ha Hin. unfold NonDiffing.dispatch, truthy.
  apply String.eqb_neq in Ha. rewrite Ha.
  apply includes_In in Hin. now rewrite Hin.
Qed.

(** With the name of a target file as second argument, that file and
    [.result.json] are the only files the run can write, whatever the
    command and however the run ends: the other targets read as
    before. *)
Theorem run_on_one_file (idx : Index) (argv2 : option string) (a : string) :
  a <> "" -> In a (Diffing.translations idx) ->
  (forall (w : World Diffing.Report) name,
     name <> a -> name <> ".result.json" ->
     readFile (fs (snd (Diffing.main idx argv2 (Some a) w))) name = readFile (fs w) name)
  /\ (forall (w : World NonDiffing.Report) name,
        name <> a -> name <> ".result.json" ->
        readFile (fs (snd (NonDiffing.main idx argv2 (Some a) w))) name
        = readFile (fs w) name).
Proof.
  intros Ha Hin. split; intros w name Hna Hnr.
  - rewrite main_outcome.
    destruct (readFile (fs w) (Diffing.default_lang_file idx)) as [[dl|i|r]|];
      try reflexivity.
    destruct (command argv2) as [c|]; [|reflexivity].
    destruct (includes Diffing.commandNames c); [|reflexivity].
    destruct (Diffing.getCommand (Diffing.commands dl) c) as [run|] eqn:Er;
      [|reflexivity].
    rewrite (dispatch_one idx run a w Ha Hin).
    assert (F : written_only [a] (fs w) (fs (snd (run a w)))).
    { apply getCommand_cases in Er as [->| ->].
      - apply (frame_mergeFunc dl a w).
      - apply (written_only_mono []); [intros x []|].
        apply (frame_validateFunc dl a w). }
    assert (R : readFile (fs (snd (run a w))) name = readFile (fs w) name).
    { apply (written_only_readFile [a]); [exact F|]. intros [H|[]]. congruence. }
    clear Er F. destruct (run a w) as [[[]|e] w1]; cbn [fst snd fs readFile] in R |- *;
      [|exact R].
    destruct (String.eqb_spec ".result.json" name); [congruence | exact R].
  - rewrite main1_outcome.
    destruct (readFile (fs w) (NonDiffing.default_lang_file idx)) as [[dl|i|r]|];
      try reflexivity.
    destruct (command argv2) as [c|]; [|reflexivity].
    destruct (includes NonDiffing.commandNames c); [|reflexivity].
    destruct (NonDiffing.getCommand (NonDiffing.commands dl) c) as [run|] eqn:Er;
      [|reflexivity].
    rewrite (dispatch1_one idx run a w Ha Hin).
    assert (F : written_only [a] (fs w) (fs (snd (run a w)))).
    { apply getCommand1_cases in Er as [->| ->].
      - apply (frame1_mergeFunc dl a w).
      - apply (written_only_mono []); [intros x []|].
        apply (frame1_validateFunc dl a w). }
    assert (R : readFile (fs (snd (run a w))) name = readFile (fs w) name).
    { apply (written_only_readFile [a]); [exact F|]. intros [H|[]]. congruence. }
    clear Er F. destruct (run a w) as [[[]|e] w1]; cbn [fst snd fs readFile] in R |- *;
      [|exact R].
    destruct (String.eqb_spec ".result.json" name); [congruence | exact R].
Qed.

Lemma run_on_one_file_witness :
  readFile (fs (snd (Diffing.main sample_index3 (Some "merge") (Some "fr.json")
                       (start sample_fs3))))
           "de.json"
  = Some (TranslationFile [("greet", "Hallo")]).
Proof.
  refine (proj1 (run_on_one_file sample_index3 (Some "merge") "fr.json" _ _)
                (start sample_fs3) "de.json" _ _).
  - discriminate.
  - simpl. tauto.
  - discriminate.
  - discriminate.
Defined.

Lemma newTranslations_total_witness :
  incl ["de.json"] (Diffing.translations sample_index3)
  /\ (["de.json"] = [] -> Diffing.translations sample_index3 = []).
Proof.
  exact (proj2 (RunnerFrames.newTranslations_total sample_index3 "old/index.json"
                  (start sample_fs3))
               ["de.json"] eq_refl).
Defined.
